(** * Gate.io WebSocket session of DTrader Crypto: model and verification

    The development embeds the two variants of [GateIoWebSocketClient]:
    the balance-aware client with auto-reconnect (ping-pong, signed balance
    subscription, reconnect backoff) and the earlier ping-only client
    (module [PingOnly]).

    Program state is the record [World]: the private fields of the class,
    followed by the part of the Node.js runtime the class talks to (sockets
    of the [ws] package, timers, promises, the process).  Every method is a
    function on [World]; what a method does to the outside (settling a
    promise, sending a frame, arming a timer, writing a log line) is appended
    to the [trace].  [step] delivers one event of the event loop to its
    listener; listeners run to completion, one at a time.

    Numbers: identifiers, attempt counters and clock readings are integers
    ([Z]); a reconnect delay [1000 * 1.5^n] is an exact rational ([Q]; every
    value that occurs is a dyadic rational that binary64 holds exactly);
    balances are binary64 floats, added with IEEE-754 addition. *)

From Stdlib Require Import ZArith List String Ascii Bool Lia.
From Stdlib Require Import QArith Qminmax Qpower DecimalString.
From Stdlib Require Import Floats.PrimFloat Uint63.
Import ListNotations.
Open Scope string_scope.
Open Scope list_scope.
Open Scope Z_scope.
Set Warnings "-register-all".

(** ** JavaScript values *)

(** A parsed JSON frame, and every value the handlers inspect.  [JNum] holds
    integral numbers only: identifiers, error codes and clock readings. *)
Inductive jsval : Type :=
| JUndefined
| JNull
| JBool (b : bool)
| JNum (n : Z)
| JStr (s : string)
| JArr (items : list jsval)
| JObj (fields : list (string * jsval)).

(** [if (v)], [!v], [a || b], [a && b]. *)
Definition truthy (v : jsval) : bool :=
  match v with
  | JUndefined | JNull => false
  | JBool b => b
  | JNum n => negb (n =? 0)
  | JStr s => negb (s =? "")%string
  | JArr _ | JObj _ => true
  end.

Definition js_or (a b : jsval) : jsval := if truthy a then a else b.

Fixpoint lookup_field (k : string) (fs : list (string * jsval)) : jsval :=
  match fs with
  | [] => JUndefined
  | (k', v) :: rest => if (k =? k')%string then v else lookup_field k rest
  end.

(** [v.k] for the property names the client reads (none of them is a
    built-in of a primitive or of an array).  On [null] and [undefined] the
    access throws; the callers below split that case off first. *)
Definition field (v : jsval) (k : string) : jsval :=
  match v with
  | JObj fs => lookup_field k fs
  | _ => JUndefined
  end.

(** [v === "s"] and [v === n]. *)
Definition is_str (v : jsval) (s : string) : bool :=
  match v with
  | JStr s' => (s' =? s)%string
  | _ => false
  end.

Definition is_num (v : jsval) (n : Z) : bool :=
  match v with
  | JNum n' => n' =? n
  | _ => false
  end.

(** ** Number to string

    A [JNum n] stands for the binary64 number nearest to [n] (ties to even),
    which is [n] itself up to 2^53.  [Number::toString] prints the shortest
    decimal digits that read back as the same binary64 number, the closest
    to it when several do; the digits are padded with zeros below 10^21 and
    written with an exponent from there on. *)

Definition digits (n : Z) : string := NilZero.string_of_int (Z.to_int n).

Definition ulp (n : Z) : Z := 2 ^ Z.max 0 (Z.log2 n - 52).

Definition nearest64 (n : Z) : Z :=
  let u := ulp n in
  let q := n / u in
  let r := n mod u in
  if (2 * r <? u) || ((2 * r =? u) && Z.even q) then q * u else (q + 1) * u.

(** The multiples of [10^p] next to [x] that read back as [x]. *)
Definition candidates (x p : Z) : list Z :=
  let c := x / 10 ^ p * 10 ^ p in
  filter (fun c => (0 <? c) && (nearest64 c =? x)) [c; c + 10 ^ p].

(** The largest number of trailing zeros of a decimal that reads back as [x]. *)
Fixpoint trailing_zeros (fuel : nat) (x p : Z) : Z :=
  match fuel with
  | O => p
  | S f =>
      match candidates x (p + 1) with
      | [] => p
      | _ => trailing_zeros f x (p + 1)
      end
  end.

Definition closest (x p : Z) : Z :=
  match candidates x p with
  | [c] => c
  | [c1; c2] =>
      if (x - c1 <? c2 - x) || ((x - c1 =? c2 - x) && Z.even (c1 / 10 ^ p)) then c1 else c2
  | _ => x
  end.

Definition exponent_form (s : string) (e : Z) : string :=
  match s with
  | EmptyString => s
  | String d EmptyString => String d ("e+" ++ digits e)
  | String d rest => String d ("." ++ rest ++ "e+" ++ digits e)
  end.

(** [Number::toString] of a positive number. *)
Definition dec_positive (n : Z) : string :=
  let x := nearest64 n in
  if 2 ^ 1024 <=? x then "Infinity"
  else
    let p := trailing_zeros 400 x 0 in
    let c := closest x p in
    let n := Z.of_nat (String.length (digits c)) in
    if n <=? 21 then digits c else exponent_form (digits (c / 10 ^ p)) (n - 1).

(** Decimal rendering of an integral number, as a template literal and
    [String(n)] print it. *)
Definition dec (n : Z) : string :=
  if n =? 0 then "0"
  else if n <? 0 then "-" ++ dec_positive (- n)
  else dec_positive n.

Fixpoint join (sep : string) (parts : list string) : string :=
  match parts with
  | [] => ""
  | [p] => p
  | p :: rest => p ++ sep ++ join sep rest
  end.

Fixpoint all_some {A : Type} (xs : list (option A)) : option (list A) :=
  match xs with
  | [] => Some []
  | Some x :: rest =>
      match all_some rest with
      | Some ys => Some (x :: ys)
      | None => None
      end
  | None :: _ => None
  end.

Definition has_key (k : string) (fs : list (string * jsval)) : bool :=
  existsb (fun kv => (fst kv =? k)%string) fs.

(** ToString, as a template literal, [parseFloat] and [Array.prototype.join]
    apply it; [None] when it throws a [TypeError].  An object parsed from
    JSON converts through [Object.prototype.toString], unless a member of its
    own named [toString] hides that method: the member is no function, and
    [valueOf] returns the object, so the conversion has no primitive to
    return. *)
Fixpoint toStringJS (v : jsval) : option string :=
  match v with
  | JUndefined => Some "undefined"
  | JNull => Some "null"
  | JBool true => Some "true"
  | JBool false => Some "false"
  | JNum n => Some (dec n)
  | JStr s => Some s
  | JArr items =>
      option_map (join ",")
        ((fix elements (xs : list jsval) : option (list string) :=
            match xs with
            | [] => Some []
            | x :: rest =>
                match match x with
                      | JUndefined | JNull => Some ""
                      | _ => toStringJS x
                      end, elements rest with
                | Some s, Some ss => Some (s :: ss)
                | _, _ => None
                end
            end) items)
  | JObj fs => if has_key "toString" fs then None else Some "[object Object]"
  end.

(** [items.join(sep)]. *)
Definition js_join (sep : string) (items : list jsval) : option string :=
  option_map (join sep)
    (all_some (map (fun x => match x with
                             | JUndefined | JNull => Some ""
                             | _ => toStringJS x
                             end) items)).

(** ** The pending-request table

    [Map<number, {resolve, reject, timestamp}>]: an association list in
    insertion order, one entry per key.  The two closures of an entry belong
    to the promise of one [sendPing()] call, numbered by [waiter]. *)

Record PendingRequest : Type := mkPending { waiter : nat; timestamp : Z }.

Definition pmap : Type := list (Z * PendingRequest).

Fixpoint map_get (k : Z) (m : pmap) : option PendingRequest :=
  match m with
  | [] => None
  | (k', v) :: rest => if k =? k' then Some v else map_get k rest
  end.

Definition map_has (k : Z) (m : pmap) : bool :=
  match map_get k m with
  | Some _ => true
  | None => false
  end.

Fixpoint map_set (k : Z) (v : PendingRequest) (m : pmap) : pmap :=
  match m with
  | [] => [(k, v)]
  | (k', v') :: rest => if k =? k' then (k, v) :: rest else (k', v') :: map_set k v rest
  end.

Fixpoint map_delete (k : Z) (m : pmap) : pmap :=
  match m with
  | [] => []
  | (k', v') :: rest => if k =? k' then map_delete k rest else (k', v') :: map_delete k rest
  end.

Definition keys (m : pmap) : list Z := map fst m.

(** Lookups with a key taken from a frame: only a number can equal a key. *)
Definition has_js (id : jsval) (m : pmap) : bool :=
  match id with
  | JNum n => map_has n m
  | _ => false
  end.

Definition get_js (id : jsval) (m : pmap) : option PendingRequest :=
  match id with
  | JNum n => map_get n m
  | _ => None
  end.

Definition delete_js (id : jsval) (m : pmap) : pmap :=
  match id with
  | JNum n => map_delete n m
  | _ => m
  end.

(** ** SHA-512 and HMAC (FIPS 180-4, RFC 2104)

    What [crypto.createHmac("sha512", key).update(message).digest("hex")]
    computes.  Bytes and 64-bit words are integers; a string stands for its
    UTF-8 bytes. *)

Module SHA512.

Definition mask64 : Z := 2 ^ 64 - 1.
Definition wrap (x : Z) : Z := Z.land x mask64.
Definition plus64 (x y : Z) : Z := wrap (x + y).
Definition rotr (n x : Z) : Z := Z.lor (Z.shiftr x n) (wrap (Z.shiftl x (64 - n))).
Definition shr (n x : Z) : Z := Z.shiftr x n.

Definition ch (x y z : Z) : Z := Z.lxor (Z.land x y) (Z.land (Z.lxor x mask64) z).
Definition maj (x y z : Z) : Z :=
  Z.lxor (Z.lxor (Z.land x y) (Z.land x z)) (Z.land y z).
Definition bsig0 (x : Z) : Z := Z.lxor (Z.lxor (rotr 28 x) (rotr 34 x)) (rotr 39 x).
Definition bsig1 (x : Z) : Z := Z.lxor (Z.lxor (rotr 14 x) (rotr 18 x)) (rotr 41 x).
Definition ssig0 (x : Z) : Z := Z.lxor (Z.lxor (rotr 1 x) (rotr 8 x)) (shr 7 x).
Definition ssig1 (x : Z) : Z := Z.lxor (Z.lxor (rotr 19 x) (rotr 61 x)) (shr 6 x).

Definition K : list Z :=
  [ 0x428a2f98d728ae22; 0x7137449123ef65cd; 0xb5c0fbcfec4d3b2f; 0xe9b5dba58189dbbc;
    0x3956c25bf348b538; 0x59f111f1b605d019; 0x923f82a4af194f9b; 0xab1c5ed5da6d8118;
    0xd807aa98a3030242; 0x12835b0145706fbe; 0x243185be4ee4b28c; 0x550c7dc3d5ffb4e2;
    0x72be5d74f27b896f; 0x80deb1fe3b1696b1; 0x9bdc06a725c71235; 0xc19bf174cf692694;
    0xe49b69c19ef14ad2; 0xefbe4786384f25e3; 0x0fc19dc68b8cd5b5; 0x240ca1cc77ac9c65;
    0x2de92c6f592b0275; 0x4a7484aa6ea6e483; 0x5cb0a9dcbd41fbd4; 0x76f988da831153b5;
    0x983e5152ee66dfab; 0xa831c66d2db43210; 0xb00327c898fb213f; 0xbf597fc7beef0ee4;
    0xc6e00bf33da88fc2; 0xd5a79147930aa725; 0x06ca6351e003826f; 0x142929670a0e6e70;
    0x27b70a8546d22ffc; 0x2e1b21385c26c926; 0x4d2c6dfc5ac42aed; 0x53380d139d95b3df;
    0x650a73548baf63de; 0x766a0abb3c77b2a8; 0x81c2c92e47edaee6; 0x92722c851482353b;
    0xa2bfe8a14cf10364; 0xa81a664bbc423001; 0xc24b8b70d0f89791; 0xc76c51a30654be30;
    0xd192e819d6ef5218; 0xd69906245565a910; 0xf40e35855771202a; 0x106aa07032bbd1b8;
    0x19a4c116b8d2d0c8; 0x1e376c085141ab53; 0x2748774cdf8eeb99; 0x34b0bcb5e19b48a8;
    0x391c0cb3c5c95a63; 0x4ed8aa4ae3418acb; 0x5b9cca4f7763e373; 0x682e6ff3d6b2b8a3;
    0x748f82ee5defb2fc; 0x78a5636f43172f60; 0x84c87814a1f0ab72; 0x8cc702081a6439ec;
    0x90befffa23631e28; 0xa4506cebde82bde9; 0xbef9a3f7b2c67915; 0xc67178f2e372532b;
    0xca273eceea26619c; 0xd186b8c721c0c207; 0xeada7dd6cde0eb1e; 0xf57d4f7fee6ed178;
    0x06f067aa72176fba; 0x0a637dc5a2c898a6; 0x113f9804bef90dae; 0x1b710b35131c471b;
    0x28db77f523047d84; 0x32caab7b40c72493; 0x3c9ebe0a15c9bebc; 0x431d67c49c100d4c;
    0x4cc5d4becb3e42b6; 0x597f299cfc657e2a; 0x5fcb6fab3ad6faec; 0x6c44198c4a475817 ].

(** The eight working variables, also the shape of a hash value. *)
Record regs : Type := Regs { ra : Z; rb : Z; rc : Z; rd : Z; re : Z; rf : Z; rg : Z; rh : Z }.

Definition H0 : regs :=
  Regs 0x6a09e667f3bcc908 0xbb67ae8584caa73b 0x3c6ef372fe94f82b 0xa54ff53a5f1d36f1
       0x510e527fade682d1 0x9b05688c2b3e6c1f 0x1f83d9abfb41bd6b 0x5be0cd19137e2179.

(** Big-endian packing of bytes into a number, and of a number into [n] bytes. *)
Definition be_pack (bs : list Z) : Z := fold_left (fun acc b => acc * 256 + b) bs 0.

Fixpoint be_unpack (n : nat) (x : Z) : list Z :=
  match n with
  | O => []
  | S m => be_unpack m (x / 256) ++ [x mod 256]
  end.

Fixpoint chunks (size count : nat) (bs : list Z) : list (list Z) :=
  match count with
  | O => []
  | S c => firstn size bs :: chunks size c (skipn size bs)
  end.

(** Padding (5.1.2): the bit 1, zeros, then the bit length on 128 bits, to a
    multiple of 128 bytes. *)
Definition pad (msg : list Z) : list Z :=
  let len := Z.of_nat (List.length msg) in
  msg ++ [0x80] ++ repeat 0 (Z.to_nat ((111 - len) mod 128)) ++ be_unpack 16 (8 * len).

(** Message schedule (6.4.2, step 1), grown newest word first. *)
Fixpoint extend (n : nat) (rev_w : list Z) : list Z :=
  match n with
  | O => rev_w
  | S m =>
      let w2 := nth 1 rev_w 0 in
      let w7 := nth 6 rev_w 0 in
      let w15 := nth 14 rev_w 0 in
      let w16 := nth 15 rev_w 0 in
      extend m (plus64 (plus64 (ssig1 w2) w7) (plus64 (ssig0 w15) w16) :: rev_w)
  end.

Definition schedule (block : list Z) : list Z :=
  rev (extend 64 (rev (map be_pack (chunks 8 16 block)))).

Definition round (r : regs) (kw : Z * Z) : regs :=
  let t1 := plus64 (plus64 (plus64 (rh r) (bsig1 (re r))) (ch (re r) (rf r) (rg r)))
                   (plus64 (fst kw) (snd kw)) in
  let t2 := plus64 (bsig0 (ra r)) (maj (ra r) (rb r) (rc r)) in
  Regs (plus64 t1 t2) (ra r) (rb r) (rc r) (plus64 (rd r) t1) (re r) (rf r) (rg r).

Definition compress (h : regs) (block : list Z) : regs :=
  let r := fold_left round (combine K (schedule block)) h in
  Regs (plus64 (ra h) (ra r)) (plus64 (rb h) (rb r)) (plus64 (rc h) (rc r))
       (plus64 (rd h) (rd r)) (plus64 (re h) (re r)) (plus64 (rf h) (rf r))
       (plus64 (rg h) (rg r)) (plus64 (rh h) (rh r)).

Definition digest_bytes (h : regs) : list Z :=
  be_unpack 8 (ra h) ++ be_unpack 8 (rb h) ++ be_unpack 8 (rc h) ++ be_unpack 8 (rd h) ++
  be_unpack 8 (re h) ++ be_unpack 8 (rf h) ++ be_unpack 8 (rg h) ++ be_unpack 8 (rh h).

Definition hash (msg : list Z) : list Z :=
  let padded := pad msg in
  digest_bytes (fold_left compress (chunks 128 (List.length padded / 128) padded) H0).

End SHA512.

Definition bytes_of_string (s : string) : list Z :=
  map (fun c => Z.of_N (N_of_ascii c)) (list_ascii_of_string s).

Definition hex_alphabet : list ascii := list_ascii_of_string "0123456789abcdef".

Definition hex_digit (n : Z) : ascii := nth (Z.to_nat (n mod 16)) hex_alphabet "0"%char.

Fixpoint hex_of_bytes (bs : list Z) : string :=
  match bs with
  | [] => EmptyString
  | b :: rest => String (hex_digit (b / 16)) (String (hex_digit b) (hex_of_bytes rest))
  end.

(** HMAC over SHA-512: block size 128 bytes, inner pad 0x36, outer pad 0x5c. *)
Definition hmac_key_block (key : list Z) : list Z :=
  let k := if (List.length key <=? 128)%nat then key else SHA512.hash key in
  k ++ repeat 0 (128 - List.length k).

Definition hmac_sha512 (key msg : list Z) : list Z :=
  let kb := hmac_key_block key in
  SHA512.hash (map (Z.lxor 0x5c) kb ++ SHA512.hash (map (Z.lxor 0x36) kb ++ msg)).

(** The [Hmac] object of Node's [crypto]: the key and the data fed so far. *)
Record Hmac : Type := mkHmac { hmac_key : string; hmac_data : string }.

Definition createHmac_sha512 (key : string) : Hmac := mkHmac key "".
Definition hmac_update (data : string) (h : Hmac) : Hmac :=
  mkHmac (hmac_key h) (hmac_data h ++ data).
Definition hmac_digest_hex (h : Hmac) : string :=
  hex_of_bytes (hmac_sha512 (bytes_of_string (hmac_key h)) (bytes_of_string (hmac_data h))).

(** ** Runtime objects *)

(** Life cycle of a [WebSocket] of the [ws] package.  [ABORTING]: [close()]
    was called during the handshake, ['error'] and ['close'] are due.
    [CLOSING]: [close()] was called on an open socket.  [ERRORED]: ['error']
    was emitted and the ['close'] that follows it is due. *)
Inductive ReadyState : Type := CONNECTING | OPEN | ABORTING | CLOSING | ERRORED | CLOSED.

(** A socket with what the closures of its [connect()] call hold: the handle
    of the connection-timeout timer, and who awaits the promise that
    [connect()] returned (the reconnect timer callback, or the constructor's
    [connectionPromise], awaited by [TradingBot.start]). *)
Record Socket : Type := mkSocket {
  readyState : ReadyState;
  connectionTimeout : nat;
  viaReconnect : bool
}.

(** The promises of the program, by the call that created them: the one
    [connect()] returned for a socket, the one of a [sendPing()] call, the
    one of a [close()] call.  Numbers are allocation order. *)
Inductive promise : Type :=
| PConnect (sock : nat)
| PRequest (n : nat)
| PClose (n : nat).

Definition promise_eqb (p q : promise) : bool :=
  match p, q with
  | PConnect a, PConnect b => Nat.eqb a b
  | PRequest a, PRequest b => Nat.eqb a b
  | PClose a, PClose b => Nat.eqb a b
  | _, _ => false
  end.

(** The callbacks handed to [setTimeout] and [setInterval]. *)
Inductive Timer : Type :=
| TConnectionTimeout (sock : nat)   (* connect: setTimeout(..., 10000) *)
| TSettle (sock : nat)              (* open listener: await this.delay(3000) *)
| TReconnect                        (* scheduleReconnect: setTimeout(..., delay) *)
| TPingInterval                     (* startPingInterval: setInterval(..., 30000) *)
| TInitialSubscribe                 (* startBalanceInterval: setTimeout(..., 5000) *)
| TBalanceInterval                  (* startBalanceInterval: setInterval(..., 30000) *)
| TPingTimeout (p : nat).           (* sendPing: setTimeout(..., 10000), holding reject of request p *)

Definition is_interval (t : Timer) : bool :=
  match t with
  | TPingInterval | TBalanceInterval => true
  | _ => false
  end.

Definition is_reconnect (t : Timer) : bool :=
  match t with
  | TReconnect => true
  | _ => false
  end.

(** A settled promise: fulfilled with a value, or rejected with
    [new Error(message)]. *)
Inductive Outcome : Type :=
| Fulfilled (v : jsval)
| Rejected (message : string).

(** Lines of the balance handler; the amounts are the numbers before
    [toFixed(6)] formats them.  Other console output is not recorded. *)
Inductive logline : Type :=
| LogUsdtBalance (available locked total : float)
| LogChangeType (change_type : jsval)
| LogUsdtNotFound
| LogAvailableCurrencies (currencies : string)
| LogUnexpectedFormat
| LogBalanceFailure.

(** What a method does to the outside. *)
Inductive effect : Type :=
| Resolve (p : promise) (v : jsval)       (* resolve(v) of promise p is called *)
| Reject (p : promise) (message : string) (* reject(new Error(message)) of promise p *)
| Send (sock : nat) (frame : jsval)       (* the frame goes out on the socket *)
| NewSocket (sock : nat)                  (* new WebSocket(baseURL) *)
| SetTimer (h : nat) (t : Timer) (ms : Q) (* setTimeout / setInterval *)
| ConsoleLog (line : logline)
| ConsoleError (line : logline)
| Exit (code : Z).                        (* process.exit(code) *)

(** ** The session *)

Record World : Type := mkWorld {
  (* fields of GateIoWebSocketClient *)
  ws : option nat;
  isConnected : bool;
  isAuthenticated : bool;
  pingInterval : option nat;
  balanceInterval : option nat;
  reconnectInterval : option nat;
  requestId : Z;
  pendingRequests : pmap;
  apiKey : string;
  apiSecret : string;
  reconnectAttempts : Z;
  isReconnecting : bool;
  lastConnectionTime : Z;
  (* runtime *)
  sockets : nat -> Socket;
  nextSocket : nat;
  timers : nat -> option (Timer * Q);      (* the live timers, by handle *)
  nextTimer : nat;
  promises : promise -> option Outcome;    (* None while pending *)
  nextPromise : nat;
  closeListeners : list (nat * nat);       (* close(): ws.on("close", () => resolve()) *)
  exited : option Z;
  trace : list effect                      (* newest first *)
}.

Definition maxReconnectAttempts : Z := 10.
Definition reconnectDelay : Z := 1000.
Definition maxReconnectDelay : Z := 30000.

(** Field assignments. *)
Definition set_ws (v : option nat) (w : World) : World :=
  mkWorld v (isConnected w) (isAuthenticated w) (pingInterval w) (balanceInterval w)
    (reconnectInterval w) (requestId w) (pendingRequests w) (apiKey w) (apiSecret w)
    (reconnectAttempts w) (isReconnecting w) (lastConnectionTime w) (sockets w) (nextSocket w)
    (timers w) (nextTimer w) (promises w) (nextPromise w) (closeListeners w) (exited w)
    (trace w).
Definition set_isConnected (v : bool) (w : World) : World :=
  mkWorld (ws w) v (isAuthenticated w) (pingInterval w) (balanceInterval w)
    (reconnectInterval w) (requestId w) (pendingRequests w) (apiKey w) (apiSecret w)
    (reconnectAttempts w) (isReconnecting w) (lastConnectionTime w) (sockets w) (nextSocket w)
    (timers w) (nextTimer w) (promises w) (nextPromise w) (closeListeners w) (exited w)
    (trace w).
Definition set_isAuthenticated (v : bool) (w : World) : World :=
  mkWorld (ws w) (isConnected w) v (pingInterval w) (balanceInterval w) (reconnectInterval w)
    (requestId w) (pendingRequests w) (apiKey w) (apiSecret w) (reconnectAttempts w)
    (isReconnecting w) (lastConnectionTime w) (sockets w) (nextSocket w) (timers w)
    (nextTimer w) (promises w) (nextPromise w) (closeListeners w) (exited w) (trace w).
Definition set_pingInterval (v : option nat) (w : World) : World :=
  mkWorld (ws w) (isConnected w) (isAuthenticated w) v (balanceInterval w) (reconnectInterval w)
    (requestId w) (pendingRequests w) (apiKey w) (apiSecret w) (reconnectAttempts w)
    (isReconnecting w) (lastConnectionTime w) (sockets w) (nextSocket w) (timers w)
    (nextTimer w) (promises w) (nextPromise w) (closeListeners w) (exited w) (trace w).
Definition set_balanceInterval (v : option nat) (w : World) : World :=
  mkWorld (ws w) (isConnected w) (isAuthenticated w) (pingInterval w) v (reconnectInterval w)
    (requestId w) (pendingRequests w) (apiKey w) (apiSecret w) (reconnectAttempts w)
    (isReconnecting w) (lastConnectionTime w) (sockets w) (nextSocket w) (timers w)
    (nextTimer w) (promises w) (nextPromise w) (closeListeners w) (exited w) (trace w).
Definition set_reconnectInterval (v : option nat) (w : World) : World :=
  mkWorld (ws w) (isConnected w) (isAuthenticated w) (pingInterval w) (balanceInterval w) v
    (requestId w) (pendingRequests w) (apiKey w) (apiSecret w) (reconnectAttempts w)
    (isReconnecting w) (lastConnectionTime w) (sockets w) (nextSocket w) (timers w)
    (nextTimer w) (promises w) (nextPromise w) (closeListeners w) (exited w) (trace w).
Definition set_requestId (v : Z) (w : World) : World :=
  mkWorld (ws w) (isConnected w) (isAuthenticated w) (pingInterval w) (balanceInterval w)
    (reconnectInterval w) v (pendingRequests w) (apiKey w) (apiSecret w) (reconnectAttempts w)
    (isReconnecting w) (lastConnectionTime w) (sockets w) (nextSocket w) (timers w)
    (nextTimer w) (promises w) (nextPromise w) (closeListeners w) (exited w) (trace w).
Definition set_pendingRequests (v : pmap) (w : World) : World :=
  mkWorld (ws w) (isConnected w) (isAuthenticated w) (pingInterval w) (balanceInterval w)
    (reconnectInterval w) (requestId w) v (apiKey w) (apiSecret w) (reconnectAttempts w)
    (isReconnecting w) (lastConnectionTime w) (sockets w) (nextSocket w) (timers w)
    (nextTimer w) (promises w) (nextPromise w) (closeListeners w) (exited w) (trace w).
Definition set_reconnectAttempts (v : Z) (w : World) : World :=
  mkWorld (ws w) (isConnected w) (isAuthenticated w) (pingInterval w) (balanceInterval w)
    (reconnectInterval w) (requestId w) (pendingRequests w) (apiKey w) (apiSecret w) v
    (isReconnecting w) (lastConnectionTime w) (sockets w) (nextSocket w) (timers w)
    (nextTimer w) (promises w) (nextPromise w) (closeListeners w) (exited w) (trace w).
Definition set_isReconnecting (v : bool) (w : World) : World :=
  mkWorld (ws w) (isConnected w) (isAuthenticated w) (pingInterval w) (balanceInterval w)
    (reconnectInterval w) (requestId w) (pendingRequests w) (apiKey w) (apiSecret w)
    (reconnectAttempts w) v (lastConnectionTime w) (sockets w) (nextSocket w) (timers w)
    (nextTimer w) (promises w) (nextPromise w) (closeListeners w) (exited w) (trace w).
Definition set_lastConnectionTime (v : Z) (w : World) : World :=
  mkWorld (ws w) (isConnected w) (isAuthenticated w) (pingInterval w) (balanceInterval w)
    (reconnectInterval w) (requestId w) (pendingRequests w) (apiKey w) (apiSecret w)
    (reconnectAttempts w) (isReconnecting w) v (sockets w) (nextSocket w) (timers w)
    (nextTimer w) (promises w) (nextPromise w) (closeListeners w) (exited w) (trace w).
Definition set_sockets (v : nat -> Socket) (w : World) : World :=
  mkWorld (ws w) (isConnected w) (isAuthenticated w) (pingInterval w) (balanceInterval w)
    (reconnectInterval w) (requestId w) (pendingRequests w) (apiKey w) (apiSecret w)
    (reconnectAttempts w) (isReconnecting w) (lastConnectionTime w) v (nextSocket w) (timers w)
    (nextTimer w) (promises w) (nextPromise w) (closeListeners w) (exited w) (trace w).
Definition set_nextSocket (v : nat) (w : World) : World :=
  mkWorld (ws w) (isConnected w) (isAuthenticated w) (pingInterval w) (balanceInterval w)
    (reconnectInterval w) (requestId w) (pendingRequests w) (apiKey w) (apiSecret w)
    (reconnectAttempts w) (isReconnecting w) (lastConnectionTime w) (sockets w) v (timers w)
    (nextTimer w) (promises w) (nextPromise w) (closeListeners w) (exited w) (trace w).
Definition set_timers (v : nat -> option (Timer * Q)) (w : World) : World :=
  mkWorld (ws w) (isConnected w) (isAuthenticated w) (pingInterval w) (balanceInterval w)
    (reconnectInterval w) (requestId w) (pendingRequests w) (apiKey w) (apiSecret w)
    (reconnectAttempts w) (isReconnecting w) (lastConnectionTime w) (sockets w) (nextSocket w) v
    (nextTimer w) (promises w) (nextPromise w) (closeListeners w) (exited w) (trace w).
Definition set_nextTimer (v : nat) (w : World) : World :=
  mkWorld (ws w) (isConnected w) (isAuthenticated w) (pingInterval w) (balanceInterval w)
    (reconnectInterval w) (requestId w) (pendingRequests w) (apiKey w) (apiSecret w)
    (reconnectAttempts w) (isReconnecting w) (lastConnectionTime w) (sockets w) (nextSocket w)
    (timers w) v (promises w) (nextPromise w) (closeListeners w) (exited w) (trace w).
Definition set_promises (v : promise -> option Outcome) (w : World) : World :=
  mkWorld (ws w) (isConnected w) (isAuthenticated w) (pingInterval w) (balanceInterval w)
    (reconnectInterval w) (requestId w) (pendingRequests w) (apiKey w) (apiSecret w)
    (reconnectAttempts w) (isReconnecting w) (lastConnectionTime w) (sockets w) (nextSocket w)
    (timers w) (nextTimer w) v (nextPromise w) (closeListeners w) (exited w) (trace w).
Definition set_nextPromise (v : nat) (w : World) : World :=
  mkWorld (ws w) (isConnected w) (isAuthenticated w) (pingInterval w) (balanceInterval w)
    (reconnectInterval w) (requestId w) (pendingRequests w) (apiKey w) (apiSecret w)
    (reconnectAttempts w) (isReconnecting w) (lastConnectionTime w) (sockets w) (nextSocket w)
    (timers w) (nextTimer w) (promises w) v (closeListeners w) (exited w) (trace w).
Definition set_closeListeners (v : list (nat * nat)) (w : World) : World :=
  mkWorld (ws w) (isConnected w) (isAuthenticated w) (pingInterval w) (balanceInterval w)
    (reconnectInterval w) (requestId w) (pendingRequests w) (apiKey w) (apiSecret w)
    (reconnectAttempts w) (isReconnecting w) (lastConnectionTime w) (sockets w) (nextSocket w)
    (timers w) (nextTimer w) (promises w) (nextPromise w) v (exited w) (trace w).
Definition set_exited (v : option Z) (w : World) : World :=
  mkWorld (ws w) (isConnected w) (isAuthenticated w) (pingInterval w) (balanceInterval w)
    (reconnectInterval w) (requestId w) (pendingRequests w) (apiKey w) (apiSecret w)
    (reconnectAttempts w) (isReconnecting w) (lastConnectionTime w) (sockets w) (nextSocket w)
    (timers w) (nextTimer w) (promises w) (nextPromise w) (closeListeners w) v (trace w).
Definition set_trace (v : list effect) (w : World) : World :=
  mkWorld (ws w) (isConnected w) (isAuthenticated w) (pingInterval w) (balanceInterval w)
    (reconnectInterval w) (requestId w) (pendingRequests w) (apiKey w) (apiSecret w)
    (reconnectAttempts w) (isReconnecting w) (lastConnectionTime w) (sockets w) (nextSocket w)
    (timers w) (nextTimer w) (promises w) (nextPromise w) (closeListeners w) (exited w) v.

(** ** Runtime primitives *)

Definition fupd {A : Type} (f : nat -> A) (k : nat) (v : A) : nat -> A :=
  fun x => if Nat.eqb x k then v else f x.

Definition emit (e : effect) (w : World) : World := set_trace (e :: trace w) w.

(** [setTimeout] / [setInterval]: a fresh handle, live until it is cleared
    (or, for a timeout, until it fires). *)
Definition setTimer (t : Timer) (ms : Q) (w : World) : nat * World :=
  let h := nextTimer w in
  (h, emit (SetTimer h t ms)
        (set_nextTimer (S h) (set_timers (fupd (timers w) h (Some (t, ms))) w))).

(** [clearTimeout] / [clearInterval]. *)
Definition clearTimer (h : nat) (w : World) : World :=
  set_timers (fupd (timers w) h None) w.

(** [new Promise(...)] in [sendPing()] and [close()]. *)
Definition newPromise (w : World) : nat * World :=
  (nextPromise w, set_nextPromise (S (nextPromise w)) w).

Definition pupd (f : promise -> option Outcome) (p : promise) (o : option Outcome)
  : promise -> option Outcome :=
  fun q => if promise_eqb q p then o else f q.

(** A promise settles once; later calls of its functions change nothing. *)
Definition settle (p : promise) (o : Outcome) (w : World) : World :=
  match promises w p with
  | None => set_promises (pupd (promises w) p (Some o)) w
  | Some _ => w
  end.

Definition resolveP (p : promise) (v : jsval) (w : World) : World :=
  settle p (Fulfilled v) (emit (Resolve p v) w).

Definition rejectP (p : promise) (message : string) (w : World) : World :=
  settle p (Rejected message) (emit (Reject p message) w).

Definition processExit (code : Z) (w : World) : World :=
  emit (Exit code) (set_exited (Some code) w).

Definition setSocketState (sock : nat) (st : ReadyState) (w : World) : World :=
  let s := sockets w sock in
  set_sockets
    (fupd (sockets w) sock
       (mkSocket st (connectionTimeout s) (viaReconnect s))) w.

(** [ws.send(data)]: throws while the socket is still connecting ([None]),
    transmits on an open socket, drops the frame on a closing or closed one. *)
Definition wsSend (sock : nat) (frame : jsval) (w : World) : option World :=
  match readyState (sockets w sock) with
  | CONNECTING => None
  | OPEN => Some (emit (Send sock frame) w)
  | _ => Some w
  end.

(** [ws.close()]: starts the closing handshake of an open socket, aborts the
    handshake of a connecting one; the events that report it come later. *)
Definition wsClose (sock : nat) (w : World) : World :=
  match readyState (sockets w sock) with
  | CONNECTING => setSocketState sock ABORTING w
  | OPEN => setSocketState sock CLOSING w
  | _ => w
  end.

(** ** Methods of GateIoWebSocketClient (balance-aware client) *)

Record ConnectionStatus : Type := mkConnectionStatus {
  connected : bool;
  authenticated : bool;
  cs_reconnecting : bool
}.

Record ReconnectStatus : Type := mkReconnectStatus {
  attempts : Z;
  maxAttempts : Z;
  reconnecting : bool
}.

Definition getConnectionStatus (w : World) : ConnectionStatus :=
  mkConnectionStatus (isConnected w) (isAuthenticated w) (isReconnecting w).

Definition getReconnectStatus (w : World) : ReconnectStatus :=
  mkReconnectStatus (reconnectAttempts w) maxReconnectAttempts (isReconnecting w).

(** The body of [connect()] up to the registration of the listeners. *)
Definition connect (fromReconnect : bool) (w : World) : World :=
  let sock := nextSocket w in
  let w := emit (NewSocket sock) (set_nextSocket (S sock) w) in
  let w := set_ws (Some sock) w in
  let '(h, w) := setTimer (TConnectionTimeout sock) 10000 w in
  set_sockets (fupd (sockets w) sock (mkSocket CONNECTING h fromReconnect)) w.

Definition reconnectDelayFor (attempt : Z) : Q :=
  Qmin (inject_Z reconnectDelay * Qpower (3 # 2) (attempt - 1)) (inject_Z maxReconnectDelay).

Definition scheduleReconnect (w : World) : World :=
  if isReconnecting w || (maxReconnectAttempts <=? reconnectAttempts w) then w
  else
    let w := set_isReconnecting true w in
    let w := set_reconnectAttempts (reconnectAttempts w + 1) w in
    let delay := reconnectDelayFor (reconnectAttempts w) in
    let '(h, w) := setTimer TReconnect delay w in
    set_reconnectInterval (Some h) w.

Definition stopIntervals (w : World) : World :=
  let w := match pingInterval w with
           | Some h => set_pingInterval None (clearTimer h w)
           | None => w
           end in
  match balanceInterval w with
  | Some h => set_balanceInterval None (clearTimer h w)
  | None => w
  end.

Definition stopReconnection (w : World) : World :=
  let w := match reconnectInterval w with
           | Some h => set_reconnectInterval None (clearTimer h w)
           | None => w
           end in
  let w := set_isReconnecting false w in
  set_reconnectAttempts maxReconnectAttempts w.

(** [for (const [id, request] of this.pendingRequests)]: the loop deletes
    the entry it is visiting, so the live iterator still visits every entry
    that was in the table when the loop began. *)
Fixpoint rejectAllLoop (entries : pmap) (message : string) (w : World) : World :=
  match entries with
  | [] => w
  | (id, request) :: rest =>
      let w := rejectP (PRequest (waiter request)) message w in
      let w := set_pendingRequests (map_delete id (pendingRequests w)) w in
      rejectAllLoop rest message w
  end.

Definition rejectAllPendingRequests (message : string) (w : World) : World :=
  rejectAllLoop (pendingRequests w) message w.

Definition handleDisconnection (w : World) : World :=
  let w := set_isConnected false w in
  let w := set_isAuthenticated false w in
  let w := stopIntervals w in
  let w := rejectAllPendingRequests "Connection lost" w in
  if negb (isReconnecting w) then scheduleReconnect w else w.

Definition pingFrame (id : Z) : jsval :=
  JObj [("id", JNum id); ("method", JStr "server.ping"); ("params", JArr [])].

(** [sendPing()] at clock reading [now].  The function is [async]: a throw
    before the promise is built rejects the promise it returns. *)
Definition sendPing (now : Z) (w : World) : World :=
  let '(p, w) := newPromise w in
  match isConnected w, ws w with
  | true, Some sock =>
      let pingMessage := pingFrame (requestId w) in
      let w := set_pendingRequests
                 (map_set (requestId w) (mkPending p now) (pendingRequests w)) w in
      match wsSend sock pingMessage w with
      | Some w =>
          let w := snd (setTimer (TPingTimeout p) 10000 w) in
          set_requestId (requestId w + 1) w
      | None =>
          let w := set_pendingRequests (map_delete (requestId w) (pendingRequests w)) w in
          rejectP (PRequest p) "WebSocket is not open: readyState 0 (CONNECTING)" w
      end
  | _, _ => rejectP (PRequest p) "WebSocket not connected" w
  end.

(** The callback of the 10 s timer of [sendPing]; [p] is the request whose
    [reject] the closure holds.  [this.requestId] is read when the callback
    runs. *)
Definition onPingTimeout (p : nat) (w : World) : World :=
  if map_has (requestId w) (pendingRequests w) then
    let w' := set_pendingRequests (map_delete (requestId w) (pendingRequests w)) w in
    rejectP (PRequest p) ("PONG timeout for ID: " ++ dec (requestId w)) w'
  else w.

Definition pongFrame (pingId : jsval) : jsval :=
  JObj [("id", pingId); ("result", JStr "pong")].

Definition sendPong (pingId : jsval) (w : World) : World :=
  match isConnected w, ws w with
  | true, Some sock =>
      match wsSend sock (pongFrame pingId) w with
      | Some w' => w'
      | None => w
      end
  | _, _ => w
  end.

Definition generateSignature (w : World) (channel event : string) (timestamp : Z) : string :=
  let message : string :=
    ("channel=" ++ channel ++ "&event=" ++ event ++ "&time=" ++ dec timestamp)%string in
  hmac_digest_hex (hmac_update message (createHmac_sha512 (apiSecret w))).

Definition subscribeFrame (w : World) (timestamp : Z) (signature : string) : jsval :=
  JObj [("time", JNum timestamp);
        ("channel", JStr "spot.balances");
        ("event", JStr "subscribe");
        ("payload", JArr []);
        ("auth", JObj [("method", JStr "api_key");
                       ("KEY", JStr (apiKey w));
                       ("SIGN", JStr signature)])].

(** [subscribeToBalances()] at clock reading [now]; a throw of [send] is
    rethrown to callers that only log it. *)
Definition subscribeToBalances (now : Z) (w : World) : World :=
  match isConnected w, ws w with
  | true, Some sock =>
      let timestamp := now / 1000 in
      let signature := generateSignature w "spot.balances" "subscribe" timestamp in
      match wsSend sock (subscribeFrame w timestamp signature) w with
      | Some w' => w'
      | None => w
      end
  | _, _ => w
  end.

Definition startPingInterval (now : Z) (w : World) : World :=
  let w := sendPing now w in
  let '(h, w) := setTimer TPingInterval 30000 w in
  set_pingInterval (Some h) w.

Definition onPingInterval (now : Z) (w : World) : World :=
  match isConnected w, ws w with
  | true, Some _ => sendPing now w
  | _, _ => w
  end.

Definition startBalanceInterval (w : World) : World :=
  let w := snd (setTimer TInitialSubscribe 5000 w) in
  let '(h, w) := setTimer TBalanceInterval 30000 w in
  set_balanceInterval (Some h) w.

Definition onBalanceInterval (now now' : Z) (w : World) : World :=
  match isConnected w, ws w, isAuthenticated w with
  | true, Some _, true =>
      if 120000 <? now - lastConnectionTime w then subscribeToBalances now' w else w
  | _, _, _ => w
  end.

(** [balanceData.find(item => item.currency === c)]: reading a property of a
    [null] element throws. *)
Inductive find_result : Type :=
| FindThrew
| FindNone
| FindSome (item : jsval).

Fixpoint find_currency (c : string) (items : list jsval) : find_result :=
  match items with
  | [] => FindNone
  | JNull :: _ | JUndefined :: _ => FindThrew
  | item :: rest =>
      if is_str (field item "currency") c then FindSome item else find_currency c rest
  end.

Section Client.

(** [parseFloat] of the JavaScript runtime, on the string its argument
    converts to. *)
Variable parseFloat : string -> float.

(** The body is one [try] block: a conversion to string that throws (in
    [parseFloat], in [join], in a template literal) ends it in the [catch],
    after the lines already written. *)
Definition handleBalanceUpdate (balanceData : jsval) (w : World) : World :=
  match balanceData with
  | JArr items =>
      match find_currency "USDT" items with
      | FindSome usdtBalance =>
          match toStringJS (js_or (field usdtBalance "available") (JStr "0")),
                toStringJS (js_or (field usdtBalance "locked") (JStr "0")) with
          | Some a, Some l =>
              let available := parseFloat a in
              let locked := parseFloat l in
              let total := PrimFloat.add available locked in
              let w := emit (ConsoleLog (LogUsdtBalance available locked total)) w in
              if truthy (field usdtBalance "change_type") then
                match toStringJS (field usdtBalance "change_type") with
                | Some _ =>
                    emit (ConsoleLog (LogChangeType (field usdtBalance "change_type"))) w
                | None => emit (ConsoleError LogBalanceFailure) w
                end
              else w
          | _, _ => emit (ConsoleError LogBalanceFailure) w
          end
      | FindNone =>
          let w := emit (ConsoleLog LogUsdtNotFound) w in
          match js_join ", " (map (fun item => field item "currency") items) with
          | Some currencies => emit (ConsoleLog (LogAvailableCurrencies currencies)) w
          | None => emit (ConsoleError LogBalanceFailure) w
          end
      | FindThrew => emit (ConsoleError LogBalanceFailure) w
      end
  | _ => emit (ConsoleLog LogUnexpectedFormat) w
  end.

(** [handleMessage(message)] for a frame that is not [null]; [now] and [now']
    are the two successive readings of [Date.now()] of the pong branch.  When
    the template literal of the error branch throws, [reject] and [delete]
    are not reached. *)
Definition handleMessage (now now' : Z) (message : jsval) (w : World) : World :=
  let id := field message "id" in
  if truthy id && has_js id (pendingRequests w) && is_str (field message "result") "pong" then
    match get_js id (pendingRequests w) with
    | Some pendingRequest =>
        let latency := now - timestamp pendingRequest in
        let w := resolveP (PRequest (waiter pendingRequest))
                   (JObj [("latency", JNum latency); ("timestamp", JNum now')]) w in
        set_pendingRequests (delete_js id (pendingRequests w)) w
    | None => w
    end
  else if truthy id && has_js id (pendingRequests w) then
    match get_js id (pendingRequests w) with
    | Some pendingRequest =>
        if truthy (field message "error") then
          match toStringJS (field (field message "error") "message") with
          | Some text =>
              let w := rejectP (PRequest (waiter pendingRequest)) ("API Error: " ++ text) w in
              set_pendingRequests (delete_js id (pendingRequests w)) w
          | None => w
          end
        else
          let w := resolveP (PRequest (waiter pendingRequest)) (field message "result") w in
          set_pendingRequests (delete_js id (pendingRequests w)) w
    | None => w
    end
  else if is_str (field message "channel") "spot.balances"
          && is_str (field message "event") "update" then
    handleBalanceUpdate (field message "result") w
  else if is_str (field message "channel") "spot.balances"
          && is_str (field message "event") "subscribe" then
    if truthy (field message "error") then
      let w := set_isAuthenticated false w in
      if is_num (field (field message "error") "code") 1 then stopReconnection w else w
    else set_isAuthenticated true w
  else if is_str (field message "method") "server.ping" && truthy id then
    sendPong id w
  else w.

(** The ['message'] listener: [JSON.parse] may throw ([None]), and so does
    the first property read of [handleMessage] on [null]; what is thrown
    there or inside [handleMessage] is caught and logged. *)
Definition onMessage (data : option jsval) (now now' : Z) (w : World) : World :=
  match data with
  | None | Some JNull => w
  | Some message => handleMessage now now' message w
  end.

(** The ['open'] listener up to [await this.delay(3000)], and the rest of it
    once the delay has passed. *)
Definition onOpen (sock : nat) (now : Z) (w : World) : World :=
  let w := clearTimer (connectionTimeout (sockets w sock)) w in
  let w := set_isConnected true w in
  let w := set_isReconnecting false w in
  let w := set_reconnectAttempts 0 w in
  let w := set_lastConnectionTime now w in
  snd (setTimer (TSettle sock) 3000 w).

Definition onSettled (sock : nat) (now : Z) (w : World) : World :=
  let w := startPingInterval now w in
  let w := startBalanceInterval w in
  resolveP (PConnect sock) JUndefined w.

(** [reject(...)] of the promise of a [connect()] call, and whether that
    settled it. *)
Definition rejectConnect (sock : nat) (message : string) (w : World) : World * bool :=
  (rejectP (PConnect sock) message w,
   match promises w (PConnect sock) with
   | None => true
   | Some _ => false
   end).

(** Who awaits a rejected [connect()]: the reconnect timer callback catches
    and calls [scheduleReconnect]; for the first connection
    [TradingBot.start] rethrows and [Application.run] exits the process. *)
Definition afterConnectRejected (sock : nat) (w : World) : World :=
  if viaReconnect (sockets w sock) then scheduleReconnect w else processExit 1 w.

Definition onConnectionTimeout (sock : nat) (w : World) : World :=
  let '(w, settled) := rejectConnect sock "Connection timeout" w in
  let w := scheduleReconnect w in
  if settled then afterConnectRejected sock w else w.

(** The ['error'] listener of an established socket, and what the rejection
    of [connect()] sets off; [ws] emits the ['close'] of such a socket
    later. *)
Definition onError (sock : nat) (message : string) (w : World) : World :=
  let w := clearTimer (connectionTimeout (sockets w sock)) w in
  let w := handleDisconnection w in
  let '(w, settled) := rejectConnect sock message w in
  if settled then afterConnectRejected sock w else w.

Fixpoint resolveCloseListeners (sock : nat) (ls : list (nat * nat)) (w : World) : World :=
  match ls with
  | [] => w
  | (s, p) :: rest =>
      resolveCloseListeners sock rest
        (if Nat.eqb s sock then resolveP (PClose p) JUndefined w else w)
  end.

(** The ['close'] listeners of a socket: the one [connect()] registered,
    then those of [close()]; [Application.gracefulShutdown], which awaits
    [close()], then exits. *)
Definition onClose (sock : nat) (w : World) : World :=
  let w := clearTimer (connectionTimeout (sockets w sock)) w in
  let w := handleDisconnection w in
  let w := resolveCloseListeners sock (closeListeners w) w in
  if existsb (fun l => Nat.eqb (fst l) sock) (closeListeners w) then processExit 0 w else w.

(** A handshake that fails.  [ws] emits ['error'] and ['close'] one after
    the other, so the listeners of both run before any promise reaction:
    the ['error'] listener, the ['close'] listener of [connect()], the
    ['close'] listeners of [close()].  Of the reactions that follow,
    [gracefulShutdown] is the first to reach its [process.exit]: it awaits
    [close()] through [shutdown], one await less than the rejection of
    [connect()] takes through [waitForConnection], [start] and [run]. *)
Definition onHandshakeFailure (sock : nat) (message : string) (w : World) : World :=
  let w := clearTimer (connectionTimeout (sockets w sock)) w in
  let w := handleDisconnection w in
  let '(w, settled) := rejectConnect sock message w in
  let w := clearTimer (connectionTimeout (sockets w sock)) w in
  let w := handleDisconnection w in
  let w := resolveCloseListeners sock (closeListeners w) w in
  if existsb (fun l => Nat.eqb (fst l) sock) (closeListeners w) then processExit 0 w
  else if settled then afterConnectRejected sock w
  else w.

(** The callback of the reconnect timer. *)
Definition onReconnectTimer (w : World) : World := connect true w.

Definition close (w : World) : World :=
  let w := stopIntervals w in
  let w := stopReconnection w in
  let w := rejectAllPendingRequests "Connection closed by user" w in
  let '(p, w) := newPromise w in
  match ws w with
  | Some sock => wsClose sock (set_closeListeners (closeListeners w ++ [(sock, p)]) w)
  | None => resolveP (PClose p) JUndefined w
  end.

(** [Application.gracefulShutdown]: [await this.bot.shutdown()], which awaits
    [close()], then [process.exit(0)]. *)
Definition gracefulShutdown (w : World) : World :=
  let w' := close w in
  match ws w with
  | Some _ => w'
  | None => processExit 0 w'
  end.

(** ** The event loop *)

Inductive Event : Type :=
| EvOpen (sock : nat) (now : Z)
| EvMessage (sock : nat) (data : option jsval) (now now' : Z)
| EvError (sock : nat) (message : string)
| EvClose (sock : nat)
| EvTimer (h : nat) (now now' : Z)
| EvShutdown.

(** A live timer fires. *)
Definition fireTimer (h : nat) (now now' : Z) (w : World) : option World :=
  match timers w h with
  | None => None
  | Some (t, _) =>
      let w := if is_interval t then w else clearTimer h w in
      match t with
      | TConnectionTimeout sock => Some (onConnectionTimeout sock w)
      | TSettle sock => Some (onSettled sock now w)
      | TReconnect => Some (onReconnectTimer w)
      | TPingInterval => Some (onPingInterval now w)
      | TInitialSubscribe => Some (subscribeToBalances now w)
      | TBalanceInterval => Some (onBalanceInterval now now' w)
      | TPingTimeout p => Some (onPingTimeout p w)
      end
  end.

(** One event; [None] when the runtime cannot deliver it in this state.
    [EvError] on a socket in its handshake is the failure of the handshake,
    with the ['close'] that comes with it. *)
Definition step (w : World) (e : Event) : option World :=
  match exited w with
  | Some _ => None
  | None =>
      match e with
      | EvOpen sock now =>
          match readyState (sockets w sock) with
          | CONNECTING => Some (onOpen sock now (setSocketState sock OPEN w))
          | _ => None
          end
      | EvMessage sock data now now' =>
          match readyState (sockets w sock) with
          | OPEN | CLOSING => Some (onMessage data now now' w)
          | _ => None
          end
      | EvError sock message =>
          match readyState (sockets w sock) with
          | CONNECTING | ABORTING =>
              Some (onHandshakeFailure sock message (setSocketState sock CLOSED w))
          | OPEN | CLOSING => Some (onError sock message (setSocketState sock ERRORED w))
          | _ => None
          end
      | EvClose sock =>
          match readyState (sockets w sock) with
          | CLOSED => None
          | _ => Some (onClose sock (setSocketState sock CLOSED w))
          end
      | EvTimer h now now' => fireTimer h now now' w
      | EvShutdown => Some (gracefulShutdown w)
      end
  end.

Fixpoint run (w : World) (events : list Event) : option World :=
  match events with
  | [] => Some w
  | e :: rest =>
      match step w e with
      | Some w' => run w' rest
      | None => None
      end
  end.

End Client.

(** [new GateIoWebSocketClient(apiKey, apiSecret)]: the field initialisers,
    then [this.connectionPromise = this.connect()]. *)
Definition fresh (key secret : string) : World :=
  mkWorld None false false None None None 1 [] key secret 0 false 0
    (fun _ => mkSocket CLOSED 0 false) 0 (fun _ => None) 0 (fun _ => None) 0 [] None [].

Definition init (key secret : string) : World := connect false (fresh key secret).

(** ** The ping-only client

    The earlier variant of the class: no balance subscription and no
    reconnect.  It lives in the same [World]; the fields it lacks keep their
    initial values.  [sendPing], the callback of its timer and
    [rejectAllPendingRequests] have the same text in both variants. *)

Module PingOnly.

Definition sendPing (now : Z) (w : World) : World := sendPing now w.

Definition onPingTimeout (p : nat) (w : World) : World := onPingTimeout p w.

Definition rejectAllPendingRequests (message : string) (w : World) : World :=
  rejectAllPendingRequests message w.

Definition handleMessage (now now' : Z) (message : jsval) (w : World) : World :=
  let id := field message "id" in
  if is_str (field message "result") "pong" && truthy id then
    match get_js id (pendingRequests w) with
    | Some pendingRequest =>
        let latency := now - timestamp pendingRequest in
        let w := resolveP (PRequest (waiter pendingRequest))
                   (JObj [("latency", JNum latency); ("timestamp", JNum now')]) w in
        set_pendingRequests (delete_js id (pendingRequests w)) w
    | None => w
    end
  else if truthy id && has_js id (pendingRequests w) then
    match get_js id (pendingRequests w) with
    | Some pendingRequest =>
        if truthy (field message "error") then
          match toStringJS (field (field message "error") "message") with
          | Some text =>
              let w := rejectP (PRequest (waiter pendingRequest)) ("API Error: " ++ text) w in
              set_pendingRequests (delete_js id (pendingRequests w)) w
          | None => w
          end
        else
          let w := resolveP (PRequest (waiter pendingRequest)) (field message "result") w in
          set_pendingRequests (delete_js id (pendingRequests w)) w
    | None => w
    end
  else w.

Definition stopPingInterval (w : World) : World :=
  match pingInterval w with
  | Some h => set_pingInterval None (clearTimer h w)
  | None => w
  end.

Definition close (w : World) : World :=
  let w := stopPingInterval w in
  let w := rejectAllPendingRequests "Connection closed by user" w in
  let '(p, w) := newPromise w in
  match ws w with
  | Some sock => wsClose sock (set_closeListeners (closeListeners w ++ [(sock, p)]) w)
  | None => resolveP (PClose p) JUndefined w
  end.

(** The client once its socket is open: [isConnected] is set and nothing has
    been sent yet. *)
Definition connected : World :=
  mkWorld (Some 0%nat) true false None None None 1 [] "" "" 0 false 0
    (fun s => if Nat.eqb s 0 then mkSocket OPEN 0 false else mkSocket CLOSED 0 false)
    1 (fun _ => None) 1 (fun _ => None) 0 [] None [].

End PingOnly.

(** ** A sample [parseFloat]

    For closed examples: the leading plain decimal literal (sign, digits,
    fraction) of at most 15 digits, where the quotient of the two exactly
    represented integers is the correctly rounded value that [parseFloat]
    returns; [nan] when no digit leads. *)

Definition digit_of (c : ascii) : option Z :=
  let n := Z.of_N (N_of_ascii c) in
  if (48 <=? n) && (n <=? 57) then Some (n - 48) else None.

Fixpoint scan_digits (s : string) (acc : Z) (count : nat) : Z * nat * string :=
  match s with
  | String c rest =>
      match digit_of c with
      | Some d => scan_digits rest (10 * acc + d) (S count)
      | None => (acc, count, s)
      end
  | EmptyString => (acc, count, s)
  end.

Definition float_of_Z (n : Z) : float := PrimFloat.of_uint63 (Uint63.of_Z n).

Definition parseFloatDecimal (s : string) : float :=
  let '(negative, s1) :=
    match s with
    | String "-" rest => (true, rest)
    | String "+" rest => (false, rest)
    | _ => (false, s)
    end in
  let '(int_part, int_digits, s2) := scan_digits s1 0 0 in
  let '(mantissa, frac_digits, _) :=
    match s2 with
    | String "." rest => scan_digits rest int_part 0
    | _ => (int_part, 0%nat, s2)
    end in
  if Nat.eqb (int_digits + frac_digits) 0 then PrimFloat.nan
  else
    let v := PrimFloat.div (float_of_Z mantissa) (float_of_Z (10 ^ Z.of_nat frac_digits)) in
    if negative then PrimFloat.opp v else v.

(** ** Vocabulary of the statements *)



Definition arms_reconnect (e : effect) : bool :=
  match e with
  | SetTimer _ TReconnect _ => true
  | _ => false
  end.

(** Frames handed to a message handler one after the other, each with the
    clock readings of its delivery. *)
Fixpoint deliver (handle : Z -> Z -> jsval -> World -> World)
    (frames : list (jsval * Z * Z)) (w : World) : World :=
  match frames with
  | [] => w
  | (message, now, now') :: rest => deliver handle rest (handle now now' message w)
  end.

(** A property of the state an event sequence leads to. *)
Definition after (parseFloat : string -> float) (w : World) (events : list Event)
    (P : World -> Prop) : Prop :=
  match run parseFloat w events with
  | Some w' => P w'
  | None => False
  end.

Definition is_open_event (e : Event) : bool :=
  match e with
  | EvOpen _ _ => true
  | _ => false
  end.



(** ** Closed forms used by the proofs *)

(** One settling call, and a list of them, on the table of promise states. *)
Definition settleFn (p : promise) (o : Outcome) (f : promise -> option Outcome)
  : promise -> option Outcome :=
  match f p with
  | None => pupd f p (Some o)
  | Some _ => f
  end.

Definition settleAll (ps : list promise) (o : Outcome) (f : promise -> option Outcome)
  : promise -> option Outcome :=
  fold_left (fun g p => settleFn p o g) ps f.

(** [if (handle) clearTimeout(handle)] on the table of live timers. *)
Definition clearOpt (h : option nat) (f : nat -> option (Timer * Q))
  : nat -> option (Timer * Q) :=
  match h with
  | Some h => fupd f h None
  | None => f
  end.

(** The promises that the ['close'] event of a socket resolves. *)
Definition listeners_of (sock : nat) (ls : list (nat * nat)) : list promise :=
  map (fun l => PClose (snd l)) (filter (fun l => Nat.eqb (fst l) sock) ls).

(** The guard of [scheduleReconnect], and the body behind it. *)
Definition reconnect_blocked (w : World) : bool :=
  isReconnecting w || (maxReconnectAttempts <=? reconnectAttempts w).

Definition arm (w : World) : World :=
  set_reconnectInterval (Some (nextTimer w))
    (set_trace
       (SetTimer (nextTimer w) TReconnect (reconnectDelayFor (reconnectAttempts w + 1))
        :: trace w)
       (set_nextTimer (S (nextTimer w))
          (set_timers
             (fupd (timers w) (nextTimer w)
                (Some (TReconnect, reconnectDelayFor (reconnectAttempts w + 1))))
             (set_reconnectAttempts (reconnectAttempts w + 1)
                (set_isReconnecting true w))))).

(** [handleDisconnection] up to its last line: the flags are down, the
    intervals stopped, the pending requests rejected. *)
Definition disconnected (w : World) : World :=
  set_trace
    (rev (map (fun e => Reject (PRequest (waiter (snd e))) "Connection lost")
            (pendingRequests w)) ++ trace w)
    (set_promises
       (settleAll (map (fun e => PRequest (waiter (snd e))) (pendingRequests w))
          (Rejected "Connection lost") (promises w))
       (set_pendingRequests []
          (set_balanceInterval None
             (set_pingInterval None
                (set_timers
                   (clearOpt (balanceInterval w) (clearOpt (pingInterval w) (timers w)))
                   (set_isAuthenticated false (set_isConnected false w))))))).

(** The lines the balance handler writes, oldest last. *)
Definition balanceLines (parseFloat : string -> float) (balanceData : jsval) : list effect :=
  match balanceData with
  | JArr items =>
      match find_currency "USDT" items with
      | FindSome usdtBalance =>
          match toStringJS (js_or (field usdtBalance "available") (JStr "0")),
                toStringJS (js_or (field usdtBalance "locked") (JStr "0")) with
          | Some a, Some l =>
              let available := parseFloat a in
              let locked := parseFloat l in
              (if truthy (field usdtBalance "change_type") then
                 match toStringJS (field usdtBalance "change_type") with
                 | Some _ => [ConsoleLog (LogChangeType (field usdtBalance "change_type"))]
                 | None => [ConsoleError LogBalanceFailure]
                 end
               else [])
              ++ [ConsoleLog (LogUsdtBalance available locked (PrimFloat.add available locked))]
          | _, _ => [ConsoleError LogBalanceFailure]
          end
      | FindNone =>
          [match js_join ", " (map (fun item => field item "currency") items) with
           | Some currencies => ConsoleLog (LogAvailableCurrencies currencies)
           | None => ConsoleError LogBalanceFailure
           end;
           ConsoleLog LogUsdtNotFound]
      | FindThrew => [ConsoleError LogBalanceFailure]
      end
  | _ => [ConsoleLog LogUnexpectedFormat]
  end.

(** What [ws.send] puts on the wire, by the state of the socket. *)
Definition sent (sock : nat) (frame : jsval) (w : World) : list effect :=
  match readyState (sockets w sock) with
  | OPEN => [Send sock frame]
  | _ => []
  end.





(** ** Invariants of the running program *)

(** The guard of [scheduleReconnect] lets the counter move from 0 to 1 only;
    10 is reached through [stopReconnection] alone. *)
Definition ReconInv (w : World) : Prop :=
  (isReconnecting w = false /\ reconnectAttempts w = 0) \/
  (isReconnecting w = true /\ reconnectAttempts w = 1) \/
  (isReconnecting w = false /\ reconnectAttempts w = maxReconnectAttempts).

(** Timers whose callbacks act on the connection. *)
Definition connection_timer (t : Timer) : bool :=
  match t with
  | TReconnect | TConnectionTimeout _ | TSettle _ => true
  | _ => false
  end.

Definition dead (st : ReadyState) : Prop := st = ERRORED \/ st = CLOSED.

Definition handshaking (st : ReadyState) : Prop := st = CONNECTING \/ st = ABORTING.

(** A socket over which frames can still arrive. *)
Definition live (st : ReadyState) : bool :=
  match st with
  | OPEN | CLOSING => true
  | _ => false
  end.

(** One handshake at a time.  [ws] is the newest socket, and only that one
    can be in its handshake (older ones may still be open, or wait for
    their ['close']); while [isConnected] is set the newest socket is live;
    during a handshake [scheduleReconnect] is blocked, unless it is the
    handshake of the first connection, whose failure ends the process; a
    reconnect timer is pending only while no socket is in its handshake and
    [isConnected] is down, it is the one [reconnectInterval] holds and
    [isReconnecting] is set; the connection timeout of a socket lives only
    during its handshake; the settle delay belongs to a socket past its
    handshake; the handle of a connection timeout is that of no timer set
    later. *)
Record SocketInv (w : World) : Prop := mkSocketInv {
  si_ws : exists sock, ws w = Some sock /\ nextSocket w = S sock;
  si_old :
    forall s, S s <> nextSocket w -> ~ handshaking (readyState (sockets w s));
  si_unborn :
    forall s, (nextSocket w <= s)%nat -> readyState (sockets w s) = CLOSED;
  si_connected :
    isConnected w = true ->
    forall sock, nextSocket w = S sock -> live (readyState (sockets w sock)) = true;
  si_handshake :
    forall s, handshaking (readyState (sockets w s)) ->
      isReconnecting w = true \/ reconnectAttempts w = maxReconnectAttempts \/
      (viaReconnect (sockets w s) = false /\ promises w (PConnect s) = None /\
       nextSocket w = 1%nat);
  si_reconnect :
    forall h d, timers w h = Some (TReconnect, d) ->
      (forall s, ~ handshaking (readyState (sockets w s))) /\
      isReconnecting w = true /\ reconnectInterval w = Some h /\ isConnected w = false;
  si_timeout :
    forall h s d, timers w h = Some (TConnectionTimeout s, d) ->
      connectionTimeout (sockets w s) = h /\ handshaking (readyState (sockets w s));
  si_settle :
    forall h s d, timers w h = Some (TSettle s, d) ->
      (s < nextSocket w)%nat /\ ~ handshaking (readyState (sockets w s));
  si_handles :
    forall s, (connectionTimeout (sockets w s) < nextTimer w)%nat
}.

(** What the methods that only ping, subscribe and log leave alone: the
    reconnection fields, the sockets, the connection timers and promises,
    the socket handle, the promises of [close()] and [isConnected]; they
    arm no reconnect timer, settle no promise a second time and reuse no
    timer handle. *)
Definition socket_frame (w w' : World) : Prop :=
  isReconnecting w' = isReconnecting w /\
  reconnectAttempts w' = reconnectAttempts w /\
  reconnectInterval w' = reconnectInterval w /\
  sockets w' = sockets w /\
  nextSocket w' = nextSocket w /\
  exited w' = exited w /\
  (forall h t d, timers w' h = Some (t, d) -> connection_timer t = true ->
                 timers w h = Some (t, d)) /\
  (forall s, promises w' (PConnect s) = promises w (PConnect s)) /\
  ws w' = ws w /\
  filter arms_reconnect (trace w') = filter arms_reconnect (trace w) /\
  (forall p o, promises w p = Some o -> promises w' p = Some o) /\
  (forall n, promises w' (PClose n) = promises w (PClose n)) /\
  isConnected w' = isConnected w /\
  (nextTimer w <= nextTimer w')%nat.


(** Reconnect timers armed so far, and sockets created so far. *)
Definition armed (w : World) : nat := List.length (filter arms_reconnect (trace w)).

(** The states the program reaches from its start. *)
Definition reachable (parseFloat : string -> float) (w : World) : Prop :=
  exists key secret events, run parseFloat (init key secret) events = Some w.

(** The invariant of the program: it has exited, or one handshake at a
    time. *)
Definition Inv (w : World) : Prop := exited w <> None \/ SocketInv w.

(** The counter is at its maximum and no reconnect is under way. *)
Definition Capped (w : World) : Prop :=
  isReconnecting w = false /\ reconnectAttempts w = maxReconnectAttempts.

(** A promise is settled once: what it was settled with stays. *)
Definition Grows (w w' : World) : Prop :=
  forall p o, promises w p = Some o -> promises w' p = Some o.

(** What a handler that opens no socket and arms no reconnect timer leaves
    as it was; it settles no promise a second time. *)
Definition still (w w' : World) : Prop :=
  isReconnecting w' = isReconnecting w /\
  reconnectAttempts w' = reconnectAttempts w /\
  nextSocket w' = nextSocket w /\
  filter arms_reconnect (trace w') = filter arms_reconnect (trace w) /\
  (forall s, readyState (sockets w' s) = CONNECTING ->
             readyState (sockets w s) = CONNECTING) /\
  (forall h d, timers w' h = Some (TReconnect, d) -> timers w h = Some (TReconnect, d)) /\
  Grows w w'.

(** The table of pending requests: ids are below the counter, one waiter
    per entry, and the promise of every entry is pending; promises that were
    not made yet are not settled. *)
Record TableInv (w : World) : Prop := mkTableInv {
  ti_keys : forall k pr, In (k, pr) (pendingRequests w) -> 1 <= k < requestId w;
  ti_waiters :
    forall k pr, In (k, pr) (pendingRequests w) ->
      (waiter pr < nextPromise w)%nat /\ promises w (PRequest (waiter pr)) = None;
  ti_distinct : NoDup (map (fun e => waiter (snd e)) (pendingRequests w));
  ti_fresh : forall n, (nextPromise w <= n)%nat -> promises w (PRequest n) = None;
  ti_id : 1 <= requestId w
}.

Definition keeps_table (w w' : World) : Prop := TableInv w -> TableInv w'.

(** What the methods that send no ping and answer no request leave alone. *)
Definition table_same (w w' : World) : Prop :=
  pendingRequests w' = pendingRequests w /\
  requestId w' = requestId w /\
  nextPromise w' = nextPromise w /\
  forall n, promises w' (PRequest n) = promises w (PRequest n).

(** [still], the promises of [close()] are as they were, and the table stays
    well formed. *)
Definition steady (w w' : World) : Prop :=
  still w w' /\ (forall n, promises w' (PClose n) = promises w (PClose n)) /\
  keeps_table w w'.

(** No [close()] has resolved. *)
Definition NoClose (w : World) : Prop := forall n, promises w (PClose n) = None.

(** [close()] resolves last: when it has, the process has exited and no
    request is pending. *)
Definition CloseInv (w : World) : Prop :=
  NoClose w \/ (exited w <> None /\ pendingRequests w = []).

(** ** Sample sessions *)

Definition from_run (r : option World) : World :=
  match r with
  | Some w => w
  | None => fresh "" ""
  end.

(** The subscribe acknowledgement of a credential failure. *)
Definition ack_failure : jsval :=
  JObj [("channel", JStr "spot.balances"); ("event", JStr "subscribe");
        ("error", JObj [("code", JNum 1); ("message", JStr "invalid key")])].

(** A session whose socket has opened; the same after the settle delay, with
    the first ping pending; and then after the acknowledgement of a
    credential failure. *)
Definition opened : World :=
  from_run (run parseFloatDecimal (init "key" "secret") [EvOpen 0 1000]).

Definition pinging : World :=
  from_run (run parseFloatDecimal (init "key" "secret") [EvOpen 0 1000; EvTimer 1 4000 4000]).

Definition refused : World :=
  from_run (step parseFloatDecimal pinging (EvMessage 0 (Some ack_failure) 5000 5000)).

(** The session of [pinging] after its socket has closed: a reconnect is
    scheduled. *)
Definition lost : World :=
  from_run (run parseFloatDecimal (init "key" "secret")
              [EvOpen 0 1000; EvTimer 1 4000 4000; EvClose 0]).

(** Two probes are pending, under ids 1 and 2; the answer to the second
    arrives first. *)
Definition two_pending : World :=
  sendPing 200 (sendPing 100 PingOnly.connected).

(** ** Vocabulary of the properties of the handlers *)

(** What the steps that follow [handleDisconnection] in the listeners of
    ['close'] and ['error'] leave alone: the connection flags, the stored
    interval handles, the table, the interval timers; promises stay
    settled. *)
Definition after_disconnection (w w' : World) : Prop :=
  isConnected w' = isConnected w /\
  isAuthenticated w' = isAuthenticated w /\
  pingInterval w' = pingInterval w /\
  balanceInterval w' = balanceInterval w /\
  pendingRequests w' = pendingRequests w /\
  closeListeners w' = closeListeners w /\
  (forall h t d, timers w' h = Some (t, d) -> is_interval t = true ->
                 timers w h = Some (t, d)) /\
  Grows w w'.

(** The session after a disconnection of the session [w]: flags down,
    intervals stopped, table empty, every request that was pending rejected
    with "Connection lost". *)
Definition disconnected_from (w w' : World) : Prop :=
  isConnected w' = false /\
  isAuthenticated w' = false /\
  pingInterval w' = None /\
  balanceInterval w' = None /\
  pendingRequests w' = [] /\
  (forall h t d, pingInterval w = Some h \/ balanceInterval w = Some h ->
                 timers w' h = Some (t, d) -> is_interval t = false) /\
  (forall k pr, In (k, pr) (pendingRequests w) ->
                promises w' (PRequest (waiter pr)) = Some (Rejected "Connection lost")).

(** The reconnection machinery is as it was. *)
Definition same_reconnection (w w' : World) : Prop :=
  isReconnecting w' = isReconnecting w /\
  reconnectAttempts w' = reconnectAttempts w /\
  reconnectInterval w' = reconnectInterval w /\
  timers w' = timers w /\
  armed w' = armed w.

(** Every socket has closed, reconnection is stopped, the process runs and
    the [close()] whose promise is [p] has not resolved. *)
Definition Unplugged (p : nat) (w : World) : Prop :=
  (forall s, readyState (sockets w s) = CLOSED) /\
  Capped w /\ exited w = None /\ ws w <> None /\ promises w (PClose p) = None.

(** ** The deployment script ([deploy.js])

    [DeploymentManager.compareVersions] and the version check of
    [checkPrerequisites].  A component of a version string, once the first
    ["v"] is removed and the string is split at the dots, is modelled when
    [Number] makes of it [NaN] or an integer of at most 15 digits, which
    binary64 holds exactly, so that the subtraction of two components is
    exact.  On the other strings (a literal with an exponent, in another
    radix, of more digits, [Infinity], a character above 127) the model
    gives [None]. *)

Module Deploy.

Inductive number : Type :=
| NaN
| Num (n : Z).

(** [s.replace("v", "")]: a string pattern replaces its first occurrence. *)
Fixpoint remove_first (c : ascii) (s : string) : string :=
  match s with
  | EmptyString => EmptyString
  | String a rest => if Ascii.eqb a c then rest else String a (remove_first c rest)
  end.

(** [s.split(".")]. *)
Fixpoint split_on (c : ascii) (s : string) : list string :=
  match s with
  | EmptyString => [EmptyString]
  | String a rest =>
      if Ascii.eqb a c then EmptyString :: split_on c rest
      else match split_on c rest with
           | piece :: pieces => String a piece :: pieces
           | [] => [String a EmptyString]
           end
  end.

Definition code (c : ascii) : Z := Z.of_N (N_of_ascii c).

Definition between (lo hi : Z) (c : ascii) : bool := (lo <=? code c) && (code c <=? hi).

(** Tab, line feed, vertical tab, form feed, carriage return and space: the
    white space below 128 that [Number] trims. *)
Definition is_space (c : ascii) : bool := between 9 13 c || between 32 32 c.

Definition is_digit (c : ascii) : bool := between 48 57 c.

Definition is_hex (c : ascii) : bool := is_digit c || between 97 102 c || between 65 70 c.

Fixpoint drop_spaces (cs : list ascii) : list ascii :=
  match cs with
  | c :: rest => if is_space c then drop_spaces rest else cs
  | [] => []
  end.

Definition trim (cs : list ascii) : list ascii := rev (drop_spaces (rev (drop_spaces cs))).

Definition is_sign (c : ascii) : bool := Ascii.eqb c "+" || Ascii.eqb c "-".

Definition unsigned (cs : list ascii) : list ascii :=
  match cs with
  | c :: rest => if is_sign c then rest else cs
  | [] => []
  end.

Definition sign_of (cs : list ascii) : Z :=
  match cs with
  | c :: _ => if Ascii.eqb c "-" then -1 else 1
  | [] => 1
  end.

Definition digits_only (cs : list ascii) : bool :=
  match cs with
  | [] => false
  | _ => forallb is_digit cs
  end.

Fixpoint digits_value (cs : list ascii) (acc : Z) : Z :=
  match cs with
  | [] => acc
  | c :: rest => digits_value rest (10 * acc + (code c - 48))
  end.

(** Digits, [e] or [E], an optional sign, digits. *)
Fixpoint exponent_form (seen : bool) (cs : list ascii) : bool :=
  match cs with
  | [] => false
  | c :: rest =>
      if is_digit c then exponent_form true rest
      else seen && (Ascii.eqb c "e" || Ascii.eqb c "E") && digits_only (unsigned rest)
  end.

(** [0x], [0o] or [0b] and digits of that radix. *)
Definition radix_form (cs : list ascii) : bool :=
  match cs with
  | z :: x :: d :: rest =>
      Ascii.eqb z "0" &&
      (((Ascii.eqb x "x" || Ascii.eqb x "X") && forallb is_hex (d :: rest))
       || ((Ascii.eqb x "o" || Ascii.eqb x "O") && forallb (between 48 55) (d :: rest))
       || ((Ascii.eqb x "b" || Ascii.eqb x "B") && forallb (between 48 49) (d :: rest)))
  | _ => false
  end.

(** [Number(s)]: white space is trimmed; the empty string is 0; a signed
    run of digits is its value; what is no numeric literal is [NaN]. *)
Definition NumberJS (s : string) : option number :=
  let cs := list_ascii_of_string s in
  if existsb (fun c => 128 <=? code c) cs then None
  else
    let t := trim cs in
    let body := unsigned t in
    match t with
    | [] => Some (Num 0)
    | _ =>
        if digits_only body then
          if (List.length body <=? 15)%nat
          then Some (Num (sign_of t * digits_value body 0))
          else None
        else if existsb (fun c => Ascii.eqb c ".") t then None
        else if exponent_form false body then None
        else if String.eqb (string_of_list_ascii body) "Infinity" then None
        else if radix_form t then None
        else Some NaN
    end.

Fixpoint map_Number (pieces : list string) : option (list number) :=
  match pieces with
  | [] => Some []
  | piece :: rest =>
      match NumberJS piece, map_Number rest with
      | Some n, Some ns => Some (n :: ns)
      | _, _ => None
      end
  end.

Definition parseVersion (v : string) : option (list number) :=
  map_Number (split_on "." (remove_first "v" v)).

(** [parts[i] || 0]: 0 past the end of the array, and for [NaN]. *)
Definition component (parts : list number) (i : nat) : Z :=
  match nth_error parts i with
  | Some (Num n) => n
  | Some NaN | None => 0
  end.

(** The [for] loop from index [i] on, with [remaining] iterations to go. *)
Fixpoint compare_from (remaining i : nat) (v1Parts v2Parts : list number) : Z :=
  match remaining with
  | O => 0
  | S remaining' =>
      let part1 := component v1Parts i in
      let part2 := component v2Parts i in
      if part1 =? part2 then compare_from remaining' (S i) v1Parts v2Parts
      else part1 - part2
  end.

Definition compareVersions (v1 v2 : string) : option Z :=
  match parseVersion v1, parseVersion v2 with
  | Some v1Parts, Some v2Parts =>
      Some (compare_from (Nat.max (List.length v1Parts) (List.length v2Parts)) 0
              v1Parts v2Parts)
  | _, _ => None
  end.





End Deploy.

(** ** The connection status *)

(** The flags of [getConnectionStatus], the sockets and the handle [ws] are
    as they were. *)
Definition same_status (w w' : World) : Prop :=
  isConnected w' = isConnected w /\ isAuthenticated w' = isAuthenticated w /\
  sockets w' = sockets w /\ ws w' = ws w /\ nextSocket w' = nextSocket w.

(** [ws] is the newest socket, and it is live while [isConnected] is set. *)
Definition StatusInv (w : World) : Prop :=
  exists sock,
    ws w = Some sock /\ nextSocket w = S sock /\
    (isConnected w = true -> live (readyState (sockets w sock)) = true).

(** The session [y] once the socket [sock] of the session [w] has gone. *)
Definition gone (sock : nat) (w y : World) : Prop :=
  isConnected y = false /\ isAuthenticated y = false /\
  ws y = ws w /\ nextSocket y = nextSocket w /\
  live (readyState (sockets y sock)) = false.

(** ** Reconnect timers between two openings *)

(** Since the session that had armed [n] reconnect timers, none has been
    armed, or one has and [scheduleReconnect] is blocked. *)
Definition AtMostOne (n : nat) (w : World) : Prop :=
  armed w = n \/ (armed w = S n /\ reconnect_blocked w = true).

(** [scheduleReconnect] is blocked, and [n] reconnect timers were armed. *)
Definition Blocked (n : nat) (w : World) : Prop :=
  reconnect_blocked w = true /\ armed w = n.


(** ** More sample sessions *)

(** The session of [lost] once its reconnect timer has fired: a second
    socket is in its handshake. *)
Definition retrying : World :=
  from_run (run parseFloatDecimal lost [EvTimer 6 6000 6000]).

(** The session of [pinging] after a shutdown signal: [close()] waits for
    the socket to close. *)
Definition closing : World :=
  from_run (run parseFloatDecimal pinging [EvShutdown]).

(** The ["pong"] that answers the probe sent under id [n]. *)
Definition pong (n : Z) : jsval := JObj [("id", JNum n); ("result", JStr "pong")].

(** The session of [pinging] whose socket fails and is replaced by a second
    one, which opens before the ['close'] of the first arrives: that late
    ['close'] arms a reconnect timer while the second socket is open. *)
Definition overlapped : World :=
  from_run (run parseFloatDecimal pinging
              [EvError 0 "reset"; EvTimer 6 6000 6000; EvOpen 1 7000; EvClose 0]).

(** The same once that timer has fired: a third socket is connecting while
    the second is open. *)
Definition third_connecting : World :=
  from_run (run parseFloatDecimal overlapped [EvTimer 9 9000 9000]).

(** A session that has used nine of its ten attempts. *)
Definition nine_attempts : World := set_reconnectAttempts 9 opened.


(** ** Interval timers that nothing holds *)

(** The timer [h] is a running interval that no field of the client holds
    any more: it is neither [pingInterval] nor [balanceInterval] (nor the
    handle of another kind of timer). *)
Definition Leaked (h : nat) (w : World) : Prop :=
  (exists t d, timers w h = Some (t, d) /\ is_interval t = true) /\
  (h < nextTimer w)%nat /\
  pingInterval w <> Some h /\ balanceInterval w <> Some h /\ reconnectInterval w <> Some h /\
  (forall s, connectionTimeout (sockets w s) = h -> readyState (sockets w s) = CLOSED).

(** Timers, their handles and the sockets are as they were. *)
Definition untimed (w w' : World) : Prop :=
  timers w' = timers w /\ nextTimer w' = nextTimer w /\
  pingInterval w' = pingInterval w /\ balanceInterval w' = balanceInterval w /\
  reconnectInterval w' = reconnectInterval w /\ sockets w' = sockets w.

(** A socket that opens and closes within the settle delay, and its
    successor that opens before that delay has passed: both settle delays
    then start the intervals. *)
Definition leaky : World :=
  from_run (run parseFloatDecimal (init "key" "secret")
              [EvOpen 0 1000; EvClose 0; EvTimer 2 3000 3000; EvOpen 1 3200;
               EvTimer 1 4000 4000; EvTimer 4 6200 6200]).

(** * Verification *)

(** Field reads of field assignments, and nothing else. *)
Ltac gsimpl :=
  cbn [ws isConnected isAuthenticated pingInterval balanceInterval reconnectInterval
       requestId pendingRequests apiKey apiSecret reconnectAttempts isReconnecting
       lastConnectionTime sockets nextSocket timers nextTimer promises nextPromise
       closeListeners exited trace
       set_ws set_isConnected set_isAuthenticated set_pingInterval set_balanceInterval
       set_reconnectInterval set_requestId set_pendingRequests set_reconnectAttempts
       set_isReconnecting set_lastConnectionTime set_sockets set_nextSocket set_timers
       set_nextTimer set_promises set_nextPromise set_closeListeners set_exited set_trace
       emit clearTimer setTimer newPromise processExit setSocketState fst snd
       readyState connectionTimeout viaReconnect waiter timestamp].

Ltac fsimpl :=
  cbn [ws isConnected isAuthenticated pingInterval balanceInterval reconnectInterval
       requestId pendingRequests apiKey apiSecret reconnectAttempts isReconnecting
       lastConnectionTime sockets nextSocket timers nextTimer promises nextPromise
       closeListeners exited trace
       set_ws set_isConnected set_isAuthenticated set_pingInterval set_balanceInterval
       set_reconnectInterval set_requestId set_pendingRequests set_reconnectAttempts
       set_isReconnecting set_lastConnectionTime set_sockets set_nextSocket set_timers
       set_nextTimer set_promises set_nextPromise set_closeListeners set_exited set_trace
       emit clearTimer setTimer newPromise processExit setSocketState fst snd
       readyState connectionTimeout viaReconnect waiter timestamp] in *.

(** ** The table *)


Lemma map_get_delete_same (k : Z) (m : pmap) : map_get k (map_delete k m) = None.
Proof.
  induction m as [|[k' v'] m IH]; simpl; [reflexivity|].
  destruct (Z.eqb_spec k k'); [exact IH|].
  simpl. destruct (Z.eqb_spec k k'); [contradiction | exact IH].
Qed.



Lemma map_get_In (k : Z) (m : pmap) (v : PendingRequest) :
  map_get k m = Some v -> In (k, v) m.
Proof.
  induction m as [|[k' v'] m IH]; simpl; [discriminate|].
  destruct (Z.eqb_spec k k') as [->|Hne].
  - intros [= ->]. left. reflexivity.
  - intros H. right. exact (IH H).
Qed.

Lemma map_get_absent (k : Z) (m : pmap) :
  ~ In k (keys m) -> map_get k m = None.
Proof.
  induction m as [|[k' v'] m IH]; simpl; [reflexivity|].
  intros Hnin. destruct (Z.eqb_spec k k') as [->|Hne].
  - exfalso. apply Hnin. left. reflexivity.
  - apply IH. intros Hin. apply Hnin. right. exact Hin.
Qed.

Lemma In_map_delete (k : Z) (m : pmap) (e : Z * PendingRequest) :
  In e (map_delete k m) -> In e m /\ fst e <> k.
Proof.
  induction m as [|[k' v'] m IH]; simpl; [contradiction|].
  destruct (Z.eqb_spec k k') as [->|Hne].
  - intros H. destruct (IH H). split; [right|]; assumption.
  - intros [<-|H].
    + split; [left; reflexivity | simpl; congruence].
    + destruct (IH H). split; [right|]; assumption.
Qed.

Lemma In_map_set (k : Z) (v : PendingRequest) (m : pmap) (e : Z * PendingRequest) :
  In e (map_set k v m) -> e = (k, v) \/ In e m.
Proof.
  induction m as [|[k' v'] m IH]; simpl.
  - intros [<-|[]]. left. reflexivity.
  - destruct (Z.eqb_spec k k') as [->|Hne].
    + intros [<-|H]; [left; reflexivity | right; right; exact H].
    + intros [<-|H]; [right; left; reflexivity|].
      destruct (IH H) as [->|H']; [left; reflexivity | right; right; exact H'].
Qed.

Lemma map_set_absent (k : Z) (v : PendingRequest) (m : pmap) :
  ~ In k (keys m) -> map_set k v m = m ++ [(k, v)].
Proof.
  induction m as [|[k' v'] m IH]; simpl; [reflexivity|].
  intros Hnin. destruct (Z.eqb_spec k k') as [->|Hne].
  - exfalso. apply Hnin. left. reflexivity.
  - f_equal. apply IH. intros Hin. apply Hnin. right. exact Hin.
Qed.

(** Deleting, one after the other, the keys of a list that covers the table
    empties the table: the loop of [rejectAllPendingRequests]. *)
Lemma delete_all_covering (ks : list Z) (m : pmap) :
  (forall k, In k (keys m) -> In k ks) ->
  fold_left (fun t k => map_delete k t) ks m = [].
Proof.
  revert m. induction ks as [|k ks IH]; intros m Hcover; simpl.
  - destruct m as [|[k v] m]; [reflexivity|].
    exfalso. apply (Hcover k). left. reflexivity.
  - apply IH. intros k' Hin. unfold keys in Hin. apply in_map_iff in Hin.
    destruct Hin as [e [<- He]]. apply In_map_delete in He. destruct He as [He Hne].
    destruct (Hcover (fst e)) as [Heq|Hin'].
    + unfold keys. apply in_map. exact He.
    + congruence.
    + exact Hin'.
Qed.

(** ** Frames and the correlator *)


Lemma trace_settle (p : promise) (o : Outcome) (w : World) : trace (settle p o w) = trace w.
Proof. unfold settle. destruct (promises w p); reflexivity. Qed.

Lemma pendingRequests_settle (p : promise) (o : Outcome) (w : World) :
  pendingRequests (settle p o w) = pendingRequests w.
Proof. unfold settle. destruct (promises w p); reflexivity. Qed.

Lemma trace_resolveP (p : promise) (v : jsval) (w : World) :
  trace (resolveP p v w) = Resolve p v :: trace w.
Proof. unfold resolveP. rewrite trace_settle. reflexivity. Qed.


Lemma pendingRequests_resolveP (p : promise) (v : jsval) (w : World) :
  pendingRequests (resolveP p v w) = pendingRequests w.
Proof. unfold resolveP. rewrite pendingRequests_settle. reflexivity. Qed.










(** ** The correlator *)

Lemma deliver_app (handle : Z -> Z -> jsval -> World -> World)
    (before after : list (jsval * Z * Z)) (w : World) :
  deliver handle (before ++ after) w = deliver handle after (deliver handle before w).
Proof.
  revert w. induction before as [|[[m t] t'] before IH]; intros w; simpl;
    [reflexivity | apply IH].
Qed.






(** C7, as amended.  In both variants, a ["pong"] frame whose id matches a
    pending entry resolves the waiter of that entry with the latency
    [now - timestamp], the difference between the clock reading at
    resolution and the stored issue timestamp, and removes the entry: a
    probe issued at clock reading T and answered at reading T + L reports
    exactly L.  The latency is non-negative whenever the reading at
    resolution is not earlier than the stored timestamp. *)
Theorem C7_pong_latency :
  forall (parseFloat : string -> float) (handle : Z -> Z -> jsval -> World -> World)
         (w : World) (message : jsval) (n : Z) (pr : PendingRequest) (now now' : Z),
    handle = handleMessage parseFloat \/ handle = PingOnly.handleMessage ->
    field message "id" = JNum n ->
    n <> 0 ->
    map_get n (pendingRequests w) = Some pr ->
    is_str (field message "result") "pong" = true ->
    let latency := now - timestamp pr in
    trace (handle now now' message w) =
      Resolve (PRequest (waiter pr))
        (JObj [("latency", JNum latency); ("timestamp", JNum now')]) :: trace w /\
    map_get n (pendingRequests (handle now now' message w)) = None /\
    (forall T L, timestamp pr = T -> now = T + L -> latency = L) /\
    (timestamp pr <= now -> 0 <= latency).
Proof.
  intros parseFloat handle w message n pr now now' Hh Hid Hn Hget Hpong latency.
  assert (Htr : truthy (JNum n) = true)
    by (simpl; destruct (Z.eqb_spec n 0); [contradiction | reflexivity]).
  assert (Hrun : trace (handle now now' message w) =
                   Resolve (PRequest (waiter pr))
                     (JObj [("latency", JNum latency); ("timestamp", JNum now')]) :: trace w /\
                 pendingRequests (handle now now' message w) =
                   map_delete n (pendingRequests w)).
  { destruct Hh as [-> | ->].
    - unfold handleMessage. rewrite Hid, Htr, Hpong.
      cbn [has_js get_js delete_js andb]. unfold map_has. rewrite Hget. cbn [andb]. fsimpl.
      rewrite trace_resolveP, pendingRequests_resolveP. split; reflexivity.
    - unfold PingOnly.handleMessage. rewrite Hid, Htr, Hpong.
      cbn [has_js get_js delete_js andb]. rewrite Hget. fsimpl.
      rewrite trace_resolveP, pendingRequests_resolveP. split; reflexivity. }
  destruct Hrun as [Ht Hp].
  split; [exact Ht|].
  split; [rewrite Hp; apply map_get_delete_same|].
  split; [intros T L HT HL; subst latency; lia | intros Hle; subst latency; lia].
Qed.

Lemma C7_pong_latency_witness :
  trace (PingOnly.handleMessage 175 176 (JObj [("id", JNum 1); ("result", JStr "pong")])
           two_pending)
  = Resolve (PRequest 0) (JObj [("latency", JNum 75); ("timestamp", JNum 176)])
    :: trace two_pending.
Proof.
  exact (proj1
    (C7_pong_latency parseFloatDecimal PingOnly.handleMessage two_pending
       (JObj [("id", JNum 1); ("result", JStr "pong")]) 1 (mkPending 0 100) 175 176
       (or_intror eq_refl) eq_refl (fun H => Z.neq_succ_diag_l 0 H) eq_refl eq_refl)).
Defined.

(** C7, as it was stated, fails when [Date.now()] steps back between the
    probe and its answer (it is wall-clock time, and the handler does not
    clamp): the ping is stamped 4000, the pong is handled at reading 3990,
    and the waiter resolves with latency -10. *)
Lemma C7_counterexample :
  after parseFloatDecimal (init "key" "secret")
    [EvOpen 0 1000; EvTimer 1 4000 4000;
     EvMessage 0 (Some (JObj [("id", JNum 1); ("result", JStr "pong")])) 3990 3990]
    (fun w =>
       hd (Exit 0) (trace w) =
         Resolve (PRequest 0) (JObj [("latency", JNum (-10)); ("timestamp", JNum 3990)]))
  /\ -10 < 0.
Proof.
  vm_compute. split; reflexivity.
Qed.

(** ** The reconnect backoff *)

(** C4.  For every k from 1 to max_attempts, the call of [scheduleReconnect]
    that increments the attempt counter to k arms the reconnect timer with
    a delay of min(1000 * 1.5^(k-1), 30000) milliseconds. *)
Theorem C4_backoff_delay :
  forall (w : World) (k : Z),
    1 <= k <= maxReconnectAttempts ->
    isReconnecting w = false ->
    reconnectAttempts w = k - 1 ->
    let w' := scheduleReconnect w in
    reconnectAttempts w' = k /\
    isReconnecting w' = true /\
    reconnectInterval w' = Some (nextTimer w) /\
    exists delay : Q,
      timers w' (nextTimer w) = Some (TReconnect, delay) /\
      trace w' = SetTimer (nextTimer w) TReconnect delay :: trace w /\
      (delay == Qmin (1000 * (3 # 2) ^ (k - 1)) 30000)%Q.
Proof.
  intros w k Hk Hrec Hatt w'. subst w'. unfold scheduleReconnect.
  rewrite Hrec, Hatt. unfold maxReconnectAttempts in *.
  destruct (Z.leb_spec 10 (k - 1)) as [Hle|Hlt]; [lia|]. cbn [orb]. fsimpl.
  rewrite Hatt. replace (k - 1 + 1) with k by lia.
  split; [reflexivity|]. split; [reflexivity|]. split; [reflexivity|].
  exists (reconnectDelayFor k). unfold fupd. rewrite Nat.eqb_refl.
  split; [reflexivity|]. split; [reflexivity|].
  unfold reconnectDelayFor, reconnectDelay, maxReconnectDelay. reflexivity.
Qed.

Lemma C4_backoff_delay_witness :
  reconnectAttempts (scheduleReconnect PingOnly.connected) = 1.
Proof.
  refine (proj1 (C4_backoff_delay PingOnly.connected 1 _ eq_refl eq_refl)).
  unfold maxReconnectAttempts. split; discriminate.
Defined.

(** ** The balance handler *)








(** C9, as it was stated, fails on the array [[null]]: no entry has currency
    "USDT", yet the callback of [find] throws on the [null] element, and the
    handler writes the failure to the error log, with neither the not-found
    line nor the list of currencies.  It fails as well on an entry whose
    [available] is an object with a member named [toString]: [parseFloat]
    throws, and no amount is reported. *)
Lemma C9_counterexample :
  (forall x, In x [JNull] -> field x "currency" <> JStr "USDT") /\
  trace (handleBalanceUpdate parseFloatDecimal (JArr [JNull]) PingOnly.connected)
  = ConsoleError LogBalanceFailure :: trace PingOnly.connected /\
  trace (handleBalanceUpdate parseFloatDecimal
           (JArr [JObj [("currency", JStr "USDT");
                        ("available", JObj [("toString", JStr "1")]);
                        ("locked", JStr "2.25")]]) PingOnly.connected)
  = ConsoleError LogBalanceFailure :: trace PingOnly.connected.
Proof.
  split; [|split; reflexivity].
  intros x [<-|[]]. discriminate.
Qed.

(** ** The subscription signature *)








Example sha512_abc :
  hex_of_bytes (SHA512.hash (bytes_of_string "abc"))
  = ("ddaf35a193617abacc417349ae20413112e6fa4e89a97ea20a9eeee64b55d39a"
     ++ "2192992a274fc1a836ba3c23a3feebbd454d4423643ce80e2a9ac94fa54ca49f")%string.
Proof. vm_compute. reflexivity. Qed.

(** ** The ping timeout *)

(** C1 at the failing input.  The client connects and, once the settle delay
    has passed, sends its first ping (id 1, stamped 4000).  No frame
    arrives, and 10 s later the timer of that ping fires.  The callback
    looks up [this.requestId], which [sendPing] has already incremented to
    2: entry 1 is still in the table and its waiter is still pending, never
    rejected.  The ping-only client does the same. *)
Theorem C1_timeout_leaves_request_pending :
  after parseFloatDecimal (init "key" "secret")
    [EvOpen 0 1000; EvTimer 1 4000 4000; EvTimer 2 14000 14000]
    (fun w =>
       requestId w = 2 /\
       map_get 1 (pendingRequests w) = Some (mkPending 0 4000) /\
       promises w (PRequest 0) = None /\
       (forall m, ~ In (Reject (PRequest 0) m) (trace w)) /\
       timers w 2%nat = None)
  /\ after parseFloatDecimal (init "key" "secret") [EvOpen 0 1000; EvTimer 1 4000 4000]
       (fun w => timers w 2%nat = Some (TPingTimeout 0, 10000%Q))
  /\ (let sent := PingOnly.sendPing 4000 PingOnly.connected in
      let w := PingOnly.onPingTimeout 0 sent in
      pendingRequests sent = [(1, mkPending 0 4000)] /\
      pendingRequests w = [(1, mkPending 0 4000)] /\
      promises w (PRequest 0) = None /\
      trace w = trace sent).
Proof.
  vm_compute. repeat split; try reflexivity.
  intros m H. repeat (destruct H as [H|H]; [discriminate|]). exact H.
Qed.

(** ** Closed forms of the methods

    Each method, as field assignments on the state it starts from. *)

Ltac by_cases :=
  repeat (fsimpl;
          match goal with
          | |- context [match ?x with _ => _ end] => destruct x eqn:?
          end);
  try reflexivity.

Lemma settle_eq (p : promise) (o : Outcome) (w : World) :
  settle p o w = set_promises (settleFn p o (promises w)) w.
Proof. destruct w. unfold settle, settleFn. fsimpl. by_cases. Qed.

Lemma resolveP_eq (p : promise) (v : jsval) (w : World) :
  resolveP p v w =
  set_promises (settleFn p (Fulfilled v) (promises w)) (set_trace (Resolve p v :: trace w) w).
Proof. unfold resolveP. rewrite settle_eq. reflexivity. Qed.

Lemma rejectP_eq (p : promise) (m : string) (w : World) :
  rejectP p m w =
  set_promises (settleFn p (Rejected m) (promises w)) (set_trace (Reject p m :: trace w) w).
Proof. unfold rejectP. rewrite settle_eq. reflexivity. Qed.

Lemma rejectAllLoop_eq (entries : pmap) (message : string) (w : World) :
  rejectAllLoop entries message w =
  set_trace (rev (map (fun e => Reject (PRequest (waiter (snd e))) message) entries) ++ trace w)
    (set_promises
       (settleAll (map (fun e => PRequest (waiter (snd e))) entries) (Rejected message)
          (promises w))
       (set_pendingRequests
          (fold_left (fun t k => map_delete k t) (keys entries) (pendingRequests w)) w)).
Proof.
  revert w. induction entries as [|[k pr] entries IH]; intros w.
  - destruct w. reflexivity.
  - cbn [rejectAllLoop]. rewrite IH, rejectP_eq. clear IH. destruct w. fsimpl.
    cbn [map rev keys fold_left settleAll snd fst].
    rewrite <- app_assoc. reflexivity.
Qed.

Lemma rejectAllPendingRequests_eq (message : string) (w : World) :
  rejectAllPendingRequests message w =
  set_trace
    (rev (map (fun e => Reject (PRequest (waiter (snd e))) message) (pendingRequests w))
     ++ trace w)
    (set_promises
       (settleAll (map (fun e => PRequest (waiter (snd e))) (pendingRequests w))
          (Rejected message) (promises w))
       (set_pendingRequests [] w)).
Proof.
  unfold rejectAllPendingRequests. rewrite rejectAllLoop_eq.
  rewrite delete_all_covering by auto. reflexivity.
Qed.

Lemma resolveCloseListeners_eq (sock : nat) (ls : list (nat * nat)) (w : World) :
  resolveCloseListeners sock ls w =
  set_trace (rev (map (fun p => Resolve p JUndefined) (listeners_of sock ls)) ++ trace w)
    (set_promises (settleAll (listeners_of sock ls) (Fulfilled JUndefined) (promises w)) w).
Proof.
  revert w. induction ls as [|[s p] ls IH]; intros w.
  - destruct w. reflexivity.
  - cbn [resolveCloseListeners]. rewrite IH. clear IH. unfold listeners_of.
    cbn [filter fst snd]. destruct (Nat.eqb s sock); [|reflexivity].
    rewrite resolveP_eq. destruct w. fsimpl.
    cbn [map rev settleAll fold_left]. rewrite <- app_assoc. reflexivity.
Qed.

Lemma stopIntervals_eq (w : World) :
  stopIntervals w =
  set_balanceInterval None
    (set_pingInterval None
       (set_timers (clearOpt (balanceInterval w) (clearOpt (pingInterval w) (timers w))) w)).
Proof.
  destruct w as [sock connected authenticated [h1|] [h2|] ? ? ? ? ? ? ? ? ? ? ? ? ? ? ? ? ?];
    reflexivity.
Qed.

Lemma stopReconnection_eq (w : World) :
  stopReconnection w =
  set_reconnectAttempts maxReconnectAttempts
    (set_isReconnecting false
       (set_reconnectInterval None
          (set_timers (clearOpt (reconnectInterval w) (timers w)) w))).
Proof.
  destruct w as [sock connected authenticated ping balance [h|] ? ? ? ? ? ? ? ? ? ? ? ? ? ? ? ?];
    reflexivity.
Qed.

Lemma scheduleReconnect_eq (w : World) :
  scheduleReconnect w = if reconnect_blocked w then w else arm w.
Proof.
  unfold scheduleReconnect, reconnect_blocked, arm.
  destruct (isReconnecting w || (maxReconnectAttempts <=? reconnectAttempts w));
    [reflexivity|].
  destruct w. reflexivity.
Qed.

Lemma handleDisconnection_eq (w : World) :
  handleDisconnection w =
  let base :=
    set_trace
      (rev (map (fun e => Reject (PRequest (waiter (snd e))) "Connection lost")
              (pendingRequests w)) ++ trace w)
      (set_promises
         (settleAll (map (fun e => PRequest (waiter (snd e))) (pendingRequests w))
            (Rejected "Connection lost") (promises w))
         (set_pendingRequests []
            (set_balanceInterval None
               (set_pingInterval None
                  (set_timers
                     (clearOpt (balanceInterval w) (clearOpt (pingInterval w) (timers w)))
                     (set_isAuthenticated false (set_isConnected false w))))))) in
  if reconnect_blocked w then base else arm base.
Proof.
  unfold handleDisconnection.
  rewrite stopIntervals_eq, rejectAllPendingRequests_eq, scheduleReconnect_eq.
  unfold reconnect_blocked. fsimpl.
  destruct (isReconnecting w); reflexivity.
Qed.

Lemma handleBalanceUpdate_eq (parseFloat : string -> float) (data : jsval) (w : World) :
  handleBalanceUpdate parseFloat data w = set_trace (balanceLines parseFloat data ++ trace w) w.
Proof.
  destruct w. unfold handleBalanceUpdate, balanceLines. fsimpl. by_cases.
Qed.

Lemma wsSend_eq (sock : nat) (frame : jsval) (w : World) :
  wsSend sock frame w =
  match readyState (sockets w sock) with
  | CONNECTING => None
  | _ => Some (set_trace (sent sock frame w ++ trace w) w)
  end.
Proof. destruct w. unfold wsSend, sent. fsimpl. by_cases. Qed.

Lemma sendPong_eq (id : jsval) (w : World) :
  sendPong id w =
  set_trace
    (match isConnected w, ws w with
     | true, Some sock => sent sock (pongFrame id) w
     | _, _ => []
     end ++ trace w) w.
Proof.
  unfold sendPong. destruct (isConnected w), (ws w) as [sock|];
    try (destruct w; reflexivity).
  rewrite wsSend_eq. unfold sent.
  destruct (readyState (sockets w sock)); destruct w; reflexivity.
Qed.

Lemma subscribeToBalances_eq (now : Z) (w : World) :
  subscribeToBalances now w =
  set_trace
    (match isConnected w, ws w with
     | true, Some sock =>
         sent sock
           (subscribeFrame w (now / 1000)
              (generateSignature w "spot.balances" "subscribe" (now / 1000))) w
     | _, _ => []
     end ++ trace w) w.
Proof.
  unfold subscribeToBalances. destruct (isConnected w), (ws w) as [sock|];
    try (destruct w; reflexivity).
  rewrite wsSend_eq. unfold sent.
  destruct (readyState (sockets w sock)); destruct w; reflexivity.
Qed.

(** ** Frames: what pinging, subscribing and logging leave alone *)

Lemma socket_frame_refl (w : World) : socket_frame w w.
Proof. unfold socket_frame. repeat split; auto. Qed.

Lemma socket_frame_trans (w1 w2 w3 : World) :
  socket_frame w1 w2 -> socket_frame w2 w3 -> socket_frame w1 w3.
Proof.
  unfold socket_frame.
  intros (A1 & A2 & A3 & A4 & A5 & A6 & A7 & A8 & A9 & A10 & A11 & A12 & A13 & A14)
         (B1 & B2 & B3 & B4 & B5 & B6 & B7 & B8 & B9 & B10 & B11 & B12 & B13 & B14).
  repeat split; try congruence; try lia;
    try (intros h t d H Hc; apply A7; [apply B7|]; assumption);
    try (intros s; rewrite B8; apply A8);
    try (intros n; rewrite B12; apply A12).
  intros p o H. apply B11, A11, H.
Qed.

Lemma settleFn_other (p q : promise) (o : Outcome) (f : promise -> option Outcome) :
  promise_eqb q p = false -> settleFn p o f q = f q.
Proof.
  intros Hne. unfold settleFn, pupd. destruct (f p); [reflexivity|]. rewrite Hne. reflexivity.
Qed.

Lemma settleAll_other (ps : list promise) (q : promise) (o : Outcome)
    (f : promise -> option Outcome) :
  (forall p, In p ps -> promise_eqb q p = false) -> settleAll ps o f q = f q.
Proof.
  revert f. induction ps as [|p ps IH]; intros f Hne; [reflexivity|].
  cbn [settleAll fold_left]. change (settleAll ps o (settleFn p o f) q = f q).
  rewrite IH by (intros p' Hp'; apply Hne; right; exact Hp').
  apply settleFn_other. apply Hne. left. reflexivity.
Qed.

Lemma settleAll_requests_other (entries : pmap) (o : Outcome)
    (f : promise -> option Outcome) (q : promise) :
  (forall n, promise_eqb q (PRequest n) = false) ->
  settleAll (map (fun e => PRequest (waiter (snd e))) entries) o f q = f q.
Proof.
  intros Hq. apply settleAll_other. intros p Hp. apply in_map_iff in Hp.
  destruct Hp as [e [<- _]]. apply Hq.
Qed.

Lemma settleAll_listeners_connect (sock : nat) (ls : list (nat * nat)) (o : Outcome)
    (f : promise -> option Outcome) (s : nat) :
  settleAll (listeners_of sock ls) o f (PConnect s) = f (PConnect s).
Proof.
  apply settleAll_other. intros p Hp. unfold listeners_of in Hp. apply in_map_iff in Hp.
  destruct Hp as [e [<- _]]. reflexivity.
Qed.

(** A timer table after clearings and after arming timers that do not act
    on the connection still holds, of the connection timers, only those it
    held before. *)
Ltac timer_cases H :=
  unfold clearOpt, fupd in H;
  repeat match type of H with
         | context [match ?o with Some _ => _ | None => _ end] =>
             lazymatch o with
             | context [match _ with _ => _ end] => fail
             | context [if _ then _ else _] => fail
             | _ => destruct o eqn:?
             end
         | context [if Nat.eqb ?a ?b then _ else _] => destruct (Nat.eqb_spec a b)
         end;
  try discriminate.

Lemma settleFn_mono (p q : promise) (o r : Outcome) (f : promise -> option Outcome) :
  f q = Some r -> settleFn p o f q = Some r.
Proof.
  intros H. unfold settleFn, pupd. destruct (f p) eqn:Hp; [exact H|].
  destruct (promise_eqb q p) eqn:E; [|exact H].
  destruct q, p; cbn [promise_eqb] in E; try discriminate;
    apply Nat.eqb_eq in E; subst; congruence.
Qed.

Lemma settleAll_mono (ps : list promise) (q : promise) (o r : Outcome)
    (f : promise -> option Outcome) :
  f q = Some r -> settleAll ps o f q = Some r.
Proof.
  revert f. induction ps as [|p ps IH]; intros f H; [exact H|].
  cbn [settleAll fold_left]. apply IH. apply settleFn_mono. exact H.
Qed.

(** Effect lists that arm no reconnect timer. *)
Lemma quiet_rev_map (A : Type) (g : A -> effect) (l : list A) :
  (forall a, arms_reconnect (g a) = false) ->
  filter arms_reconnect (rev (map g l)) = [].
Proof.
  intros Hg. induction l as [|a l IH]; [reflexivity|].
  cbn [map rev]. rewrite filter_app, IH. cbn [filter app]. rewrite Hg. reflexivity.
Qed.

Lemma quiet_sent (sock : nat) (frame : jsval) (w : World) :
  filter arms_reconnect (sent sock frame w) = [].
Proof. unfold sent. destruct (readyState (sockets w sock)); reflexivity. Qed.

Lemma quiet_balanceLines (parseFloat : string -> float) (data : jsval) :
  filter arms_reconnect (balanceLines parseFloat data) = [].
Proof.
  unfold balanceLines. destruct data; try reflexivity.
  destruct (find_currency "USDT" _) as [| |item]; try reflexivity.
  - destruct (js_join _ _); reflexivity.
  - destruct (toStringJS (js_or (field item "available") (JStr "0")));
      [destruct (toStringJS (js_or (field item "locked") (JStr "0")))|]; try reflexivity.
    destruct (truthy _); [destruct (toStringJS _)|]; reflexivity.
Qed.

Ltac quiet_solve :=
  repeat match goal with
         | |- context [match ?x with _ => _ end] =>
             lazymatch x with
             | context [match _ with _ => _ end] => fail
             | _ => destruct x
             end
         end;
  cbn [filter arms_reconnect app];
  rewrite ?filter_app, ?quiet_sent, ?quiet_balanceLines;
  rewrite ?quiet_rev_map by reflexivity;
  cbn [filter arms_reconnect app];
  reflexivity.

Ltac frame_solve :=
  unfold socket_frame; gsimpl; repeat split; try reflexivity; try lia;
  match goal with
  | |- forall _ _ _, _ = Some _ -> _ =>
      let h := fresh "h" in let t := fresh "t" in let d := fresh "d" in
      let H := fresh "Htimer" in let Hc := fresh "Hkind" in
      intros h t d H Hc; timer_cases H;
      try (injection H as <- <-; discriminate Hc); try exact H
  | |- forall _ _, _ = Some _ -> _ =>
      let p := fresh "p" in let o := fresh "o" in let H := fresh "Hset" in
      intros p o H;
      repeat first [ apply settleAll_mono | apply settleFn_mono ];
      exact H
  | |- forall _, _ = _ =>
      let s := fresh "s" in
      intros s;
      repeat first [ rewrite settleAll_requests_other by (intros; reflexivity)
                   | rewrite settleFn_other by reflexivity ];
      reflexivity
  | |- filter arms_reconnect _ = _ => quiet_solve
  end.

Lemma frame_rejectAllPendingRequests (message : string) (w : World) :
  socket_frame w (rejectAllPendingRequests message w).
Proof. rewrite rejectAllPendingRequests_eq. frame_solve. Qed.

Lemma frame_stopIntervals (w : World) : socket_frame w (stopIntervals w).
Proof. rewrite stopIntervals_eq. frame_solve. Qed.

Lemma frame_handleBalanceUpdate (parseFloat : string -> float) (data : jsval) (w : World) :
  socket_frame w (handleBalanceUpdate parseFloat data w).
Proof. rewrite handleBalanceUpdate_eq. frame_solve. Qed.

Lemma frame_sendPong (id : jsval) (w : World) : socket_frame w (sendPong id w).
Proof. rewrite sendPong_eq. frame_solve. Qed.

Lemma frame_subscribeToBalances (now : Z) (w : World) :
  socket_frame w (subscribeToBalances now w).
Proof. rewrite subscribeToBalances_eq. frame_solve. Qed.

Lemma frame_sendPing (now : Z) (w : World) : socket_frame w (sendPing now w).
Proof.
  unfold sendPing. gsimpl. destruct (isConnected w), (ws w) as [sock|];
    try (rewrite rejectP_eq; frame_solve).
  rewrite wsSend_eq. gsimpl.
  destruct (readyState (sockets w sock)); try (rewrite rejectP_eq); frame_solve.
Qed.

Lemma frame_onPingTimeout (p : nat) (w : World) : socket_frame w (onPingTimeout p w).
Proof.
  unfold onPingTimeout. destruct (map_has (requestId w) (pendingRequests w));
    [rewrite rejectP_eq; frame_solve | apply socket_frame_refl].
Qed.

Lemma frame_startPingInterval (now : Z) (w : World) :
  socket_frame w (startPingInterval now w).
Proof.
  unfold startPingInterval. gsimpl.
  eapply socket_frame_trans; [apply (frame_sendPing now)|]. frame_solve.
Qed.

Lemma frame_startBalanceInterval (w : World) : socket_frame w (startBalanceInterval w).
Proof. unfold startBalanceInterval. frame_solve. Qed.

Lemma frame_onPingInterval (now : Z) (w : World) : socket_frame w (onPingInterval now w).
Proof.
  unfold onPingInterval. destruct (isConnected w), (ws w);
    try apply socket_frame_refl. apply frame_sendPing.
Qed.

Lemma frame_onBalanceInterval (now now' : Z) (w : World) :
  socket_frame w (onBalanceInterval now now' w).
Proof.
  unfold onBalanceInterval. destruct (isConnected w), (ws w), (isAuthenticated w);
    try apply socket_frame_refl.
  destruct (120000 <? now - lastConnectionTime w);
    [apply frame_subscribeToBalances | apply socket_frame_refl].
Qed.

Lemma SocketInv_frame (w w' : World) :
  socket_frame w w' -> SocketInv w -> SocketInv w'.
Proof.
  intros (F1 & F2 & F3 & F4 & F5 & F6 & F7 & F8 & F9 & _ & _ & _ & F13 & F14)
         [A B C D E F G H I].
  constructor.
  - rewrite F9, F5. exact A.
  - intros s Hs. rewrite F4. apply B. congruence.
  - intros s Hs. rewrite F4. apply C. congruence.
  - rewrite F13, F4, F5. exact D.
  - intros s Hs. rewrite F4 in Hs. rewrite F1, F2, F4, F5, F8. exact (E s Hs).
  - intros h d Ht. apply F7 in Ht; [|reflexivity].
    rewrite F1, F3, F4, F13. exact (F h d Ht).
  - intros h s d Ht. apply F7 in Ht; [|reflexivity].
    rewrite F4. exact (G h s d Ht).
  - intros h s d Ht. apply F7 in Ht; [|reflexivity].
    rewrite F4, F5. exact (H h s d Ht).
  - intros s. rewrite F4. pose proof (I s). lia.
Qed.

(** ** One handshake at a time *)

Lemma handshaking_not_closed (st : ReadyState) : handshaking st -> st <> CLOSED.
Proof. intros [-> | ->]; discriminate. Qed.

Lemma handshaking_not_dead (st : ReadyState) : handshaking st -> ~ dead st.
Proof. intros [-> | ->] [H|H]; discriminate. Qed.

Lemma handshaking_not_live (st : ReadyState) : handshaking st -> live st = false.
Proof. intros [-> | ->]; reflexivity. Qed.

(** A socket in its handshake is the newest one. *)
Lemma newest_of (w : World) (s : nat) :
  SocketInv w -> handshaking (readyState (sockets w s)) -> S s = nextSocket w.
Proof.
  intros Hinv Hst. destruct (Nat.eq_dec (S s) (nextSocket w)) as [E|E]; [exact E|].
  exfalso. exact (si_old w Hinv s E Hst).
Qed.

(** A socket that is not closed has been created. *)
Lemma born (w : World) (s : nat) :
  SocketInv w -> readyState (sockets w s) <> CLOSED -> (s < nextSocket w)%nat.
Proof.
  intros Hinv Hst. destruct (Nat.lt_ge_cases s (nextSocket w)) as [H|H]; [exact H|].
  exfalso. apply Hst. exact (si_unborn w Hinv s H).
Qed.

(** The socket [s] against the socket [sock] whose state was assigned. *)
Ltac sock_cases s sock :=
  fsimpl; unfold fupd in *;
  let Hne := fresh "Hne" in
  destruct (Nat.eq_dec s sock) as [->|Hne];
  [rewrite ?Nat.eqb_refl in * | rewrite ?(proj2 (Nat.eqb_neq s sock) Hne) in *];
  fsimpl.

Lemma SocketInv_stopReconnection (w : World) :
  SocketInv w -> SocketInv (stopReconnection w).
Proof.
  intros [A B C D E F G H I]. rewrite stopReconnection_eq. constructor; gsimpl;
    try assumption.
  - intros s Hs. right. left. reflexivity.
  - intros h d Ht. exfalso.
    timer_cases Ht; destruct (F h d Ht) as (_ & _ & Hh & _); congruence.
  - intros h s d Ht. timer_cases Ht; exact (G h s d Ht).
  - intros h s d Ht. timer_cases Ht; exact (H h s d Ht).
Qed.

Lemma SocketInv_processExit (code : Z) (w : World) :
  SocketInv w -> SocketInv (processExit code w).
Proof. intros [A B C D E F G H I]. constructor; gsimpl; assumption. Qed.

Lemma SocketInv_set_closeListeners (ls : list (nat * nat)) (w : World) :
  SocketInv w -> SocketInv (set_closeListeners ls w).
Proof. intros [A B C D E F G H I]. constructor; gsimpl; assumption. Qed.

Lemma SocketInv_set_isAuthenticated (b : bool) (w : World) :
  SocketInv w -> SocketInv (set_isAuthenticated b w).
Proof. intros [A B C D E F G H I]. constructor; gsimpl; assumption. Qed.

Lemma SocketInv_set_pendingRequests (t : pmap) (w : World) :
  SocketInv w -> SocketInv (set_pendingRequests t w).
Proof. intros [A B C D E F G H I]. constructor; gsimpl; assumption. Qed.

Lemma SocketInv_newPromise (w : World) : SocketInv w -> SocketInv (snd (newPromise w)).
Proof. intros [A B C D E F G H I]. constructor; gsimpl; assumption. Qed.

Lemma SocketInv_emit (e : effect) (w : World) : SocketInv w -> SocketInv (emit e w).
Proof. intros [A B C D E F G H I]. constructor; gsimpl; assumption. Qed.

Lemma SocketInv_clearTimer (h : nat) (w : World) : SocketInv w -> SocketInv (clearTimer h w).
Proof.
  intros [A B C D E F G H I]. constructor; gsimpl; try assumption.
  - intros h' d Ht. timer_cases Ht. exact (F h' d Ht).
  - intros h' s d Ht. timer_cases Ht. exact (G h' s d Ht).
  - intros h' s d Ht. timer_cases Ht. exact (H h' s d Ht).
Qed.

Lemma SocketInv_settle_request (n : nat) (o : Outcome) (w : World) :
  SocketInv w -> SocketInv (settle (PRequest n) o w).
Proof.
  intros [A B C D E F G H I]. rewrite settle_eq. constructor; gsimpl; try assumption.
  intros s Hs. rewrite settleFn_other by reflexivity. exact (E s Hs).
Qed.

Lemma SocketInv_settle_close (n : nat) (o : Outcome) (w : World) :
  SocketInv w -> SocketInv (settle (PClose n) o w).
Proof.
  intros [A B C D E F G H I]. rewrite settle_eq. constructor; gsimpl; try assumption.
  intros s Hs. rewrite settleFn_other by reflexivity. exact (E s Hs).
Qed.

(** Settling the promise of a [connect()] whose socket is past its
    handshake. *)
Lemma SocketInv_settle_connect (sock : nat) (o : Outcome) (w : World) :
  SocketInv w -> ~ handshaking (readyState (sockets w sock)) ->
  SocketInv (settle (PConnect sock) o w).
Proof.
  intros [A B C D E F G H I] Hns. rewrite settle_eq. constructor; gsimpl; try assumption.
  intros s Hs. destruct (E s Hs) as [E1|[E1|(E1 & E2 & E3)]]; auto.
  right. right. split; [exact E1|]. split; [|exact E3].
  rewrite settleFn_other; [exact E2|].
  cbn [promise_eqb]. apply Nat.eqb_neq. intros ->. exact (Hns Hs).
Qed.

Lemma SocketInv_resolveCloseListeners (sock : nat) (ls : list (nat * nat)) (w : World) :
  SocketInv w -> SocketInv (resolveCloseListeners sock ls w).
Proof.
  intros [A B C D E F G H I]. rewrite resolveCloseListeners_eq.
  constructor; gsimpl; try assumption.
  intros s Hs. rewrite settleAll_listeners_connect. exact (E s Hs).
Qed.

Lemma SocketInv_wsClose (sock : nat) (w : World) : SocketInv w -> SocketInv (wsClose sock w).
Proof.
  intros Hinv. pose proof Hinv as [A B C D E F G H I]. unfold wsClose.
  destruct (readyState (sockets w sock)) eqn:Hst; try exact Hinv.
  - (* the handshake is aborted *)
    constructor; gsimpl.
    + exact A.
    + intros s Hs Hh. apply (B s Hs). sock_cases s sock; [left; exact Hst | exact Hh].
    + intros s Hs. pose proof (C s Hs) as Hc. sock_cases s sock; [congruence | exact Hc].
    + intros Hc s Hn. pose proof (D Hc s Hn) as Hl.
      sock_cases s sock; [rewrite Hst in Hl; discriminate | exact Hl].
    + intros s Hs. sock_cases s sock; [apply E; left; exact Hst | exact (E s Hs)].
    + intros h d Ht. exfalso. destruct (F h d Ht) as (F1 & _).
      apply (F1 sock). left. exact Hst.
    + intros h s d Ht. destruct (G h s d Ht) as (G1 & G2).
      sock_cases s sock; [split; [exact G1 | right; reflexivity] | split; assumption].
    + intros h s d Ht. destruct (H h s d Ht) as (H1 & H2).
      sock_cases s sock; [exfalso; apply H2; left; exact Hst | split; assumption].
    + intros s. pose proof (I s) as Hi. pose proof (I sock).
      sock_cases s sock; [assumption | exact Hi].
  - (* the closing handshake of an open socket starts *)
    constructor; gsimpl.
    + exact A.
    + intros s Hs Hh. sock_cases s sock;
        [destruct Hh; discriminate | exact (B s Hs Hh)].
    + intros s Hs. pose proof (C s Hs) as Hc. sock_cases s sock; [congruence | exact Hc].
    + intros Hc s Hn. pose proof (D Hc s Hn) as Hl.
      sock_cases s sock; [reflexivity | exact Hl].
    + intros s Hs. sock_cases s sock; [destruct Hs; discriminate | exact (E s Hs)].
    + intros h d Ht. destruct (F h d Ht) as (F1 & F2). split; [|exact F2].
      intros s Hh. sock_cases s sock; [destruct Hh; discriminate | exact (F1 s Hh)].
    + intros h s d Ht. destruct (G h s d Ht) as (G1 & G2).
      sock_cases s sock; [destruct G2; congruence | split; assumption].
    + intros h s d Ht. destruct (H h s d Ht) as (H1 & H2).
      sock_cases s sock; [split; [exact H1 | intros [E0|E0]; discriminate]
                         | split; assumption].
    + intros s. pose proof (I s) as Hi. pose proof (I sock).
      sock_cases s sock; [assumption | exact Hi].
Qed.

(** ['open']: the socket leaves its handshake, its connection timeout is
    cleared and the settle delay starts. *)
Lemma SocketInv_open (sock : nat) (now : Z) (w : World) :
  SocketInv w -> readyState (sockets w sock) = CONNECTING ->
  SocketInv (onOpen sock now (setSocketState sock OPEN w)).
Proof.
  intros Hinv Hst. pose proof Hinv as [A B C D E F G H I].
  assert (Hnew : S sock = nextSocket w)
    by (apply newest_of; [exact Hinv | left; exact Hst]).
  assert (Hothers : forall s, s <> sock -> ~ handshaking (readyState (sockets w s))).
  { intros s Hne Hh. apply Hne. pose proof (newest_of w s Hinv Hh). lia. }
  unfold onOpen. constructor; gsimpl.
  - exact A.
  - intros s Hs Hh. sock_cases s sock; [lia | exact (B s Hs Hh)].
  - intros s Hs. pose proof (C s Hs) as Hc. sock_cases s sock; [lia | exact Hc].
  - intros _ s Hn. sock_cases s sock; [reflexivity | lia].
  - intros s Hs. exfalso.
    sock_cases s sock; [destruct Hs; discriminate | exact (Hothers s Hne Hs)].
  - intros h d Ht. exfalso. timer_cases Ht.
    destruct (F h d Ht) as (F1 & _). apply (F1 sock). left. exact Hst.
  - intros h s d Ht. exfalso. timer_cases Ht.
    destruct (G h s d Ht) as (G1 & G2).
    assert (s = sock) by (pose proof (newest_of w s Hinv G2); lia). subst s.
    match goal with
    | Hne : h <> _ |- _ => apply Hne; rewrite Nat.eqb_refl; gsimpl; congruence
    end.
  - intros h s d Ht. timer_cases Ht.
    + injection Ht as <- _. split; [lia|].
      unfold fupd. rewrite Nat.eqb_refl. gsimpl. intros [E0|E0]; discriminate.
    + destruct (H h s d Ht) as (H1 & H2). split; [exact H1|].
      intros Hh. sock_cases s sock; [destruct Hh; discriminate | exact (H2 Hh)].
  - intros s. pose proof (I s) as Hi. pose proof (I sock).
    sock_cases s sock; lia.
Qed.

(** ** A socket goes *)

Lemma handleDisconnection_disconnected (w : World) :
  handleDisconnection w =
  if reconnect_blocked w then disconnected w else arm (disconnected w).
Proof. rewrite handleDisconnection_eq. reflexivity. Qed.

Lemma blocked_disconnected (w : World) :
  reconnect_blocked (disconnected w) = reconnect_blocked w.
Proof. reflexivity. Qed.

Lemma blocked_arm (w : World) : reconnect_blocked (arm w) = true.
Proof. reflexivity. Qed.

(** Past [handleDisconnection], [scheduleReconnect] is blocked. *)
Lemma blocked_handleDisconnection (w : World) :
  reconnect_blocked (handleDisconnection w) = true.
Proof.
  rewrite handleDisconnection_disconnected.
  destruct (reconnect_blocked w) eqn:Hb; [exact Hb | reflexivity].
Qed.

Lemma sockets_handleDisconnection (w : World) :
  sockets (handleDisconnection w) = sockets w.
Proof.
  rewrite handleDisconnection_disconnected. destruct (reconnect_blocked w); reflexivity.
Qed.

Lemma blocked_rejectP (p : promise) (m : string) (w : World) :
  reconnect_blocked (rejectP p m w) = reconnect_blocked w.
Proof. rewrite rejectP_eq. reflexivity. Qed.

Lemma blocked_resolveCloseListeners (sock : nat) (ls : list (nat * nat)) (w : World) :
  reconnect_blocked (resolveCloseListeners sock ls w) = reconnect_blocked w.
Proof. rewrite resolveCloseListeners_eq. reflexivity. Qed.

Lemma scheduleReconnect_blocked (w : World) :
  reconnect_blocked w = true -> scheduleReconnect w = w.
Proof. intros Hb. rewrite scheduleReconnect_eq, Hb. reflexivity. Qed.

Lemma handleDisconnection_blocked (w : World) :
  reconnect_blocked w = true -> handleDisconnection w = disconnected w.
Proof. intros Hb. rewrite handleDisconnection_disconnected, Hb. reflexivity. Qed.

Lemma SocketInv_disconnected (w : World) : SocketInv w -> SocketInv (disconnected w).
Proof.
  intros [A B C D E F G H I]. unfold disconnected. constructor; gsimpl; try assumption.
  - intros Hc. discriminate Hc.
  - intros s Hs. rewrite settleAll_requests_other by (intros; reflexivity). exact (E s Hs).
  - intros h d Ht. timer_cases Ht;
      (destruct (F h d Ht) as (F1 & F2 & F3 & _); repeat split; assumption).
  - intros h s d Ht. timer_cases Ht; exact (G h s d Ht).
  - intros h s d Ht. timer_cases Ht; exact (H h s d Ht).
Qed.

(** A socket goes, by ['error'] or by ['close']: its connection timeout is
    cleared and the session is disconnected. *)
Lemma SocketInv_died (sock : nat) (st : ReadyState) (w : World) :
  SocketInv w -> readyState (sockets w sock) <> CLOSED -> dead st ->
  SocketInv (disconnected
               (clearTimer (connectionTimeout (sockets (setSocketState sock st w) sock))
                  (setSocketState sock st w))).
Proof.
  intros Hinv Hst Hdead. pose proof Hinv as [A B C D E F G H I].
  pose proof (born w sock Hinv Hst) as Hborn.
  unfold disconnected. constructor; gsimpl.
  - exact A.
  - intros s Hs Hh. sock_cases s sock;
      [exact (handshaking_not_dead st Hh Hdead) | exact (B s Hs Hh)].
  - intros s Hs. pose proof (C s Hs) as Hc. sock_cases s sock; [lia | exact Hc].
  - intros Hc. discriminate Hc.
  - intros s Hs. rewrite settleAll_requests_other by (intros; reflexivity).
    sock_cases s sock; [exfalso; exact (handshaking_not_dead st Hs Hdead) | exact (E s Hs)].
  - intros h d Ht. timer_cases Ht;
      (destruct (F h d Ht) as (F1 & F2 & F3 & _); split; [|repeat split; assumption];
       intros s Hh; sock_cases s sock;
       [exact (handshaking_not_dead st Hh Hdead) | exact (F1 s Hh)]).
  - intros h s d Ht. timer_cases Ht;
      (destruct (G h s d Ht) as (G1 & G2);
       sock_cases s sock; [|split; assumption];
       exfalso;
       match goal with
       | Hn : h <> _ |- _ => apply Hn; rewrite ?Nat.eqb_refl; gsimpl; congruence
       end).
  - intros h s d Ht. timer_cases Ht;
      (destruct (H h s d Ht) as (H1 & H2); split; [exact H1|];
       intros Hh; sock_cases s sock;
       [exact (handshaking_not_dead st Hh Hdead) | exact (H2 Hh)]).
  - intros s. pose proof (I s) as Hi. pose proof (I sock).
    sock_cases s sock; [assumption | exact Hi].
Qed.

(** When the socket that goes leaves [scheduleReconnect] free to act, no
    other socket is in its handshake. *)
Lemma died_no_handshake (sock : nat) (st : ReadyState) (w : World) :
  SocketInv w -> readyState (sockets w sock) <> CLOSED -> dead st ->
  reconnect_blocked w = false ->
  forall s, ~ handshaking (readyState (sockets (setSocketState sock st w) s)).
Proof.
  intros Hinv Hst Hdead Hb s Hh. pose proof (born w sock Hinv Hst) as Hborn.
  unfold reconnect_blocked in Hb. apply orb_false_iff in Hb. destruct Hb as [Hb1 Hb2].
  gsimpl. sock_cases s sock; [exact (handshaking_not_dead st Hh Hdead)|].
  destruct (si_handshake w Hinv s Hh) as [E1|[E1|(_ & _ & E3)]].
  - congruence.
  - rewrite E1 in Hb2. discriminate Hb2.
  - pose proof (newest_of w s Hinv Hh). lia.
Qed.

Lemma SocketInv_arm (w : World) :
  SocketInv w -> isConnected w = false -> reconnect_blocked w = false ->
  (forall s, ~ handshaking (readyState (sockets w s))) ->
  SocketInv (arm w).
Proof.
  intros [A B C D E F G H I] Hc Hb Hno. unfold reconnect_blocked in Hb.
  apply orb_false_iff in Hb. destruct Hb as [Hb1 Hb2].
  unfold arm. constructor; gsimpl; try assumption.
  - intros s Hs. exfalso. exact (Hno s Hs).
  - intros h d Ht. split; [exact Hno|]. split; [reflexivity|]. timer_cases Ht.
    + split; [congruence | exact Hc].
    + destruct (F h d Ht) as (_ & F2 & _). congruence.
  - intros h s d Ht. timer_cases Ht. exact (G h s d Ht).
  - intros h s d Ht. timer_cases Ht. exact (H h s d Ht).
  - intros s. pose proof (I s). lia.
Qed.

(** The session after the listener of a socket that goes has called
    [handleDisconnection]. *)
Lemma SocketInv_gone (sock : nat) (st : ReadyState) (w : World) :
  SocketInv w -> readyState (sockets w sock) <> CLOSED -> dead st ->
  SocketInv (handleDisconnection
               (clearTimer (connectionTimeout (sockets (setSocketState sock st w) sock))
                  (setSocketState sock st w))).
Proof.
  intros Hinv Hst Hdead. rewrite handleDisconnection_disconnected.
  pose proof (SocketInv_died sock st w Hinv Hst Hdead) as Hbase.
  match goal with
  | |- SocketInv (if reconnect_blocked ?x then _ else _) =>
      change (reconnect_blocked x) with (reconnect_blocked w)
  end.
  destruct (reconnect_blocked w) eqn:Hb; [exact Hbase|].
  apply SocketInv_arm; [exact Hbase | reflexivity | exact Hb|].
  exact (died_no_handshake sock st w Hinv Hst Hdead Hb).
Qed.

Lemma state_gone (sock : nat) (st : ReadyState) (w : World) :
  readyState
    (sockets (handleDisconnection
                (clearTimer (connectionTimeout (sockets (setSocketState sock st w) sock))
                   (setSocketState sock st w))) sock) = st.
Proof.
  rewrite sockets_handleDisconnection. gsimpl. unfold fupd. rewrite Nat.eqb_refl. reflexivity.
Qed.

Lemma SocketInv_rejectConnect (sock : nat) (message : string) (w : World) :
  SocketInv w -> ~ handshaking (readyState (sockets w sock)) ->
  SocketInv (rejectP (PConnect sock) message w).
Proof.
  intros Hinv Hns. unfold rejectP.
  apply SocketInv_settle_connect; [apply SocketInv_emit; exact Hinv | exact Hns].
Qed.

(** ['error'] on an established socket. *)
Lemma Inv_onError (sock : nat) (message : string) (w : World) :
  SocketInv w -> readyState (sockets w sock) <> CLOSED ->
  Inv (onError sock message (setSocketState sock ERRORED w)).
Proof.
  intros Hinv Hst. unfold onError, rejectConnect, afterConnectRejected.
  pose proof (SocketInv_gone sock ERRORED w Hinv Hst (or_introl eq_refl)) as H1.
  pose proof (state_gone sock ERRORED w) as Hs.
  pose proof (blocked_handleDisconnection
                (clearTimer (connectionTimeout (sockets (setSocketState sock ERRORED w) sock))
                   (setSocketState sock ERRORED w))) as Hb.
  revert H1 Hs Hb.
  generalize (handleDisconnection
                (clearTimer (connectionTimeout (sockets (setSocketState sock ERRORED w) sock))
                   (setSocketState sock ERRORED w))).
  intros w1 H1 Hs Hb.
  assert (H2 : SocketInv (rejectP (PConnect sock) message w1)).
  { apply SocketInv_rejectConnect; [exact H1|]. rewrite Hs. intros [E|E]; discriminate. }
  cbv zeta. cbn [fst snd].
  destruct (promises w1 (PConnect sock)); [right; exact H2|].
  destruct (viaReconnect _).
  - right. rewrite scheduleReconnect_blocked; [exact H2|]. rewrite blocked_rejectP. exact Hb.
  - left. unfold processExit. gsimpl. discriminate.
Qed.

(** ['close'] on a socket. *)
Lemma Inv_onClose (sock : nat) (w : World) :
  SocketInv w -> readyState (sockets w sock) <> CLOSED ->
  Inv (onClose sock (setSocketState sock CLOSED w)).
Proof.
  intros Hinv Hst. unfold onClose.
  pose proof (SocketInv_gone sock CLOSED w Hinv Hst (or_intror eq_refl)) as H1.
  revert H1.
  generalize (handleDisconnection
                (clearTimer (connectionTimeout (sockets (setSocketState sock CLOSED w) sock))
                   (setSocketState sock CLOSED w))).
  intros w1 H1. cbv zeta.
  destruct (existsb _ _).
  - left. unfold processExit. gsimpl. discriminate.
  - right. apply SocketInv_resolveCloseListeners. exact H1.
Qed.

(** A handshake fails. *)
Lemma Inv_onHandshakeFailure (sock : nat) (message : string) (w : World) :
  SocketInv w -> readyState (sockets w sock) <> CLOSED ->
  Inv (onHandshakeFailure sock message (setSocketState sock CLOSED w)).
Proof.
  intros Hinv Hst. unfold onHandshakeFailure, rejectConnect, afterConnectRejected.
  pose proof (SocketInv_gone sock CLOSED w Hinv Hst (or_intror eq_refl)) as H1.
  pose proof (state_gone sock CLOSED w) as Hs.
  pose proof (blocked_handleDisconnection
                (clearTimer (connectionTimeout (sockets (setSocketState sock CLOSED w) sock))
                   (setSocketState sock CLOSED w))) as Hb.
  revert H1 Hs Hb.
  generalize (handleDisconnection
                (clearTimer (connectionTimeout (sockets (setSocketState sock CLOSED w) sock))
                   (setSocketState sock CLOSED w))).
  intros w1 H1 Hs Hb. cbv zeta. cbn [fst snd].
  assert (H2 : SocketInv (rejectP (PConnect sock) message w1)).
  { apply SocketInv_rejectConnect; [exact H1|]. rewrite Hs. intros [E|E]; discriminate. }
  assert (Hb2 : reconnect_blocked (rejectP (PConnect sock) message w1) = true)
    by (rewrite blocked_rejectP; exact Hb).
  revert H2 Hb2. generalize (rejectP (PConnect sock) message w1). intros w2 H2 Hb2.
  assert (H3 : SocketInv (clearTimer (connectionTimeout (sockets w2 sock)) w2))
    by (apply SocketInv_clearTimer; exact H2).
  assert (Hb3 : reconnect_blocked (clearTimer (connectionTimeout (sockets w2 sock)) w2) = true)
    by exact Hb2.
  revert H3 Hb3. generalize (clearTimer (connectionTimeout (sockets w2 sock)) w2).
  intros w3 H3 Hb3.
  rewrite (handleDisconnection_blocked w3 Hb3).
  assert (H4 : SocketInv (resolveCloseListeners sock (closeListeners (disconnected w3))
                            (disconnected w3)))
    by (apply SocketInv_resolveCloseListeners, SocketInv_disconnected; exact H3).
  assert (Hb4 : reconnect_blocked (resolveCloseListeners sock (closeListeners (disconnected w3))
                                     (disconnected w3)) = true)
    by (rewrite blocked_resolveCloseListeners; exact Hb3).
  destruct (existsb _ _).
  - left. unfold processExit. gsimpl. discriminate.
  - destruct (promises w1 (PConnect sock)); [right; exact H4|].
    destruct (viaReconnect _).
    + right. rewrite scheduleReconnect_blocked; [exact H4 | exact Hb4].
    + left. unfold processExit. gsimpl. discriminate.
Qed.

(** ** Every event keeps the invariant *)

Lemma frame_settle_request (n : nat) (o : Outcome) (w : World) :
  socket_frame w (settle (PRequest n) o w).
Proof.
  rewrite settle_eq. unfold socket_frame. gsimpl. repeat split; auto.
  - intros s. apply settleFn_other. reflexivity.
  - intros q r H. apply settleFn_mono. exact H.
  - intros m. apply settleFn_other. reflexivity.
Qed.

Lemma frame_emit (e : effect) (w : World) :
  arms_reconnect e = false -> socket_frame w (emit e w).
Proof.
  intros He. unfold socket_frame. gsimpl. repeat split; auto.
  cbn [filter]. rewrite He. reflexivity.
Qed.

Lemma frame_clearTimer (h : nat) (w : World) : socket_frame w (clearTimer h w).
Proof. frame_solve. Qed.

Lemma frame_set_pendingRequests (t : pmap) (w : World) :
  socket_frame w (set_pendingRequests t w).
Proof. frame_solve. Qed.

Lemma frame_set_isAuthenticated (b : bool) (w : World) :
  socket_frame w (set_isAuthenticated b w).
Proof. frame_solve. Qed.

Lemma frame_resolve_request (n : nat) (v : jsval) (w : World) :
  socket_frame w (resolveP (PRequest n) v w).
Proof.
  unfold resolveP. eapply socket_frame_trans; [|apply frame_settle_request].
  apply frame_emit. reflexivity.
Qed.

Lemma frame_reject_request (n : nat) (m : string) (w : World) :
  socket_frame w (rejectP (PRequest n) m w).
Proof.
  unfold rejectP. eapply socket_frame_trans; [|apply frame_settle_request].
  apply frame_emit. reflexivity.
Qed.

(** A frame either leaves the connection machinery alone, or is the
    acknowledgement of a credential failure and stops reconnection. *)
Lemma handleMessage_cases (parseFloat : string -> float) (now now' : Z) (message : jsval)
    (w : World) :
  socket_frame w (handleMessage parseFloat now now' message w) \/
  (is_num (field (field message "error") "code") 1 = true /\
   handleMessage parseFloat now now' message w
   = stopReconnection (set_isAuthenticated false w)).
Proof.
  unfold handleMessage.
  destruct (truthy (field message "id") && has_js (field message "id") (pendingRequests w))
    eqn:Hhas; cbn [andb].
  - left. destruct (is_str (field message "result") "pong");
      (destruct (get_js (field message "id") (pendingRequests w)) as [pr|];
       [|apply socket_frame_refl]).
    + eapply socket_frame_trans; [apply frame_resolve_request | apply frame_set_pendingRequests].
    + destruct (truthy (field message "error"));
        [destruct (toStringJS _); [|apply socket_frame_refl]|];
        (eapply socket_frame_trans; [|apply frame_set_pendingRequests]);
        [apply frame_reject_request | apply frame_resolve_request].
  - destruct (is_str (field message "channel") "spot.balances"); cbn [andb].
    + destruct (is_str (field message "event") "update").
      * left. apply frame_handleBalanceUpdate.
      * destruct (is_str (field message "event") "subscribe").
        -- destruct (truthy (field message "error")).
           ++ destruct (is_num (field (field message "error") "code") 1) eqn:Hcode.
              ** right. split; reflexivity.
              ** left. apply frame_set_isAuthenticated.
           ++ left. apply frame_set_isAuthenticated.
        -- destruct (is_str (field message "method") "server.ping" && truthy (field message "id")).
           ++ left. apply frame_sendPong.
           ++ left. apply socket_frame_refl.
    + destruct (is_str (field message "method") "server.ping" && truthy (field message "id")).
      * left. apply frame_sendPong.
      * left. apply socket_frame_refl.
Qed.

Lemma onMessage_cases (parseFloat : string -> float) (data : option jsval) (now now' : Z)
    (w : World) :
  socket_frame w (onMessage parseFloat data now now' w) \/
  (exists message, data = Some message /\
   is_num (field (field message "error") "code") 1 = true /\
   onMessage parseFloat data now now' w = stopReconnection (set_isAuthenticated false w)).
Proof.
  unfold onMessage. destruct data as [message|]; [|left; apply socket_frame_refl].
  destruct (handleMessage_cases parseFloat now now' message w) as [H|[H1 H2]].
  - left. destruct message; first [apply socket_frame_refl | exact H].
  - right. exists message. destruct message; try discriminate H1; auto.
Qed.

Lemma SocketInv_onMessage (parseFloat : string -> float) (data : option jsval) (now now' : Z)
    (w : World) :
  SocketInv w -> SocketInv (onMessage parseFloat data now now' w).
Proof.
  intros Hinv. destruct (onMessage_cases parseFloat data now now' w) as [H|(m & _ & _ & ->)].
  - exact (SocketInv_frame _ _ H Hinv).
  - apply SocketInv_stopReconnection, SocketInv_set_isAuthenticated, Hinv.
Qed.

Lemma sockets_scheduleReconnect (w : World) : sockets (scheduleReconnect w) = sockets w.
Proof. rewrite scheduleReconnect_eq. destruct (reconnect_blocked w); reflexivity. Qed.

Lemma sockets_rejectP (p : promise) (m : string) (w : World) :
  sockets (rejectP p m w) = sockets w.
Proof. rewrite rejectP_eq. reflexivity. Qed.

(** While [scheduleReconnect] is blocked by one of the reconnection fields,
    rejecting the promise of a [connect()] keeps the invariant. *)
Lemma SocketInv_rejected_blocked (sock : nat) (m : string) (w : World) :
  SocketInv w ->
  isReconnecting w = true \/ reconnectAttempts w = maxReconnectAttempts ->
  SocketInv (rejectP (PConnect sock) m w).
Proof.
  intros [A B C D E F G H I] Hb. rewrite rejectP_eq. constructor; gsimpl; try assumption.
  intros s Hs. destruct Hb as [Hb|Hb]; [left | right; left]; exact Hb.
Qed.

(** The connection timeout of a socket fires. *)
Lemma Inv_onConnectionTimeout (h sock : nat) (d : Q) (w : World) :
  SocketInv w -> timers w h = Some (TConnectionTimeout sock, d) ->
  Inv (onConnectionTimeout sock (clearTimer h w)).
Proof.
  intros Hinv Ht.
  destruct (si_timeout w Hinv h sock d Ht) as (_ & Hhand).
  unfold onConnectionTimeout, rejectConnect, afterConnectRejected.
  change (promises (clearTimer h w) (PConnect sock)) with (promises w (PConnect sock)).
  cbn [fst snd].
  assert (Hblocked : isReconnecting w = true \/ reconnectAttempts w = maxReconnectAttempts ->
                     Inv (if match promises w (PConnect sock) with
                             | Some _ => false
                             | None => true
                             end
                          then
                            if viaReconnect
                                 (sockets
                                    (scheduleReconnect
                                       (rejectP (PConnect sock) "Connection timeout"
                                          (clearTimer h w))) sock)
                            then scheduleReconnect
                                   (scheduleReconnect
                                      (rejectP (PConnect sock) "Connection timeout"
                                         (clearTimer h w)))
                            else processExit 1
                                   (scheduleReconnect
                                      (rejectP (PConnect sock) "Connection timeout"
                                         (clearTimer h w)))
                          else scheduleReconnect
                                 (rejectP (PConnect sock) "Connection timeout"
                                    (clearTimer h w)))).
  { intros Hb.
    pose proof (SocketInv_rejected_blocked sock "Connection timeout" _
                  (SocketInv_clearTimer h w Hinv) Hb) as Hrej.
    assert (Hblk : reconnect_blocked
                     (rejectP (PConnect sock) "Connection timeout" (clearTimer h w)) = true).
    { rewrite blocked_rejectP. unfold reconnect_blocked. gsimpl.
      destruct Hb as [-> | ->]; [reflexivity | apply orb_true_r]. }
    rewrite (scheduleReconnect_blocked _ Hblk), (scheduleReconnect_blocked _ Hblk).
    destruct (promises w (PConnect sock)); [right; exact Hrej|].
    destruct (viaReconnect _); [right; exact Hrej | left; discriminate]. }
  destruct (si_handshake w Hinv sock Hhand) as [E1|[E1|(E1 & E2 & E3)]].
  - apply Hblocked. left. exact E1.
  - apply Hblocked. right. exact E1.
  - rewrite E2, sockets_scheduleReconnect, sockets_rejectP. gsimpl. rewrite E1.
    left. discriminate.
Qed.

Lemma frame_sockets (w w' : World) : socket_frame w w' -> sockets w' = sockets w.
Proof. intros (_ & _ & _ & Hs & _). exact Hs. Qed.

(** The settle delay of a socket has passed. *)
Lemma SocketInv_onSettled (h sock : nat) (d : Q) (now : Z) (w : World) :
  SocketInv w -> timers w h = Some (TSettle sock, d) ->
  SocketInv (onSettled sock now (clearTimer h w)).
Proof.
  intros Hinv Ht. destruct (si_settle w Hinv h sock d Ht) as [_ Hns].
  assert (Hf : socket_frame w
                 (emit (Resolve (PConnect sock) JUndefined)
                    (startBalanceInterval (startPingInterval now (clearTimer h w))))).
  { eapply socket_frame_trans; [apply (frame_clearTimer h)|].
    eapply socket_frame_trans; [apply (frame_startPingInterval now)|].
    eapply socket_frame_trans; [apply frame_startBalanceInterval | apply frame_emit; reflexivity]. }
  apply SocketInv_settle_connect.
  - exact (SocketInv_frame _ _ Hf Hinv).
  - rewrite (frame_sockets _ _ Hf). exact Hns.
Qed.

(** The reconnect timer fires: no socket is in its handshake, and a new one
    starts its own. *)
Lemma SocketInv_onReconnectTimer (h : nat) (d : Q) (w : World) :
  SocketInv w -> timers w h = Some (TReconnect, d) ->
  SocketInv (onReconnectTimer (clearTimer h w)).
Proof.
  intros Hinv Ht. pose proof Hinv as [A B C D E F G H I].
  destruct (F h d Ht) as (F1 & F2 & F3 & F4).
  unfold onReconnectTimer, connect. gsimpl. constructor; gsimpl.
  - exists (nextSocket w). split; reflexivity.
  - intros s Hs Hh. sock_cases s (nextSocket w); [lia | exact (F1 s Hh)].
  - intros s Hs. pose proof (C s) as Hc. sock_cases s (nextSocket w); [lia | apply Hc; lia].
  - intros Hc. congruence.
  - intros s Hs. left. exact F2.
  - intros h' d' Ht'. exfalso. timer_cases Ht'.
    destruct (F h' d' Ht') as (_ & _ & F3' & _). congruence.
  - intros h' s d' Ht'. timer_cases Ht'.
    + injection Ht' as <- <-. unfold fupd. rewrite Nat.eqb_refl. gsimpl.
      split; [congruence | left; reflexivity].
    + exfalso. destruct (G h' s d' Ht') as (_ & G2). exact (F1 s G2).
  - intros h' s d' Ht'. timer_cases Ht'. destruct (H h' s d' Ht') as (H1 & H2).
    split; [lia|]. intros Hh. sock_cases s (nextSocket w); [lia | exact (H2 Hh)].
  - intros s. pose proof (I s). sock_cases s (nextSocket w); lia.
Qed.

Lemma SocketInv_close (w : World) : SocketInv w -> SocketInv (close w).
Proof.
  intros Hinv. unfold close.
  pose proof (SocketInv_frame _ _ (frame_stopIntervals w) Hinv) as H1.
  apply SocketInv_stopReconnection in H1.
  pose proof (SocketInv_frame _ _
                (frame_rejectAllPendingRequests "Connection closed by user" _) H1) as H2.
  apply SocketInv_newPromise in H2. unfold newPromise in *. cbn [snd fst] in *.
  destruct (ws _) as [sock|].
  - apply SocketInv_wsClose, SocketInv_set_closeListeners, H2.
  - unfold resolveP. apply SocketInv_settle_close, SocketInv_emit, H2.
Qed.

Lemma SocketInv_init (key secret : string) : SocketInv (init key secret).
Proof.
  unfold init, connect, fresh. constructor; gsimpl.
  - exists 0%nat. split; reflexivity.
  - intros s Hs Hh. sock_cases s 0%nat; [lia | destruct Hh; discriminate].
  - intros s Hs. sock_cases s 0%nat; [lia | reflexivity].
  - intros Hc. discriminate Hc.
  - intros s Hs. right. right.
    sock_cases s 0%nat; [repeat split | destruct Hs; discriminate].
  - intros h d Ht. timer_cases Ht.
  - intros h s d Ht. timer_cases Ht. injection Ht as <- <-. subst h.
    unfold fupd. cbn [Nat.eqb]. gsimpl. split; [reflexivity | left; reflexivity].
  - intros h s d Ht. timer_cases Ht.
  - intros s. sock_cases s 0%nat; lia.
Qed.

Section Steps.

Variable parseFloat : string -> float.

Lemma Inv_fireTimer (h : nat) (now now' : Z) (w w' : World) :
  SocketInv w -> fireTimer h now now' w = Some w' -> Inv w'.
Proof.
  intros Hinv Hfire. unfold fireTimer in Hfire.
  destruct (timers w h) as [[t d]|] eqn:Ht; [|discriminate].
  destruct t; cbn [is_interval] in Hfire.
  - injection Hfire as <-. exact (Inv_onConnectionTimeout h sock d w Hinv Ht).
  - injection Hfire as <-. right. exact (SocketInv_onSettled h sock d now w Hinv Ht).
  - injection Hfire as <-. right. exact (SocketInv_onReconnectTimer h d w Hinv Ht).
  - injection Hfire as <-. right.
    exact (SocketInv_frame _ _ (frame_onPingInterval now w) Hinv).
  - injection Hfire as <-. right.
    apply (SocketInv_frame w); [|exact Hinv].
    eapply socket_frame_trans; [apply (frame_clearTimer h) | apply frame_subscribeToBalances].
  - injection Hfire as <-. right.
    exact (SocketInv_frame _ _ (frame_onBalanceInterval now now' w) Hinv).
  - injection Hfire as <-. right.
    apply (SocketInv_frame w); [|exact Hinv].
    eapply socket_frame_trans; [apply (frame_clearTimer h) | apply frame_onPingTimeout].
Qed.

Lemma Inv_gracefulShutdown (w : World) : SocketInv w -> Inv (gracefulShutdown w).
Proof.
  intros Hinv. unfold gracefulShutdown. destruct (ws w).
  - right. apply SocketInv_close. exact Hinv.
  - left. discriminate.
Qed.

(** Every event keeps the invariant. *)
Lemma Inv_step (w w' : World) (e : Event) :
  Inv w -> step parseFloat w e = Some w' -> Inv w'.
Proof.
  intros HI Hstep. unfold step in Hstep.
  destruct (exited w) eqn:Hex; [discriminate|].
  destruct HI as [HI|Hinv]; [congruence|].
  destruct e as [sock now|sock data now now'|sock message|sock|h now now'|].
  - destruct (readyState (sockets w sock)) eqn:Hst; try discriminate.
    injection Hstep as <-. right. apply SocketInv_open; assumption.
  - destruct (readyState (sockets w sock)); try discriminate;
      injection Hstep as <-; right; apply SocketInv_onMessage; exact Hinv.
  - destruct (readyState (sockets w sock)) eqn:Hst; try discriminate;
      injection Hstep as <-;
      [apply Inv_onHandshakeFailure | apply Inv_onError
       | apply Inv_onHandshakeFailure | apply Inv_onError];
      solve [exact Hinv | congruence].
  - destruct (readyState (sockets w sock)) eqn:Hst; try discriminate;
      injection Hstep as <-; apply Inv_onClose; solve [exact Hinv | congruence].
  - exact (Inv_fireTimer h now now' w w' Hinv Hstep).
  - injection Hstep as <-. apply Inv_gracefulShutdown. exact Hinv.
Qed.

Lemma Inv_run (events : list Event) (w w' : World) :
  Inv w -> run parseFloat w events = Some w' -> Inv w'.
Proof.
  revert w. induction events as [|e events IH]; intros w HI Hrun.
  - injection Hrun as <-. exact HI.
  - cbn [run] in Hrun. destruct (step parseFloat w e) as [w1|] eqn:Hstep; [|discriminate].
    exact (IH w1 (Inv_step w w1 e HI Hstep) Hrun).
Qed.

(** One handshake at a time, in every state the program reaches. *)
Lemma Inv_reachable (w : World) : reachable parseFloat w -> Inv w.
Proof.
  intros (key & secret & events & Hrun).
  apply (Inv_run events (init key secret)); [|exact Hrun].
  right. apply SocketInv_init.
Qed.

End Steps.

(** ** The table of pending requests stays well formed *)

Lemma table_same_refl (w : World) : table_same w w.
Proof. unfold table_same. repeat split. Qed.

Lemma table_same_trans (w1 w2 w3 : World) :
  table_same w1 w2 -> table_same w2 w3 -> table_same w1 w3.
Proof.
  intros (A1 & A2 & A3 & A4) (B1 & B2 & B3 & B4). unfold table_same.
  repeat split; try congruence.
Qed.

Lemma keeps_same (w w' : World) : table_same w w' -> keeps_table w w'.
Proof.
  intros (S1 & S2 & S3 & S4) [K W D F I]. constructor.
  - rewrite S1, S2. exact K.
  - intros k pr Hin. rewrite S1 in Hin. rewrite S3, S4. exact (W k pr Hin).
  - rewrite S1. exact D.
  - intros n Hn. rewrite S3 in Hn. rewrite S4. exact (F n Hn).
  - rewrite S2. exact I.
Qed.

Lemma keeps_refl (w : World) : keeps_table w w.
Proof. intros H. exact H. Qed.

Lemma keeps_trans (w1 w2 w3 : World) :
  keeps_table w1 w2 -> keeps_table w2 w3 -> keeps_table w1 w3.
Proof. intros A B H. exact (B (A H)). Qed.

Lemma settleAll_listeners_other (sock : nat) (ls : list (nat * nat)) (o : Outcome)
    (f : promise -> option Outcome) (q : promise) :
  (forall n, promise_eqb q (PClose n) = false) ->
  settleAll (listeners_of sock ls) o f q = f q.
Proof.
  intros Hq. apply settleAll_other. intros p Hp. unfold listeners_of in Hp.
  apply in_map_iff in Hp. destruct Hp as [e [<- _]]. apply Hq.
Qed.

Ltac same_solve :=
  unfold table_same; gsimpl; repeat split; try reflexivity;
  let n := fresh "n" in
  intros n;
  repeat first [ rewrite settleAll_listeners_other by (intros; reflexivity)
               | rewrite settleFn_other by reflexivity ];
  reflexivity.

Lemma same_clearTimer (h : nat) (w : World) : table_same w (clearTimer h w).
Proof. same_solve. Qed.

Lemma same_setTimer (t : Timer) (ms : Q) (w : World) : table_same w (snd (setTimer t ms w)).
Proof. unfold setTimer. same_solve. Qed.

Lemma same_emit (e : effect) (w : World) : table_same w (emit e w).
Proof. same_solve. Qed.

Lemma same_stopIntervals (w : World) : table_same w (stopIntervals w).
Proof. rewrite stopIntervals_eq. same_solve. Qed.

Lemma same_set_isAuthenticated (b : bool) (w : World) :
  table_same w (set_isAuthenticated b w).
Proof. same_solve. Qed.

Lemma same_handleBalanceUpdate (parseFloat : string -> float) (data : jsval) (w : World) :
  table_same w (handleBalanceUpdate parseFloat data w).
Proof. rewrite handleBalanceUpdate_eq. same_solve. Qed.

Lemma same_sendPong (id : jsval) (w : World) : table_same w (sendPong id w).
Proof. rewrite sendPong_eq. same_solve. Qed.

Lemma same_subscribeToBalances (now : Z) (w : World) :
  table_same w (subscribeToBalances now w).
Proof. rewrite subscribeToBalances_eq. same_solve. Qed.

Lemma same_onBalanceInterval (now now' : Z) (w : World) :
  table_same w (onBalanceInterval now now' w).
Proof.
  unfold onBalanceInterval. destruct (isConnected w), (ws w), (isAuthenticated w);
    try apply table_same_refl.
  destruct (120000 <? now - lastConnectionTime w);
    [apply same_subscribeToBalances | apply table_same_refl].
Qed.

Lemma same_startBalanceInterval (w : World) : table_same w (startBalanceInterval w).
Proof. unfold startBalanceInterval, setTimer. same_solve. Qed.

Lemma same_setSocketState (sock : nat) (st : ReadyState) (w : World) :
  table_same w (setSocketState sock st w).
Proof. same_solve. Qed.

Lemma same_processExit (code : Z) (w : World) : table_same w (processExit code w).
Proof. same_solve. Qed.

Lemma same_set_closeListeners (ls : list (nat * nat)) (w : World) :
  table_same w (set_closeListeners ls w).
Proof. same_solve. Qed.

Lemma same_wsClose (sock : nat) (w : World) : table_same w (wsClose sock w).
Proof.
  unfold wsClose. destruct (readyState (sockets w sock)); try apply table_same_refl;
    apply same_setSocketState.
Qed.

Lemma same_rejectP_connect (sock : nat) (m : string) (w : World) :
  table_same w (rejectP (PConnect sock) m w).
Proof. rewrite rejectP_eq. same_solve. Qed.

Lemma same_resolveP_connect (sock : nat) (v : jsval) (w : World) :
  table_same w (resolveP (PConnect sock) v w).
Proof. rewrite resolveP_eq. same_solve. Qed.

Lemma same_resolveP_close (n : nat) (v : jsval) (w : World) :
  table_same w (resolveP (PClose n) v w).
Proof. rewrite resolveP_eq. same_solve. Qed.

Lemma same_resolveCloseListeners (sock : nat) (ls : list (nat * nat)) (w : World) :
  table_same w (resolveCloseListeners sock ls w).
Proof. rewrite resolveCloseListeners_eq. same_solve. Qed.

Lemma same_arm (w : World) : table_same w (arm w).
Proof. unfold arm. same_solve. Qed.

Lemma same_stopReconnection (w : World) : table_same w (stopReconnection w).
Proof. rewrite stopReconnection_eq. same_solve. Qed.

Lemma same_onOpen (sock : nat) (now : Z) (w : World) : table_same w (onOpen sock now w).
Proof. unfold onOpen, setTimer. same_solve. Qed.

Lemma same_connect (b : bool) (w : World) : table_same w (connect b w).
Proof. unfold connect, setTimer. same_solve. Qed.

(** A new promise. *)
Lemma keeps_newPromise (w : World) : keeps_table w (snd (newPromise w)).
Proof.
  intros [K W D F I]. unfold newPromise. constructor; gsimpl; try assumption.
  - intros k pr Hin. destruct (W k pr Hin) as [W1 W2]. split; [lia | exact W2].
  - intros n Hn. apply F. lia.
Qed.

(** Rejecting every entry and clearing the table. *)
Lemma TableInv_cleared (message : string) (w w' : World) :
  pendingRequests w' = [] ->
  requestId w' = requestId w ->
  nextPromise w' = nextPromise w ->
  promises w'
  = settleAll (map (fun e => PRequest (waiter (snd e))) (pendingRequests w))
      (Rejected message) (promises w) ->
  keeps_table w w'.
Proof.
  intros Ht Hr Hn Hp [K W D F I]. constructor.
  - rewrite Ht. intros k pr [].
  - rewrite Ht. intros k pr [].
  - rewrite Ht. constructor.
  - intros n Hle. rewrite Hn in Hle. rewrite Hp, settleAll_other; [exact (F n Hle)|].
    intros p Hin. apply in_map_iff in Hin. destruct Hin as [[k pr] [<- Hin]].
    cbn [snd promise_eqb]. apply Nat.eqb_neq. destruct (W k pr Hin) as [W1 _]. lia.
  - rewrite Hr. exact I.
Qed.

Lemma keeps_rejectAllPendingRequests (message : string) (w : World) :
  keeps_table w (rejectAllPendingRequests message w).
Proof.
  rewrite rejectAllPendingRequests_eq. apply (TableInv_cleared message); reflexivity.
Qed.

Lemma keeps_handleDisconnection (w : World) : keeps_table w (handleDisconnection w).
Proof.
  rewrite handleDisconnection_eq. cbv zeta.
  destruct (reconnect_blocked w).
  - apply (TableInv_cleared "Connection lost"); reflexivity.
  - eapply keeps_trans; [|apply keeps_same, same_arm].
    apply (TableInv_cleared "Connection lost"); reflexivity.
Qed.

Lemma keeps_disconnection_base (w : World) :
  keeps_table w
    (set_trace
       (rev (map (fun e => Reject (PRequest (waiter (snd e))) "Connection lost")
               (pendingRequests w)) ++ trace w)
       (set_promises
          (settleAll (map (fun e => PRequest (waiter (snd e))) (pendingRequests w))
             (Rejected "Connection lost") (promises w))
          (set_pendingRequests []
             (set_balanceInterval None
                (set_pingInterval None
                   (set_timers
                      (clearOpt (balanceInterval w) (clearOpt (pingInterval w) (timers w)))
                      (set_isAuthenticated false (set_isConnected false w)))))))).
Proof. apply (TableInv_cleared "Connection lost"); reflexivity. Qed.

(** Deleting entries keeps the waiters distinct. *)
Lemma NoDup_map_delete (k : Z) (m : pmap) :
  NoDup (map (fun e => waiter (snd e)) m) ->
  NoDup (map (fun e => waiter (snd e)) (map_delete k m)).
Proof.
  induction m as [|[k' v'] m IH]; cbn [map_delete map snd]; intros H; [exact H|].
  inversion H as [|x l Hx Hl]; subst.
  destruct (k =? k'); [exact (IH Hl)|].
  cbn [map snd]. constructor; [|exact (IH Hl)].
  intros Hin. apply Hx. apply in_map_iff in Hin. destruct Hin as [e [He Hin]].
  apply in_map_iff. exists e. split; [exact He|].
  apply In_map_delete in Hin. apply Hin.
Qed.

Lemma distinct_waiters (m : pmap) (a b : Z * PendingRequest) :
  NoDup (map (fun e => waiter (snd e)) m) -> In a m -> In b m ->
  waiter (snd a) = waiter (snd b) -> a = b.
Proof.
  induction m as [|e m IH]; intros Hnd Ha Hb Hw; [destruct Ha|].
  cbn [map] in Hnd. inversion Hnd as [|x l Hx Hl]; subst.
  destruct Ha as [->|Ha], Hb as [->|Hb]; try reflexivity.
  - exfalso. apply Hx. rewrite Hw. apply in_map_iff. exists b. split; [reflexivity | exact Hb].
  - exfalso. apply Hx. rewrite <- Hw. apply in_map_iff. exists a. split; [reflexivity | exact Ha].
  - exact (IH Hl Ha Hb Hw).
Qed.

(** A frame completes the request registered under its id: the waiter is
    settled and the entry deleted. *)
Lemma TableInv_completed (n : Z) (pr : PendingRequest) (o : Outcome) (w w' : World) :
  map_get n (pendingRequests w) = Some pr ->
  pendingRequests w' = map_delete n (pendingRequests w) ->
  requestId w' = requestId w ->
  nextPromise w' = nextPromise w ->
  promises w' = settleFn (PRequest (waiter pr)) o (promises w) ->
  keeps_table w w'.
Proof.
  intros Hget Ht Hr Hn Hp [K W D F I]. pose proof (map_get_In _ _ _ Hget) as Hin0.
  constructor.
  - rewrite Ht, Hr. intros k pr' Hin. apply In_map_delete in Hin. exact (K k pr' (proj1 Hin)).
  - rewrite Ht, Hn, Hp. intros k pr' Hin. apply In_map_delete in Hin.
    destruct Hin as [Hin Hne]. destruct (W k pr' Hin) as [W1 W2]. split; [exact W1|].
    rewrite settleFn_other; [exact W2|].
    cbn [promise_eqb]. apply Nat.eqb_neq. intros Hw.
    assert (E : (k, pr') = (n, pr)) by (apply (distinct_waiters _ _ _ D Hin Hin0); exact Hw).
    apply Hne. injection E as -> _. reflexivity.
  - rewrite Ht. apply NoDup_map_delete. exact D.
  - rewrite Hn, Hp. intros m Hle. rewrite settleFn_other; [exact (F m Hle)|].
    cbn [promise_eqb]. apply Nat.eqb_neq. destruct (W n pr Hin0) as [W1 _]. lia.
  - rewrite Hr. exact I.
Qed.

(** [sendPing] *)
Lemma map_delete_absent (k : Z) (m : pmap) : ~ In k (keys m) -> map_delete k m = m.
Proof.
  induction m as [|[k' v'] m IH]; cbn [map_delete keys map fst]; intros H; [reflexivity|].
  destruct (Z.eqb_spec k k') as [->|Hne]; [exfalso; apply H; left; reflexivity|].
  f_equal. apply IH. intros Hin. apply H. right. exact Hin.
Qed.

Lemma map_delete_set_absent (k : Z) (v : PendingRequest) (m : pmap) :
  ~ In k (keys m) -> map_delete k (map_set k v m) = m.
Proof.
  induction m as [|[k' v'] m IH]; cbn [map_set map_delete keys map fst]; intros H.
  - rewrite Z.eqb_refl. reflexivity.
  - destruct (Z.eqb_spec k k') as [->|Hne]; [exfalso; apply H; left; reflexivity|].
    cbn [map_delete]. destruct (Z.eqb_spec k k'); [contradiction|].
    f_equal. apply IH. intros Hin. apply H. right. exact Hin.
Qed.

(** The counter is the id of no entry: the next id is new. *)
Lemma next_id_new (w : World) :
  TableInv w -> ~ In (requestId w) (keys (pendingRequests w)).
Proof.
  intros Ht Hin. unfold keys in Hin. apply in_map_iff in Hin.
  destruct Hin as [[k pr] [Hk Hin]]. cbn [fst] in Hk. subst k.
  pose proof (ti_keys w Ht _ _ Hin). lia.
Qed.

Lemma TableInv_registered (now : Z) (w w' : World) :
  pendingRequests w' = pendingRequests w ++ [(requestId w, mkPending (nextPromise w) now)] ->
  requestId w' = requestId w + 1 ->
  nextPromise w' = S (nextPromise w) ->
  promises w' = promises w ->
  keeps_table w w'.
Proof.
  intros Ht Hr Hn Hp [K W D F I]. constructor.
  - rewrite Ht, Hr. intros k pr Hin. apply in_app_or in Hin. destruct Hin as [Hin|[E|[]]].
    + pose proof (K k pr Hin). lia.
    + injection E as <- <-. lia.
  - rewrite Ht, Hn, Hp. intros k pr Hin. apply in_app_or in Hin. destruct Hin as [Hin|[E|[]]].
    + destruct (W k pr Hin) as [W1 W2]. split; [lia | exact W2].
    + injection E as <- <-. cbn [waiter]. split; [lia | apply F; lia].
  - rewrite Ht, map_app. cbn [map snd waiter].
    rewrite <- (rev_involutive (map _ _ ++ _)). apply NoDup_rev.
    rewrite rev_app_distr. cbn [rev app]. constructor.
    + intros Hin. apply in_rev in Hin. apply in_map_iff in Hin.
      destruct Hin as [[k pr] [Hw Hin]]. cbn [snd] in Hw.
      destruct (W k pr Hin) as [W1 _]. lia.
    + apply NoDup_rev. exact D.
  - rewrite Hn, Hp. intros n Hle. apply F. lia.
  - rewrite Hr. lia.
Qed.

Lemma TableInv_refused (o : Outcome) (w w' : World) :
  pendingRequests w' = pendingRequests w ->
  requestId w' = requestId w ->
  nextPromise w' = S (nextPromise w) ->
  promises w' = settleFn (PRequest (nextPromise w)) o (promises w) ->
  keeps_table w w'.
Proof.
  intros Ht Hr Hn Hp [K W D F I]. constructor.
  - rewrite Ht, Hr. exact K.
  - rewrite Ht, Hn, Hp. intros k pr Hin. destruct (W k pr Hin) as [W1 W2].
    split; [lia|]. rewrite settleFn_other; [exact W2|].
    cbn [promise_eqb]. apply Nat.eqb_neq. lia.
  - rewrite Ht. exact D.
  - rewrite Hn, Hp. intros n Hle. rewrite settleFn_other; [apply F; lia|].
    cbn [promise_eqb]. apply Nat.eqb_neq. lia.
  - rewrite Hr. exact I.
Qed.

Lemma keeps_sendPing (now : Z) (w : World) : keeps_table w (sendPing now w).
Proof.
  intros Ht. pose proof (next_id_new w Ht) as Hnew. revert Ht.
  unfold sendPing, newPromise. gsimpl.
  destruct (isConnected w), (ws w) as [sock|];
    try (apply (TableInv_refused (Rejected "WebSocket not connected"));
         rewrite ?rejectP_eq; reflexivity).
  rewrite wsSend_eq. gsimpl. destruct (readyState (sockets w sock));
    try (apply (TableInv_registered now); unfold setTimer; gsimpl;
         rewrite ?map_set_absent by exact Hnew; reflexivity).
  apply (TableInv_refused (Rejected "WebSocket is not open: readyState 0 (CONNECTING)"));
    rewrite rejectP_eq; gsimpl; rewrite ?map_delete_set_absent by exact Hnew; reflexivity.
Qed.

Lemma keeps_startPingInterval (now : Z) (w : World) : keeps_table w (startPingInterval now w).
Proof.
  unfold startPingInterval. eapply keeps_trans; [apply (keeps_sendPing now)|].
  apply keeps_same. unfold setTimer. same_solve.
Qed.

Lemma keeps_onPingInterval (now : Z) (w : World) : keeps_table w (onPingInterval now w).
Proof.
  unfold onPingInterval. destruct (isConnected w), (ws w); try apply keeps_refl.
  apply keeps_sendPing.
Qed.

(** The timeout of a ping reads the counter, which is the id of no entry:
    the callback does nothing. *)
Lemma onPingTimeout_idle (p : nat) (w : World) : TableInv w -> onPingTimeout p w = w.
Proof.
  intros Ht. unfold onPingTimeout.
  assert (E : map_has (requestId w) (pendingRequests w) = false).
  { unfold map_has. rewrite (map_get_absent _ _ (next_id_new w Ht)). reflexivity. }
  rewrite E. reflexivity.
Qed.

Lemma keeps_onPingTimeout (p : nat) (w : World) : keeps_table w (onPingTimeout p w).
Proof. intros Ht. rewrite (onPingTimeout_idle p w Ht). exact Ht. Qed.

Lemma keeps_onSettled (sock : nat) (now : Z) (w : World) : keeps_table w (onSettled sock now w).
Proof.
  unfold onSettled. eapply keeps_trans; [apply (keeps_startPingInterval now)|].
  apply keeps_same. eapply table_same_trans;
    [apply same_startBalanceInterval | apply same_resolveP_connect].
Qed.

(** [handleMessage] *)
Lemma get_js_number (id : jsval) (m : pmap) (pr : PendingRequest) :
  get_js id m = Some pr -> exists n, id = JNum n /\ map_get n m = Some pr.
Proof.
  destruct id as [| |b|n|s|l|l]; cbn [get_js]; try discriminate.
  intros H. exists n. split; [reflexivity | exact H].
Qed.

Lemma keeps_handleMessage (parseFloat : string -> float) (now now' : Z) (message : jsval)
    (w : World) :
  keeps_table w (handleMessage parseFloat now now' message w).
Proof.
  unfold handleMessage.
  destruct (truthy (field message "id") && has_js (field message "id") (pendingRequests w));
    cbn [andb].
  - destruct (get_js (field message "id") (pendingRequests w)) as [pr|] eqn:Hget;
      [|destruct (is_str _ _); apply keeps_refl].
    destruct (get_js_number _ _ _ Hget) as [n [Hid Hn]]. rewrite Hid. cbn [delete_js].
    destruct (is_str (field message "result") "pong").
    + apply (TableInv_completed n pr
               (Fulfilled (JObj [("latency", JNum (now - timestamp pr));
                                 ("timestamp", JNum now')]))); try exact Hn;
        rewrite resolveP_eq; reflexivity.
    + destruct (truthy (field message "error")).
      * destruct (toStringJS (field (field message "error") "message")) as [text|];
          [|apply keeps_refl].
        apply (TableInv_completed n pr (Rejected ("API Error: " ++ text)));
          try exact Hn; rewrite rejectP_eq; reflexivity.
      * apply (TableInv_completed n pr (Fulfilled (field message "result")));
          try exact Hn; rewrite resolveP_eq; reflexivity.
  - destruct (is_str (field message "channel") "spot.balances"
              && is_str (field message "event") "update").
    { apply keeps_same, same_handleBalanceUpdate. }
    destruct (is_str (field message "channel") "spot.balances"
              && is_str (field message "event") "subscribe").
    { destruct (truthy (field message "error")).
      - destruct (is_num (field (field message "error") "code") 1).
        + apply keeps_same. eapply table_same_trans;
            [apply (same_set_isAuthenticated false) | apply same_stopReconnection].
        + apply keeps_same, same_set_isAuthenticated.
      - apply keeps_same, same_set_isAuthenticated. }
    destruct (is_str (field message "method") "server.ping" && truthy (field message "id")).
    { apply keeps_same, same_sendPong. }
    apply keeps_refl.
Qed.

Lemma keeps_onMessage (parseFloat : string -> float) (data : option jsval) (now now' : Z)
    (w : World) :
  keeps_table w (onMessage parseFloat data now now' w).
Proof.
  unfold onMessage. destruct data as [message|]; [|apply keeps_refl].
  destruct message; first [apply keeps_refl | apply keeps_handleMessage].
Qed.

(** ** Once reconnection is capped *)

Lemma still_refl (w : World) : still w w.
Proof. unfold still, Grows. repeat split; auto. Qed.

Lemma still_trans (w1 w2 w3 : World) : still w1 w2 -> still w2 w3 -> still w1 w3.
Proof.
  intros (A1 & A2 & A3 & A4 & A5 & A6 & A7) (B1 & B2 & B3 & B4 & B5 & B6 & B7).
  unfold still, Grows. repeat split; try congruence.
  - intros s H. apply A5, B5, H.
  - intros h d H. apply A6, B6, H.
  - intros p o H. apply B7, A7, H.
Qed.

Lemma still_frame (w w' : World) : socket_frame w w' -> still w w'.
Proof.
  intros (F1 & F2 & F3 & F4 & F5 & F6 & F7 & F8 & F9 & F10 & F11 & F12).
  unfold still, Grows. repeat split; try assumption.
  - intros s. rewrite F4. auto.
  - intros h d H. apply F7; [exact H | reflexivity].
Qed.

Lemma Capped_still (w w' : World) : still w w' -> Capped w -> Capped w'.
Proof. intros (A1 & A2 & _) [C1 C2]. split; congruence. Qed.


Lemma armed_still (w w' : World) : still w w' -> armed w' = armed w.
Proof. intros (_ & _ & _ & A4 & _). unfold armed. rewrite A4. reflexivity. Qed.

Lemma Capped_blocked (w : World) : Capped w -> reconnect_blocked w = true.
Proof.
  intros [C1 C2]. unfold reconnect_blocked. rewrite C2. apply orb_true_r.
Qed.


Lemma still_setSocketState (sock : nat) (st : ReadyState) (w : World) :
  st <> CONNECTING -> still w (setSocketState sock st w).
Proof.
  intros Hst. unfold still, Grows. gsimpl. repeat split; auto.
  intros s. unfold fupd. destruct (Nat.eqb_spec s sock); gsimpl; [congruence | auto].
Qed.

Lemma still_settle (p : promise) (o : Outcome) (w : World) : still w (settle p o w).
Proof.
  rewrite settle_eq. unfold still, Grows. gsimpl. repeat split; auto.
  intros q r H. apply settleFn_mono. exact H.
Qed.

Lemma still_emit (e : effect) (w : World) : arms_reconnect e = false -> still w (emit e w).
Proof.
  intros He. unfold still, Grows. gsimpl. repeat split; auto. cbn [filter]. rewrite He. reflexivity.
Qed.

Lemma still_rejectP (p : promise) (m : string) (w : World) : still w (rejectP p m w).
Proof.
  unfold rejectP. eapply still_trans; [|apply still_settle]. apply still_emit. reflexivity.
Qed.

Lemma still_resolveP (p : promise) (v : jsval) (w : World) : still w (resolveP p v w).
Proof.
  unfold resolveP. eapply still_trans; [|apply still_settle]. apply still_emit. reflexivity.
Qed.

Lemma still_processExit (code : Z) (w : World) : still w (processExit code w).
Proof. unfold still, Grows. gsimpl. repeat split; auto. Qed.

Lemma still_scheduleReconnect (w : World) : Capped w -> still w (scheduleReconnect w).
Proof.
  intros Hc. rewrite scheduleReconnect_eq, (Capped_blocked w Hc). apply still_refl.
Qed.

Lemma still_disconnected (w : World) : still w (disconnected w).
Proof.
  unfold still, Grows, disconnected. gsimpl. repeat split; auto.
  - rewrite filter_app, quiet_rev_map by reflexivity. reflexivity.
  - intros h d H. timer_cases H; exact H.
  - intros p o H. apply settleAll_mono. exact H.
Qed.

Lemma still_handleDisconnection (w : World) : Capped w -> still w (handleDisconnection w).
Proof.
  intros Hc. rewrite (handleDisconnection_blocked w (Capped_blocked w Hc)).
  apply still_disconnected.
Qed.

Lemma still_stopReconnection (w : World) : Capped w -> still w (stopReconnection w).
Proof.
  intros [C1 C2]. rewrite stopReconnection_eq. unfold still, Grows. gsimpl. repeat split; auto.
  intros h d H. timer_cases H; exact H.
Qed.

Lemma still_newPromise (w : World) : still w (snd (newPromise w)).
Proof. unfold still, Grows. gsimpl. repeat split; auto. Qed.

Lemma still_set_closeListeners (ls : list (nat * nat)) (w : World) :
  still w (set_closeListeners ls w).
Proof. unfold still, Grows. gsimpl. repeat split; auto. Qed.

Lemma still_wsClose (sock : nat) (w : World) : still w (wsClose sock w).
Proof.
  unfold wsClose. destruct (readyState (sockets w sock)) eqn:Hst; try apply still_refl;
    apply still_setSocketState; discriminate.
Qed.

Lemma still_resolveCloseListeners (sock : nat) (ls : list (nat * nat)) (w : World) :
  still w (resolveCloseListeners sock ls w).
Proof.
  rewrite resolveCloseListeners_eq. unfold still, Grows. gsimpl. repeat split; auto.
  - rewrite filter_app, quiet_rev_map by reflexivity. reflexivity.
  - intros q r H. apply settleAll_mono. exact H.
Qed.

Lemma still_afterConnectRejected (sock : nat) (w : World) :
  Capped w -> still w (afterConnectRejected sock w).
Proof.
  intros Hc. unfold afterConnectRejected. destruct (viaReconnect (sockets w sock)).
  - apply still_scheduleReconnect. exact Hc.
  - apply still_processExit.
Qed.

Lemma still_onError (sock : nat) (message : string) (w : World) :
  Capped w -> still w (onError sock message w).
Proof.
  intros Hc. unfold onError, rejectConnect.
  assert (H1 : still w (handleDisconnection (clearTimer (connectionTimeout (sockets w sock)) w))).
  { eapply still_trans; [apply still_frame, frame_clearTimer|].
    apply still_handleDisconnection.
    apply (Capped_still w); [apply still_frame, frame_clearTimer | exact Hc]. }
  assert (H2 : still w (rejectP (PConnect sock) message
                          (handleDisconnection
                             (clearTimer (connectionTimeout (sockets w sock)) w)))).
  { eapply still_trans; [exact H1 | apply still_rejectP]. }
  destruct (promises _ _); [exact H2|].
  eapply still_trans; [exact H2|]. apply still_afterConnectRejected.
  exact (Capped_still _ _ H2 Hc).
Qed.

Lemma still_onClose (sock : nat) (w : World) : Capped w -> still w (onClose sock w).
Proof.
  intros Hc. unfold onClose.
  assert (H1 : still w (handleDisconnection (clearTimer (connectionTimeout (sockets w sock)) w))).
  { eapply still_trans; [apply still_frame, frame_clearTimer|].
    apply still_handleDisconnection.
    apply (Capped_still w); [apply still_frame, frame_clearTimer | exact Hc]. }
  cbv zeta.
  assert (H2 : still w
                 (resolveCloseListeners sock
                    (closeListeners
                       (handleDisconnection
                          (clearTimer (connectionTimeout (sockets w sock)) w)))
                    (handleDisconnection
                       (clearTimer (connectionTimeout (sockets w sock)) w)))).
  { eapply still_trans; [exact H1 | apply still_resolveCloseListeners]. }
  destruct (existsb _ _); [|exact H2].
  eapply still_trans; [exact H2 | apply still_processExit].
Qed.

Lemma still_onHandshakeFailure (sock : nat) (message : string) (w : World) :
  Capped w -> still w (onHandshakeFailure sock message w).
Proof.
  intros Hc. unfold onHandshakeFailure, rejectConnect.
  assert (H1 : still w (handleDisconnection (clearTimer (connectionTimeout (sockets w sock)) w))).
  { eapply still_trans; [apply still_frame, frame_clearTimer|].
    apply still_handleDisconnection.
    apply (Capped_still w); [apply still_frame, frame_clearTimer | exact Hc]. }
  revert H1.
  generalize (handleDisconnection (clearTimer (connectionTimeout (sockets w sock)) w)).
  intros w1 H1. cbv zeta. cbn [fst snd].
  assert (H2 : still w (rejectP (PConnect sock) message w1))
    by (eapply still_trans; [exact H1 | apply still_rejectP]).
  revert H2. generalize (rejectP (PConnect sock) message w1). intros w2 H2.
  assert (H3 : still w (handleDisconnection
                          (clearTimer (connectionTimeout (sockets w2 sock)) w2))).
  { eapply still_trans; [exact H2|].
    eapply still_trans; [apply still_frame, frame_clearTimer|].
    apply still_handleDisconnection.
    apply (Capped_still w); [|exact Hc].
    eapply still_trans; [exact H2 | apply still_frame, frame_clearTimer]. }
  revert H3.
  generalize (handleDisconnection (clearTimer (connectionTimeout (sockets w2 sock)) w2)).
  intros w3 H3.
  assert (H4 : still w (resolveCloseListeners sock (closeListeners w3) w3))
    by (eapply still_trans; [exact H3 | apply still_resolveCloseListeners]).
  destruct (existsb _ _).
  - eapply still_trans; [exact H4 | apply still_processExit].
  - destruct (promises w1 (PConnect sock)); [exact H4|].
    eapply still_trans; [exact H4|]. apply still_afterConnectRejected.
    exact (Capped_still _ _ H4 Hc).
Qed.

Lemma still_onConnectionTimeout (sock : nat) (w : World) :
  Capped w -> still w (onConnectionTimeout sock w).
Proof.
  intros Hc. unfold onConnectionTimeout, rejectConnect.
  assert (H1 : still w (scheduleReconnect (rejectP (PConnect sock) "Connection timeout" w))).
  { eapply still_trans; [apply still_rejectP|]. apply still_scheduleReconnect.
    exact (Capped_still _ _ (still_rejectP _ _ w) Hc). }
  destruct (promises w (PConnect sock)); [exact H1|].
  eapply still_trans; [exact H1|]. apply still_afterConnectRejected.
  exact (Capped_still _ _ H1 Hc).
Qed.

Lemma still_onSettled (sock : nat) (now : Z) (w : World) : still w (onSettled sock now w).
Proof.
  unfold onSettled. eapply still_trans; [|apply still_resolveP].
  apply still_frame. eapply socket_frame_trans;
    [apply (frame_startPingInterval now) | apply frame_startBalanceInterval].
Qed.

Lemma still_close (w : World) : Capped w -> still w (close w).
Proof.
  intros Hc. unfold close.
  assert (H1 : still w (rejectAllPendingRequests "Connection closed by user"
                          (stopReconnection (stopIntervals w)))).
  { eapply still_trans; [apply still_frame, frame_stopIntervals|].
    eapply still_trans; [|apply still_frame, frame_rejectAllPendingRequests].
    apply still_stopReconnection.
    exact (Capped_still _ _ (still_frame _ _ (frame_stopIntervals w)) Hc). }
  unfold newPromise. cbn [fst snd].
  eapply still_trans; [exact H1|].
  eapply still_trans; [apply still_newPromise|]. unfold newPromise. cbn [fst snd].
  destruct (ws _) as [sock|].
  - eapply still_trans; [apply still_set_closeListeners | apply still_wsClose].
  - apply still_resolveP.
Qed.

Lemma still_gracefulShutdown (w : World) : Capped w -> still w (gracefulShutdown w).
Proof.
  intros Hc. unfold gracefulShutdown. destruct (ws w).
  - apply still_close. exact Hc.
  - eapply still_trans; [apply still_close; exact Hc | apply still_processExit].
Qed.

Section Capped.

Variable parseFloat : string -> float.

Lemma still_onMessage (data : option jsval) (now now' : Z) (w : World) :
  Capped w -> still w (onMessage parseFloat data now now' w).
Proof.
  intros Hc. destruct (onMessage_cases parseFloat data now now' w) as [H|(m & _ & _ & ->)].
  - apply still_frame. exact H.
  - eapply still_trans; [apply still_frame, (frame_set_isAuthenticated false)|].
    apply still_stopReconnection.
    exact (Capped_still _ _ (still_frame _ _ (frame_set_isAuthenticated false w)) Hc).
Qed.

(** The reconnect timer fires: a socket is opened, nothing is armed. *)
Lemma calm_onReconnectTimer (h : nat) (w : World) :
  isReconnecting (onReconnectTimer (clearTimer h w)) = isReconnecting w /\
  reconnectAttempts (onReconnectTimer (clearTimer h w)) = reconnectAttempts w /\
  armed (onReconnectTimer (clearTimer h w)) = armed w.
Proof. unfold onReconnectTimer, connect, armed. gsimpl. repeat split. Qed.

(** A timer other than the reconnect timer fires while reconnection is
    capped. *)
Lemma still_fireTimer (h : nat) (now now' : Z) (w w' : World) :
  Capped w -> fireTimer h now now' w = Some w' ->
  (exists d, timers w h = Some (TReconnect, d) /\ w' = onReconnectTimer (clearTimer h w)) \/
  still w w'.
Proof.
  intros Hc Hfire. unfold fireTimer in Hfire.
  destruct (timers w h) as [[t d]|] eqn:Ht; [|discriminate].
  pose proof (still_frame _ _ (frame_clearTimer h w)) as Hclr.
  pose proof (Capped_still _ _ Hclr Hc) as Hc1.
  destruct t; cbn [is_interval] in Hfire.
  - injection Hfire as <-. right.
    eapply still_trans; [exact Hclr | apply still_onConnectionTimeout; exact Hc1].
  - injection Hfire as <-. right.
    eapply still_trans; [exact Hclr | apply still_onSettled].
  - injection Hfire as <-. left. exists d. split; reflexivity.
  - injection Hfire as <-. right. apply still_frame, frame_onPingInterval.
  - injection Hfire as <-. right.
    eapply still_trans; [exact Hclr | apply still_frame, frame_subscribeToBalances].
  - injection Hfire as <-. right. apply still_frame, frame_onBalanceInterval.
  - injection Hfire as <-. right.
    eapply still_trans; [exact Hclr | apply still_frame, frame_onPingTimeout].
Qed.

(** While reconnection is capped, an event is the opening of a socket, the
    firing of a reconnect timer, or leaves reconnection as it was. *)
Lemma still_step (w w' : World) (e : Event) :
  Capped w -> step parseFloat w e = Some w' ->
  (exists sock now, e = EvOpen sock now /\ readyState (sockets w sock) = CONNECTING) \/
  (exists h now now' d, e = EvTimer h now now' /\ timers w h = Some (TReconnect, d) /\
                        w' = onReconnectTimer (clearTimer h w)) \/
  still w w'.
Proof.
  intros Hc Hstep. unfold step in Hstep.
  destruct (exited w); [discriminate|].
  destruct e as [sock now|sock data now now'|sock message|sock|h now now'|].
  - left. exists sock, now. split; [reflexivity|].
    destruct (readyState (sockets w sock)); try discriminate. reflexivity.
  - right. right.
    destruct (readyState (sockets w sock)); try discriminate;
      injection Hstep as <-; apply still_onMessage; exact Hc.
  - right. right.
    assert (Hset : still w (setSocketState sock ERRORED w))
      by (apply still_setSocketState; discriminate).
    assert (Hset' : still w (setSocketState sock CLOSED w))
      by (apply still_setSocketState; discriminate).
    destruct (readyState (sockets w sock)); try discriminate;
      injection Hstep as <-;
      [eapply still_trans;
         [exact Hset' | apply still_onHandshakeFailure; exact (Capped_still _ _ Hset' Hc)]
      |eapply still_trans; [exact Hset | apply still_onError; exact (Capped_still _ _ Hset Hc)]
      |eapply still_trans;
         [exact Hset' | apply still_onHandshakeFailure; exact (Capped_still _ _ Hset' Hc)]
      |eapply still_trans; [exact Hset | apply still_onError; exact (Capped_still _ _ Hset Hc)]].
  - right. right.
    assert (Hset : still w (setSocketState sock CLOSED w))
      by (apply still_setSocketState; discriminate).
    destruct (readyState (sockets w sock)); try discriminate;
      injection Hstep as <-;
      (eapply still_trans; [exact Hset | apply still_onClose; exact (Capped_still _ _ Hset Hc)]).
  - destruct (still_fireTimer h now now' w w' Hc Hstep) as [(d & Ht & Hw)|H].
    + right. left. exists h, now, now', d. repeat split; assumption.
    + right. right. exact H.
  - right. right. injection Hstep as <-. apply still_gracefulShutdown. exact Hc.
Qed.

(** While reconnection is capped and no socket opens, it stays capped and no
    reconnect timer is armed. *)
Lemma Capped_step (w w' : World) (e : Event) :
  Capped w -> step parseFloat w e = Some w' -> is_open_event e = false ->
  Capped w' /\ armed w' = armed w.
Proof.
  intros Hc Hstep Hopen.
  destruct (still_step w w' e Hc Hstep)
    as [(sock & now & -> & _)|[(h & now & now' & d & -> & Ht & ->)|H]].
  - discriminate Hopen.
  - destruct (calm_onReconnectTimer h w) as (E1 & E2 & E3). destruct Hc as [C1 C2].
    repeat split; congruence.
  - split; [exact (Capped_still _ _ H Hc) | exact (armed_still _ _ H)].
Qed.

Lemma Capped_run (events : list Event) (w w' : World) :
  Capped w -> run parseFloat w events = Some w' ->
  existsb is_open_event events = false ->
  Capped w' /\ armed w' = armed w.
Proof.
  revert w. induction events as [|e events IH]; intros w Hc Hrun Hno.
  - injection Hrun as <-. split; [exact Hc | reflexivity].
  - cbn [run] in Hrun. destruct (step parseFloat w e) as [w1|] eqn:Hstep; [|discriminate].
    cbn [existsb] in Hno. apply orb_false_iff in Hno. destruct Hno as [He Hrest].
    destruct (Capped_step w w1 e Hc Hstep He) as [Hc1 Ha1].
    destruct (IH w1 Hc1 Hrun Hrest) as [Hc' Ha']. split; [exact Hc' | congruence].
Qed.



End Capped.

(** ** Handlers that leave the promises of [close()] alone *)

Lemma steady_refl (w : World) : steady w w.
Proof. split; [apply still_refl | split; [reflexivity | apply keeps_refl]]. Qed.

Lemma steady_trans (w1 w2 w3 : World) : steady w1 w2 -> steady w2 w3 -> steady w1 w3.
Proof.
  intros (A1 & A2 & A3) (B1 & B2 & B3). split; [exact (still_trans _ _ _ A1 B1)|]. split.
  - intros n. rewrite B2. apply A2.
  - exact (keeps_trans _ _ _ A3 B3).
Qed.

Lemma steady_of_frame (w w' : World) : socket_frame w w' -> keeps_table w w' -> steady w w'.
Proof.
  intros H Hk. split; [apply still_frame; exact H|]. split; [|exact Hk].
  destruct H as (_ & _ & _ & _ & _ & _ & _ & _ & _ & _ & _ & H12 & _). exact H12.
Qed.

Lemma steady_clearTimer (h : nat) (w : World) : steady w (clearTimer h w).
Proof. apply steady_of_frame; [apply frame_clearTimer | apply keeps_same, same_clearTimer]. Qed.

Lemma steady_setSocketState (sock : nat) (st : ReadyState) (w : World) :
  st <> CONNECTING -> steady w (setSocketState sock st w).
Proof.
  intros H. split; [apply still_setSocketState; exact H|].
  split; [reflexivity | apply keeps_same, same_setSocketState].
Qed.

Lemma steady_processExit (code : Z) (w : World) : steady w (processExit code w).
Proof.
  split; [apply still_processExit|]. split; [reflexivity | apply keeps_same, same_processExit].
Qed.

Lemma steady_newPromise (w : World) : steady w (snd (newPromise w)).
Proof. split; [apply still_newPromise|]. split; [reflexivity | apply keeps_newPromise]. Qed.

Lemma steady_set_closeListeners (ls : list (nat * nat)) (w : World) :
  steady w (set_closeListeners ls w).
Proof.
  split; [apply still_set_closeListeners|].
  split; [reflexivity | apply keeps_same, same_set_closeListeners].
Qed.

Lemma steady_wsClose (sock : nat) (w : World) : steady w (wsClose sock w).
Proof.
  split; [apply still_wsClose|]. split; [|apply keeps_same, same_wsClose].
  intros n. unfold wsClose. destruct (readyState (sockets w sock)); reflexivity.
Qed.

Lemma steady_rejectP_connect (sock : nat) (m : string) (w : World) :
  steady w (rejectP (PConnect sock) m w).
Proof.
  split; [apply still_rejectP|]. split; [|apply keeps_same, same_rejectP_connect].
  intros n. rewrite rejectP_eq. gsimpl. apply settleFn_other. reflexivity.
Qed.

Lemma steady_resolveP_connect (sock : nat) (v : jsval) (w : World) :
  steady w (resolveP (PConnect sock) v w).
Proof.
  split; [apply still_resolveP|]. split; [|apply keeps_same, same_resolveP_connect].
  intros n. rewrite resolveP_eq. gsimpl. apply settleFn_other. reflexivity.
Qed.

Lemma steady_onSettled (sock : nat) (now : Z) (w : World) : steady w (onSettled sock now w).
Proof.
  unfold onSettled. eapply steady_trans; [|apply steady_resolveP_connect].
  apply steady_of_frame.
  - eapply socket_frame_trans;
      [apply (frame_startPingInterval now) | apply frame_startBalanceInterval].
  - eapply keeps_trans; [apply (keeps_startPingInterval now)|].
    apply keeps_same, same_startBalanceInterval.
Qed.

Lemma steady_disconnected (w : World) : steady w (disconnected w).
Proof.
  split; [apply still_disconnected|]. split; [|apply keeps_disconnection_base].
  intros n. unfold disconnected. gsimpl.
  apply settleAll_requests_other. intros; reflexivity.
Qed.

(** ** Properties that every event keeps

    A property of the state that is kept by the handlers that leave
    reconnection and the promises of [close()] alone, by arming a reconnect
    timer, by stopping reconnection, by the opening of a socket and by a new
    connection, is kept by every event but ['close'] and the shutdown; when
    the resolution of [close()] keeps it too, it is kept by every event. *)

Section Kept.

Variable parseFloat : string -> float.
Variable P : World -> Prop.

Hypothesis P_steady : forall w w', steady w w' -> P w -> P w'.
Hypothesis P_arm : forall w, reconnect_blocked w = false -> P w -> P (arm w).
Hypothesis P_stop : forall w, P w -> P (stopReconnection w).
Hypothesis P_open : forall sock now w, P w -> P (onOpen sock now w).
Hypothesis P_connect : forall w, P w -> P (connect true w).

Lemma kept_scheduleReconnect (w : World) : P w -> P (scheduleReconnect w).
Proof.
  intros H. rewrite scheduleReconnect_eq.
  destruct (reconnect_blocked w) eqn:Hb; [exact H | apply P_arm; assumption].
Qed.

Lemma kept_handleDisconnection (w : World) : P w -> P (handleDisconnection w).
Proof.
  intros H. rewrite handleDisconnection_disconnected.
  pose proof (P_steady _ _ (steady_disconnected w) H) as Hbase.
  destruct (reconnect_blocked w) eqn:Hb; [exact Hbase|].
  apply P_arm; [exact Hb | exact Hbase].
Qed.

Lemma kept_disconnected (sock : nat) (w : World) :
  P w -> P (handleDisconnection (clearTimer (connectionTimeout (sockets w sock)) w)).
Proof.
  intros H. apply kept_handleDisconnection.
  exact (P_steady _ _ (steady_clearTimer _ w) H).
Qed.

Lemma kept_afterConnectRejected (sock : nat) (w : World) :
  P w -> P (afterConnectRejected sock w).
Proof.
  intros H. unfold afterConnectRejected. destruct (viaReconnect (sockets w sock)).
  - apply kept_scheduleReconnect. exact H.
  - exact (P_steady _ _ (steady_processExit 1 w) H).
Qed.

Lemma kept_onError (sock : nat) (message : string) (w : World) :
  P w -> P (onError sock message w).
Proof.
  intros H. unfold onError, rejectConnect.
  pose proof (P_steady _ _ (steady_rejectP_connect sock message _) (kept_disconnected sock w H))
    as H2.
  destruct (promises _ _); [exact H2|].
  apply kept_afterConnectRejected. exact H2.
Qed.

Lemma kept_onConnectionTimeout (sock : nat) (w : World) :
  P w -> P (onConnectionTimeout sock w).
Proof.
  intros H. unfold onConnectionTimeout, rejectConnect.
  assert (H1 : P (scheduleReconnect (rejectP (PConnect sock) "Connection timeout" w))).
  { apply kept_scheduleReconnect. exact (P_steady _ _ (steady_rejectP_connect _ _ w) H). }
  destruct (promises w (PConnect sock)); [exact H1|].
  apply kept_afterConnectRejected. exact H1.
Qed.

Lemma kept_onMessage (data : option jsval) (now now' : Z) (w : World) :
  P w -> P (onMessage parseFloat data now now' w).
Proof.
  intros H. destruct (onMessage_cases parseFloat data now now' w) as [Hf|(m & _ & _ & ->)].
  - exact (P_steady _ _ (steady_of_frame _ _ Hf (keeps_onMessage parseFloat data now now' w)) H).
  - apply P_stop.
    exact (P_steady _ _ (steady_of_frame _ _ (frame_set_isAuthenticated false w)
                           (keeps_same _ _ (same_set_isAuthenticated false w))) H).
Qed.

Lemma kept_fireTimer (h : nat) (now now' : Z) (w w' : World) :
  P w -> fireTimer h now now' w = Some w' -> P w'.
Proof.
  intros H Hfire. unfold fireTimer in Hfire.
  destruct (timers w h) as [[t d]|]; [|discriminate].
  pose proof (P_steady _ _ (steady_clearTimer h w) H) as Hclr.
  destruct t; cbn [is_interval] in Hfire.
  - injection Hfire as <-. apply kept_onConnectionTimeout. exact Hclr.
  - injection Hfire as <-. exact (P_steady _ _ (steady_onSettled sock now _) Hclr).
  - injection Hfire as <-. apply P_connect. exact Hclr.
  - injection Hfire as <-.
    exact (P_steady _ _ (steady_of_frame _ _ (frame_onPingInterval now w)
                           (keeps_onPingInterval now w)) H).
  - injection Hfire as <-.
    exact (P_steady _ _ (steady_of_frame _ _ (frame_subscribeToBalances now _)
                           (keeps_same _ _ (same_subscribeToBalances now _))) Hclr).
  - injection Hfire as <-.
    exact (P_steady _ _ (steady_of_frame _ _ (frame_onBalanceInterval now now' w)
                           (keeps_same _ _ (same_onBalanceInterval now now' w))) H).
  - injection Hfire as <-.
    exact (P_steady _ _ (steady_of_frame _ _ (frame_onPingTimeout p _)
                           (keeps_onPingTimeout p _)) Hclr).
Qed.

(** The part of [close()] before its promise is made. *)
Lemma kept_close_prefix (w : World) :
  P w -> P (rejectAllPendingRequests "Connection closed by user"
              (stopReconnection (stopIntervals w))).
Proof.
  intros H.
  apply (P_steady _ _ (steady_of_frame _ _ (frame_rejectAllPendingRequests _ _)
                         (keeps_rejectAllPendingRequests _ _))).
  apply P_stop.
  exact (P_steady _ _ (steady_of_frame _ _ (frame_stopIntervals w)
                         (keeps_same _ _ (same_stopIntervals w))) H).
Qed.

(** Every event but ['close'], the failure of a handshake and the
    shutdown. *)
Lemma kept_step_other (w w' : World) (e : Event) :
  P w -> step parseFloat w e = Some w' ->
  match e with
  | EvClose _ | EvShutdown => True
  | EvError sock _ => live (readyState (sockets w sock)) = true -> P w'
  | _ => P w'
  end.
Proof.
  intros H Hstep. unfold step in Hstep.
  destruct (exited w); [discriminate|].
  destruct e as [sock now|sock data now now'|sock message|sock|h now now'|]; try exact I.
  - destruct (readyState (sockets w sock)); try discriminate.
    injection Hstep as <-. apply P_open.
    apply (P_steady w); [apply steady_setSocketState; discriminate | exact H].
  - destruct (readyState (sockets w sock)); try discriminate;
      injection Hstep as <-; apply kept_onMessage; exact H.
  - assert (Hset : P (setSocketState sock ERRORED w))
      by (apply (P_steady w); [apply steady_setSocketState; discriminate | exact H]).
    destruct (readyState (sockets w sock)); try discriminate;
      intros Hlive; try discriminate Hlive;
      injection Hstep as <-; apply kept_onError; exact Hset.
  - exact (kept_fireTimer h now now' w w' H Hstep).
Qed.

Hypothesis P_listeners : forall sock ls w, P w -> P (resolveCloseListeners sock ls w).
Hypothesis P_resolve_close : forall n v w, P w -> P (resolveP (PClose n) v w).

Lemma kept_onClose (sock : nat) (w : World) : P w -> P (onClose sock w).
Proof.
  intros H. unfold onClose. cbv zeta.
  pose proof (P_listeners sock
                (closeListeners
                   (handleDisconnection (clearTimer (connectionTimeout (sockets w sock)) w)))
                _ (kept_disconnected sock w H)) as H2.
  destruct (existsb _ _); [|exact H2].
  exact (P_steady _ _ (steady_processExit 0 _) H2).
Qed.

Lemma kept_onHandshakeFailure (sock : nat) (message : string) (w : World) :
  P w -> P (onHandshakeFailure sock message w).
Proof.
  intros H. unfold onHandshakeFailure, rejectConnect.
  pose proof (kept_disconnected sock w H) as H1. revert H1.
  generalize (handleDisconnection (clearTimer (connectionTimeout (sockets w sock)) w)).
  intros w1 H1. cbv zeta. cbn [fst snd].
  pose proof (P_steady _ _ (steady_rejectP_connect sock message w1) H1) as H2. revert H2.
  generalize (rejectP (PConnect sock) message w1). intros w2 H2.
  pose proof (kept_disconnected sock w2 H2) as H3. revert H3.
  generalize (handleDisconnection (clearTimer (connectionTimeout (sockets w2 sock)) w2)).
  intros w3 H3.
  pose proof (P_listeners sock (closeListeners w3) w3 H3) as H4.
  destruct (existsb _ _); [exact (P_steady _ _ (steady_processExit 0 _) H4)|].
  destruct (promises w1 (PConnect sock)); [exact H4|].
  apply kept_afterConnectRejected. exact H4.
Qed.

Lemma kept_close (w : World) : P w -> P (close w).
Proof.
  intros H. unfold close. pose proof (kept_close_prefix w H) as H1.
  apply (P_steady _ _ (steady_newPromise _)) in H1. unfold newPromise in *. cbn [fst snd] in *.
  destruct (ws _) as [sock|].
  - apply (P_steady _ _ (steady_wsClose sock _)).
    exact (P_steady _ _ (steady_set_closeListeners _ _) H1).
  - apply P_resolve_close. exact H1.
Qed.

Lemma kept_gracefulShutdown (w : World) : P w -> P (gracefulShutdown w).
Proof.
  intros H. unfold gracefulShutdown. destruct (ws w).
  - apply kept_close. exact H.
  - apply (P_steady _ _ (steady_processExit 0 _)). apply kept_close. exact H.
Qed.

Lemma kept_step (w w' : World) (e : Event) :
  P w -> step parseFloat w e = Some w' -> P w'.
Proof.
  intros H Hstep. pose proof (kept_step_other w w' e H Hstep) as Hother.
  destruct e as [sock now|sock data now now'|sock message|sock|h now now'|];
    try exact Hother; unfold step in Hstep; destruct (exited w); try discriminate.
  - assert (Hset : P (setSocketState sock CLOSED w))
      by (apply (P_steady w); [apply steady_setSocketState; discriminate | exact H]).
    destruct (readyState (sockets w sock)); try discriminate;
      try (apply Hother; reflexivity);
      injection Hstep as <-; apply kept_onHandshakeFailure; exact Hset.
  - assert (Hset : P (setSocketState sock CLOSED w))
      by (apply (P_steady w); [apply steady_setSocketState; discriminate | exact H]).
    destruct (readyState (sockets w sock)); try discriminate;
      injection Hstep as <-; apply kept_onClose; exact Hset.
  - injection Hstep as <-. apply kept_gracefulShutdown. exact H.
Qed.

Lemma kept_run (events : list Event) (w w' : World) :
  P w -> run parseFloat w events = Some w' -> P w'.
Proof.
  revert w. induction events as [|e events IH]; intros w H Hrun.
  - injection Hrun as <-. exact H.
  - cbn [run] in Hrun. destruct (step parseFloat w e) as [w1|] eqn:Hstep; [|discriminate].
    exact (IH w1 (kept_step w w1 e H Hstep) Hrun).
Qed.

End Kept.

(** A property kept as in [Kept], but for the opening of a socket, is kept
    by every other event. *)
Section KeptUntilOpen.

Variable parseFloat : string -> float.
Variable P : World -> Prop.

Hypothesis P_steady : forall w w', steady w w' -> P w -> P w'.
Hypothesis P_arm : forall w, reconnect_blocked w = false -> P w -> P (arm w).
Hypothesis P_stop : forall w, P w -> P (stopReconnection w).
Hypothesis P_connect : forall w, P w -> P (connect true w).
Hypothesis P_listeners : forall sock ls w, P w -> P (resolveCloseListeners sock ls w).
Hypothesis P_resolve_close : forall n v w, P w -> P (resolveP (PClose n) v w).

Lemma kept_until_open_step (w w' : World) (e : Event) :
  P w -> is_open_event e = false -> step parseFloat w e = Some w' -> P w'.
Proof.
  intros H Hopen Hstep. unfold step in Hstep. destruct (exited w); [discriminate|].
  destruct e as [sock now|sock data now now'|sock message|sock|h now now'|].
  - discriminate Hopen.
  - destruct (readyState (sockets w sock)); try discriminate;
      injection Hstep as <-; apply (kept_onMessage parseFloat P P_steady P_stop); exact H.
  - assert (Hset : P (setSocketState sock ERRORED w))
      by (apply (P_steady w); [apply steady_setSocketState; discriminate | exact H]).
    assert (Hset' : P (setSocketState sock CLOSED w))
      by (apply (P_steady w); [apply steady_setSocketState; discriminate | exact H]).
    destruct (readyState (sockets w sock)); try discriminate;
      injection Hstep as <-;
      [apply (kept_onHandshakeFailure P P_steady P_arm P_listeners); exact Hset'
      |apply (kept_onError P P_steady P_arm); exact Hset
      |apply (kept_onHandshakeFailure P P_steady P_arm P_listeners); exact Hset'
      |apply (kept_onError P P_steady P_arm); exact Hset].
  - assert (Hset : P (setSocketState sock CLOSED w))
      by (apply (P_steady w); [apply steady_setSocketState; discriminate | exact H]).
    destruct (readyState (sockets w sock)); try discriminate;
      injection Hstep as <-; apply (kept_onClose P P_steady P_arm P_listeners); exact Hset.
  - exact (kept_fireTimer P P_steady P_arm P_connect h now now' w w' H Hstep).
  - injection Hstep as <-.
    apply (kept_gracefulShutdown P P_steady P_stop P_resolve_close). exact H.
Qed.

Lemma kept_until_open_run (events : list Event) (w w' : World) :
  P w -> existsb is_open_event events = false -> run parseFloat w events = Some w' -> P w'.
Proof.
  revert w. induction events as [|e events IH]; intros w H Hno Hrun.
  - injection Hrun as <-. exact H.
  - cbn [run] in Hrun. destruct (step parseFloat w e) as [w1|] eqn:Hstep; [|discriminate].
    cbn [existsb] in Hno. apply orb_false_iff in Hno. destruct Hno as [He Hrest].
    exact (IH w1 (kept_until_open_step w w1 e H He Hstep) Hrest Hrun).
Qed.

End KeptUntilOpen.

(** The counter and the flag of reconnection take three values only. *)
Lemma ReconInv_still (w w' : World) : still w w' -> ReconInv w -> ReconInv w'.
Proof. intros (A1 & A2 & _). unfold ReconInv. rewrite A1, A2. auto. Qed.

Lemma ReconInv_arm (w : World) : reconnect_blocked w = false -> ReconInv w -> ReconInv (arm w).
Proof.
  unfold reconnect_blocked, ReconInv, arm, maxReconnectAttempts. gsimpl.
  intros Hb [[H1 H2]|[[H1 H2]|[H1 H2]]]; rewrite H1, H2 in Hb; try discriminate.
  right. left. rewrite H2. split; reflexivity.
Qed.

Lemma ReconInv_stopReconnection (w : World) : ReconInv w -> ReconInv (stopReconnection w).
Proof.
  intros _. rewrite stopReconnection_eq. unfold ReconInv. gsimpl. right. right. split; reflexivity.
Qed.

Lemma ReconInv_onOpen (sock : nat) (now : Z) (w : World) :
  ReconInv w -> ReconInv (onOpen sock now w).
Proof. intros _. unfold onOpen, ReconInv, setTimer. gsimpl. left. split; reflexivity. Qed.

Lemma ReconInv_connect (w : World) : ReconInv w -> ReconInv (connect true w).
Proof. unfold connect, ReconInv. gsimpl. auto. Qed.

Lemma ReconInv_reachable (parseFloat : string -> float) (w : World) :
  reachable parseFloat w -> ReconInv w.
Proof.
  intros (key & secret & events & Hrun).
  apply (kept_run parseFloat ReconInv) with (events := events) (w := init key secret);
    try assumption.
  - intros w1 w2 [H _]. exact (ReconInv_still w1 w2 H).
  - exact ReconInv_arm.
  - exact ReconInv_stopReconnection.
  - exact ReconInv_onOpen.
  - exact ReconInv_connect.
  - intros sock ls w1. exact (ReconInv_still _ _ (still_resolveCloseListeners sock ls w1)).
  - intros n v w1. exact (ReconInv_still _ _ (still_resolveP _ v w1)).
  - left. split; reflexivity.
Qed.

(** What a promise was settled with stays, whatever happens. *)
Lemma Grows_still (w0 w w' : World) : still w w' -> Grows w0 w -> Grows w0 w'.
Proof. intros (_ & _ & _ & _ & _ & _ & Hg) H p o Hp. apply Hg, H, Hp. Qed.

Lemma Grows_run (parseFloat : string -> float) (events : list Event) (w w' : World) :
  run parseFloat w events = Some w' -> Grows w w'.
Proof.
  intros Hrun.
  apply (kept_run parseFloat (Grows w)) with (events := events) (w := w); try assumption.
  - intros w1 w2 [H _]. exact (Grows_still w w1 w2 H).
  - intros w1 _ H. unfold arm. intros p o Hp. gsimpl. apply H, Hp.
  - intros w1 H. rewrite stopReconnection_eq. intros p o Hp. gsimpl. apply H, Hp.
  - intros sock now w1 H. unfold onOpen, setTimer. intros p o Hp. gsimpl. apply H, Hp.
  - intros w1 H. unfold connect. intros p o Hp. gsimpl. apply H, Hp.
  - intros sock ls w1. exact (Grows_still _ _ _ (still_resolveCloseListeners sock ls w1)).
  - intros n v w1. exact (Grows_still _ _ _ (still_resolveP _ v w1)).
  - intros p o Hp. exact Hp.
Qed.

(** The table of pending requests is well formed in every state the program
    reaches. *)
Lemma TableInv_reachable (parseFloat : string -> float) (w : World) :
  reachable parseFloat w -> TableInv w.
Proof.
  intros (key & secret & events & Hrun).
  apply (kept_run parseFloat TableInv) with (events := events) (w := init key secret);
    try assumption.
  - intros w1 w2 (_ & _ & H). exact H.
  - intros w1 _. exact (keeps_same _ _ (same_arm w1)).
  - intros w1. exact (keeps_same _ _ (same_stopReconnection w1)).
  - intros sock now w1. exact (keeps_same _ _ (same_onOpen sock now w1)).
  - intros w1. exact (keeps_same _ _ (same_connect true w1)).
  - intros sock ls w1. exact (keeps_same _ _ (same_resolveCloseListeners sock ls w1)).
  - intros n v w1. exact (keeps_same _ _ (same_resolveP_close n v w1)).
  - apply (keeps_same _ _ (same_connect false (fresh key secret))).
    constructor; cbn [fresh pendingRequests requestId nextPromise promises map];
      try (intros k pr []); try constructor; try reflexivity; try discriminate.
Qed.

(** ** [close()] *)

Lemma settleFn_hit (p : promise) (o : Outcome) (f : promise -> option Outcome) :
  f p = None -> settleFn p o f p = Some o.
Proof.
  intros H. unfold settleFn, pupd. rewrite H.
  assert (E : promise_eqb p p = true)
    by (destruct p; cbn [promise_eqb]; apply Nat.eqb_refl).
  rewrite E. reflexivity.
Qed.

(** Settling a list of pending promises with one outcome: each gets it. *)
Lemma settleAll_hit (ps : list promise) (p : promise) (o : Outcome)
    (f : promise -> option Outcome) :
  In p ps -> f p = None -> settleAll ps o f p = Some o.
Proof.
  revert f. induction ps as [|q ps IH]; intros f Hin Hp; [destruct Hin|].
  cbn [settleAll fold_left]. change (settleAll ps o (settleFn q o f) p = Some o).
  destruct (settleFn q o f p) as [r|] eqn:Hq.
  - rewrite (settleAll_mono ps p o r _ Hq). f_equal.
    unfold settleFn, pupd in Hq. destruct (f q); [congruence|].
    destruct (promise_eqb p q); congruence.
  - destruct Hin as [->|Hin]; [rewrite settleFn_hit in Hq by exact Hp; discriminate|].
    apply IH; assumption.
Qed.

Lemma table_rejectAllPendingRequests (message : string) (w : World) :
  pendingRequests (rejectAllPendingRequests message w) = [].
Proof. rewrite rejectAllPendingRequests_eq. reflexivity. Qed.

(** [rejectAllPendingRequests] rejects the waiter of every entry whose
    promise is pending. *)
Lemma rejected_rejectAllPendingRequests (message : string) (w : World) (k : Z)
    (pr : PendingRequest) :
  In (k, pr) (pendingRequests w) -> promises w (PRequest (waiter pr)) = None ->
  promises (rejectAllPendingRequests message w) (PRequest (waiter pr))
  = Some (Rejected message).
Proof.
  intros Hin Hp. rewrite rejectAllPendingRequests_eq. gsimpl.
  apply settleAll_hit; [|exact Hp].
  apply in_map_iff. exists (k, pr). split; [reflexivity | exact Hin].
Qed.

Lemma table_handleDisconnection (w : World) : pendingRequests (handleDisconnection w) = [].
Proof.
  rewrite handleDisconnection_eq. cbv zeta.
  destruct (reconnect_blocked w); reflexivity.
Qed.

Lemma table_resolveCloseListeners (sock : nat) (ls : list (nat * nat)) (w : World) :
  pendingRequests (resolveCloseListeners sock ls w) = pendingRequests w.
Proof. rewrite resolveCloseListeners_eq. reflexivity. Qed.

Lemma listeners_resolveCloseListeners (sock : nat) (ls : list (nat * nat)) (w : World) :
  closeListeners (resolveCloseListeners sock ls w) = closeListeners w.
Proof. rewrite resolveCloseListeners_eq. reflexivity. Qed.

Lemma table_processExit (code : Z) (w : World) :
  pendingRequests (processExit code w) = pendingRequests w.
Proof. reflexivity. Qed.

Lemma promises_processExit (code : Z) (w : World) :
  promises (processExit code w) = promises w.
Proof. reflexivity. Qed.

Lemma table_onClose (sock : nat) (w : World) : pendingRequests (onClose sock w) = [].
Proof.
  unfold onClose. cbv zeta. destruct (existsb _ _); rewrite ?table_processExit;
    rewrite table_resolveCloseListeners; apply table_handleDisconnection.
Qed.

Lemma table_wsClose (sock : nat) (w : World) :
  pendingRequests (wsClose sock w) = pendingRequests w.
Proof. unfold wsClose. destruct (readyState (sockets w sock)); reflexivity. Qed.

Lemma table_resolveP (p : promise) (v : jsval) (w : World) :
  pendingRequests (resolveP p v w) = pendingRequests w.
Proof. rewrite resolveP_eq. reflexivity. Qed.

(** [close()] leaves no entry in the table. *)
Lemma table_close (w : World) : pendingRequests (close w) = [].
Proof.
  unfold close, newPromise. cbn [fst snd]. destruct (ws _) as [sock|].
  - rewrite table_wsClose. gsimpl. apply table_rejectAllPendingRequests.
  - rewrite table_resolveP. gsimpl. apply table_rejectAllPendingRequests.
Qed.

(** The rest of [close()], after the requests were rejected. *)
Lemma still_close_rest (w : World) :
  still (rejectAllPendingRequests "Connection closed by user"
           (stopReconnection (stopIntervals w)))
        (close w).
Proof.
  unfold close.
  eapply still_trans; [apply still_newPromise|]. unfold newPromise. cbn [fst snd].
  destruct (ws _) as [sock|].
  - eapply still_trans; [apply still_set_closeListeners | apply still_wsClose].
  - apply still_resolveP.
Qed.

Lemma rejected_close (w : World) (k : Z) (pr : PendingRequest) :
  In (k, pr) (pendingRequests w) -> promises w (PRequest (waiter pr)) = None ->
  promises (close w) (PRequest (waiter pr)) = Some (Rejected "Connection closed by user").
Proof.
  intros Hin Hp.
  destruct (still_close_rest w) as (_ & _ & _ & _ & _ & _ & Hg). apply Hg.
  apply (rejected_rejectAllPendingRequests _ _ k).
  - rewrite stopReconnection_eq, stopIntervals_eq. exact Hin.
  - rewrite stopReconnection_eq, stopIntervals_eq. exact Hp.
Qed.

Lemma rejected_gracefulShutdown (w : World) (k : Z) (pr : PendingRequest) :
  In (k, pr) (pendingRequests w) -> promises w (PRequest (waiter pr)) = None ->
  promises (gracefulShutdown w) (PRequest (waiter pr))
  = Some (Rejected "Connection closed by user").
Proof.
  intros Hin Hp. unfold gracefulShutdown.
  destruct (ws w); [exact (rejected_close w k pr Hin Hp)|].
  rewrite promises_processExit. exact (rejected_close w k pr Hin Hp).
Qed.

(** *** When [close()] has resolved *)

Lemma NoClose_steady (w w' : World) : steady w w' -> NoClose w -> NoClose w'.
Proof. intros (_ & H & _) Hn n. rewrite H. apply Hn. Qed.

Lemma NoClose_arm (w : World) : reconnect_blocked w = false -> NoClose w -> NoClose (arm w).
Proof. intros _ H n. unfold arm. gsimpl. apply H. Qed.

Lemma NoClose_stopReconnection (w : World) : NoClose w -> NoClose (stopReconnection w).
Proof. intros H n. rewrite stopReconnection_eq. gsimpl. apply H. Qed.

Lemma NoClose_onOpen (sock : nat) (now : Z) (w : World) : NoClose w -> NoClose (onOpen sock now w).
Proof. intros H n. unfold onOpen, setTimer. gsimpl. apply H. Qed.

Lemma NoClose_connect (w : World) : NoClose w -> NoClose (connect true w).
Proof. intros H n. unfold connect. gsimpl. apply H. Qed.

Lemma no_listeners (sock : nat) (ls : list (nat * nat)) :
  existsb (fun l => Nat.eqb (fst l) sock) ls = false -> listeners_of sock ls = [].
Proof.
  unfold listeners_of. induction ls as [|l ls IH]; [reflexivity|].
  cbn [existsb filter]. intros H. apply orb_false_iff in H. destruct H as [H1 H2].
  rewrite H1. apply IH. exact H2.
Qed.

Lemma CloseInv_closed (sock : nat) (w : World) :
  NoClose w -> pendingRequests w = [] ->
  CloseInv (let w1 := resolveCloseListeners sock (closeListeners w) w in
            if existsb (fun l => Nat.eqb (fst l) sock) (closeListeners w1)
            then processExit 0 w1 else w1).
Proof.
  intros Hn Htable. cbv zeta. rewrite listeners_resolveCloseListeners.
  destruct (existsb _ _) eqn:Hex.
  - right. split; [discriminate|].
    rewrite table_processExit, table_resolveCloseListeners. exact Htable.
  - left. intros n. rewrite resolveCloseListeners_eq, (no_listeners _ _ Hex). apply Hn.
Qed.

Lemma CloseInv_onClose (sock : nat) (w : World) : NoClose w -> CloseInv (onClose sock w).
Proof.
  intros Hn. unfold onClose.
  apply (CloseInv_closed sock
           (handleDisconnection (clearTimer (connectionTimeout (sockets w sock)) w))).
  - exact (kept_disconnected NoClose NoClose_steady NoClose_arm sock w Hn).
  - apply table_handleDisconnection.
Qed.

Lemma CloseInv_onHandshakeFailure (sock : nat) (message : string) (w : World) :
  NoClose w -> CloseInv (onHandshakeFailure sock message w).
Proof.
  intros Hn. unfold onHandshakeFailure, rejectConnect.
  pose proof (kept_disconnected NoClose NoClose_steady NoClose_arm sock w Hn) as H1.
  revert H1.
  generalize (handleDisconnection (clearTimer (connectionTimeout (sockets w sock)) w)).
  intros w1 H1. cbv zeta. cbn [fst snd].
  pose proof (NoClose_steady _ _ (steady_rejectP_connect sock message w1) H1) as H2.
  revert H2. generalize (rejectP (PConnect sock) message w1). intros w2 H2.
  pose proof (kept_disconnected NoClose NoClose_steady NoClose_arm sock w2 H2) as H3.
  pose proof (table_handleDisconnection
                (clearTimer (connectionTimeout (sockets w2 sock)) w2)) as Ht.
  revert H3 Ht.
  generalize (handleDisconnection (clearTimer (connectionTimeout (sockets w2 sock)) w2)).
  intros w3 H3 Ht. rewrite listeners_resolveCloseListeners.
  destruct (existsb _ _) eqn:Hex.
  - right. split; [discriminate|].
    rewrite table_processExit, table_resolveCloseListeners. exact Ht.
  - assert (H4 : NoClose (resolveCloseListeners sock (closeListeners w3) w3)).
    { intros n. rewrite resolveCloseListeners_eq, (no_listeners _ _ Hex). apply H3. }
    left. destruct (promises w1 (PConnect sock)); [exact H4|].
    exact (kept_afterConnectRejected NoClose NoClose_steady NoClose_arm sock _ H4).
Qed.

Lemma CloseInv_gracefulShutdown (w : World) : NoClose w -> CloseInv (gracefulShutdown w).
Proof.
  intros Hn. unfold gracefulShutdown. destruct (ws w) as [sock|] eqn:Hws.
  - left. unfold close.
    pose proof (kept_close_prefix NoClose NoClose_steady NoClose_stopReconnection w Hn) as H1.
    apply (NoClose_steady _ _ (steady_newPromise _)) in H1.
    unfold newPromise in *. cbn [fst snd] in *.
    replace (ws _) with (Some sock)
      by (rewrite rejectAllPendingRequests_eq, stopReconnection_eq, stopIntervals_eq;
          symmetry; exact Hws).
    apply (NoClose_steady _ _ (steady_wsClose sock _)).
    exact (NoClose_steady _ _ (steady_set_closeListeners _ _) H1).
  - right. split; [discriminate|]. rewrite table_processExit. apply table_close.
Qed.

Section CloseResolved.

Variable parseFloat : string -> float.

Lemma CloseInv_step (w w' : World) (e : Event) :
  CloseInv w -> step parseFloat w e = Some w' -> CloseInv w'.
Proof.
  intros HI Hstep.
  assert (Hrun : exited w = None)
    by (unfold step in Hstep; destruct (exited w); [discriminate | reflexivity]).
  destruct HI as [Hn|[Hex _]]; [|congruence].
  pose proof (kept_step_other parseFloat NoClose NoClose_steady NoClose_arm
                NoClose_stopReconnection NoClose_onOpen NoClose_connect w w' e Hn Hstep)
    as Hother.
  destruct e as [sock now|sock data now now'|sock message|sock|h now now'|];
    try (left; exact Hother); unfold step in Hstep; rewrite Hrun in Hstep.
  - assert (Hset : NoClose (setSocketState sock CLOSED w))
      by (apply (NoClose_steady w); [apply steady_setSocketState; discriminate | exact Hn]).
    destruct (readyState (sockets w sock)); try discriminate;
      try (left; apply Hother; reflexivity);
      injection Hstep as <-; apply CloseInv_onHandshakeFailure; exact Hset.
  - assert (Hset : NoClose (setSocketState sock CLOSED w))
      by (apply (NoClose_steady w); [apply steady_setSocketState; discriminate | exact Hn]).
    destruct (readyState (sockets w sock)); try discriminate;
      injection Hstep as <-; apply CloseInv_onClose; exact Hset.
  - injection Hstep as <-. apply CloseInv_gracefulShutdown. exact Hn.
Qed.

Lemma CloseInv_run (events : list Event) (w w' : World) :
  CloseInv w -> run parseFloat w events = Some w' -> CloseInv w'.
Proof.
  revert w. induction events as [|e events IH]; intros w H Hrun.
  - injection Hrun as <-. exact H.
  - cbn [run] in Hrun. destruct (step parseFloat w e) as [w1|] eqn:Hstep; [|discriminate].
    exact (IH w1 (CloseInv_step w w1 e H Hstep) Hrun).
Qed.

Lemma CloseInv_reachable (w : World) : reachable parseFloat w -> CloseInv w.
Proof.
  intros (key & secret & events & Hrun).
  apply (CloseInv_run events (init key secret)); [|exact Hrun].
  left. intros n. reflexivity.
Qed.

Lemma run_app (events1 events2 : list Event) (w w1 : World) :
  run parseFloat w events1 = Some w1 ->
  run parseFloat w (events1 ++ events2) = run parseFloat w1 events2.
Proof.
  revert w. induction events1 as [|e events1 IH]; intros w Hrun.
  - injection Hrun as <-. reflexivity.
  - cbn [run app] in *. destruct (step parseFloat w e) as [w2|]; [|discriminate].
    apply IH. exact Hrun.
Qed.

Lemma reachable_run (events : list Event) (w w' : World) :
  reachable parseFloat w -> run parseFloat w events = Some w' -> reachable parseFloat w'.
Proof.
  intros (key & secret & events0 & Hrun0) Hrun.
  exists key, secret, (events0 ++ events). rewrite (run_app _ _ _ _ Hrun0). exact Hrun.
Qed.

End CloseResolved.

(** ** The acknowledgement of a credential failure *)





Section Reached.

Variable parseFloat : string -> float.






(** C6, as amended.  In every state the program reaches, a shutdown calls
    [close()], which leaves the table of pending requests empty; every
    request in the table at that call is pending, is rejected by [close()]
    with "Connection closed by user", and stays so in every state that
    follows; and in every state that follows in which a [close()] has
    resolved the table is empty. *)
Theorem C6_close_rejects_pending (w w' : World) (events : list Event) :
  reachable parseFloat w ->
  run parseFloat w (EvShutdown :: events) = Some w' ->
  pendingRequests (close w) = [] /\
  (forall k pr,
      In (k, pr) (pendingRequests w) ->
      promises w (PRequest (waiter pr)) = None /\
      promises (close w) (PRequest (waiter pr)) = Some (Rejected "Connection closed by user") /\
      promises w' (PRequest (waiter pr)) = Some (Rejected "Connection closed by user")) /\
  (forall n o, promises w' (PClose n) = Some o -> pendingRequests w' = []).
Proof.
  intros Hreach Hrun.
  pose proof (reachable_run parseFloat _ w w' Hreach Hrun) as Hreach'.
  pose proof (TableInv_reachable parseFloat w Hreach) as Htable.
  cbn [run] in Hrun. unfold step in Hrun. destruct (exited w); [discriminate|].
  split; [apply table_close|]. split.
  - intros k pr Hin. destruct (ti_waiters w Htable k pr Hin) as [_ Hp].
    split; [exact Hp|]. split; [exact (rejected_close w k pr Hin Hp)|].
    apply (Grows_run parseFloat events _ w' Hrun).
    exact (rejected_gracefulShutdown w k pr Hin Hp).
  - intros n o Hn. destruct (CloseInv_reachable parseFloat w' Hreach') as [Hno|[_ Ht]].
    + rewrite Hno in Hn. discriminate.
    + exact Ht.
Qed.

(** X1.  In every state the program reaches, the timeout of a ping that
    fires completes no request: the table of pending requests, the promises
    and the trace are as they were. *)
Theorem ping_timeout_never_acts
    (w w' : World) (h p : nat) (d : Q) (now now' : Z) :
  reachable parseFloat w ->
  timers w h = Some (TPingTimeout p, d) ->
  step parseFloat w (EvTimer h now now') = Some w' ->
  w' = clearTimer h w /\
  pendingRequests w' = pendingRequests w /\ promises w' = promises w /\ trace w' = trace w.
Proof.
  intros Hreach Ht Hstep.
  pose proof (TableInv_reachable parseFloat w Hreach) as Htable.
  unfold step in Hstep. destruct (exited w); [discriminate|].
  unfold fireTimer in Hstep. rewrite Ht in Hstep. cbn [is_interval] in Hstep.
  rewrite onPingTimeout_idle in Hstep
    by (apply (keeps_same w); [apply same_clearTimer | exact Htable]).
  injection Hstep as <-. repeat split.
Qed.

(** X2.  In every state the program reaches, the attempt counter is 0, 1 or
    10; while a reconnection is under way [scheduleReconnect] does
    nothing, so that a reconnection attempt that fails is not followed by
    another. *)
Theorem reconnect_attempted_once (w : World) :
  reachable parseFloat w ->
  (reconnectAttempts w = 0 \/ reconnectAttempts w = 1 \/ reconnectAttempts w = 10) /\
  (isReconnecting w = true -> reconnectAttempts w = 1 /\ scheduleReconnect w = w).
Proof.
  intros Hreach.
  destruct (ReconInv_reachable parseFloat w Hreach) as [[H1 H2]|[[H1 H2]|[H1 H2]]];
    (split; [auto|]); intros Hr; try congruence.
  split; [exact H2|]. rewrite scheduleReconnect_eq. unfold reconnect_blocked.
  rewrite H1. reflexivity.
Qed.

(** X3.  In every state the program reaches and has not exited from, only
    the newest socket, the one [ws] holds, can be in its handshake (older
    sockets may still be open or wait for their ['close']), and a reconnect
    timer is pending only while no socket is in its handshake; it is then
    the timer whose handle [reconnectInterval] holds. *)
Theorem one_handshake_at_a_time (w : World) :
  reachable parseFloat w -> exited w = None ->
  (forall s, readyState (sockets w s) = CONNECTING \/ readyState (sockets w s) = ABORTING ->
             ws w = Some s /\ nextSocket w = S s) /\
  (forall h d, timers w h = Some (TReconnect, d) ->
               reconnectInterval w = Some h /\
               forall s, readyState (sockets w s) <> CONNECTING /\
                         readyState (sockets w s) <> ABORTING).
Proof.
  intros Hreach Hex. destruct (Inv_reachable parseFloat w Hreach) as [H|H]; [congruence|].
  split.
  - intros s Hs. pose proof (newest_of w s H Hs) as Hn.
    destruct (si_ws w H) as (s0 & H1 & H2). rewrite H1, H2. split; [f_equal; lia | lia].
  - intros h d Ht. destruct (si_reconnect w H h d Ht) as (Hno & _ & Hh & _).
    split; [exact Hh|]. intros s. split; intros E; apply (Hno s); [left | right]; exact E.
Qed.

End Reached.




(** C10, as written, fails on both counts.  When a socket is connecting as
    the acknowledgement arrives, the status does not last: the socket opens
    and the counter is back at 0.  And the status queries do tell a
    credential failure from exhausted retries: after the call of
    [scheduleReconnect] that uses the tenth attempt, and after that attempt
    has failed, a reconnection is reported under way. *)
Lemma C10_counterexample :
  after parseFloatDecimal third_connecting
    [EvMessage 1 (Some ack_failure) 9500 9500; EvOpen 2 9600]
    (fun w => getReconnectStatus w = mkReconnectStatus 0 10 false) /\
  getReconnectStatus refused = mkReconnectStatus 10 10 false /\
  after parseFloatDecimal (scheduleReconnect nine_attempts)
    [EvTimer 2 60000 60000; EvTimer 3 70000 70000]
    (fun w => getReconnectStatus w = mkReconnectStatus 10 10 true /\
              getConnectionStatus w <> getConnectionStatus refused).
Proof.
  vm_compute. repeat split. discriminate.
Qed.


(** C2, as written, fails on the status: the session has used nine attempts
    and no reconnection is under way; [scheduleReconnect] brings the counter
    to 10 and sets the flag of reconnection, and [getReconnectStatus]
    reports a reconnection under way, also after the attempt it scheduled
    has failed. *)
Lemma C2_counterexample :
  getReconnectStatus nine_attempts = mkReconnectStatus 9 10 false /\
  getReconnectStatus (scheduleReconnect nine_attempts) = mkReconnectStatus 10 10 true /\
  after parseFloatDecimal (scheduleReconnect nine_attempts)
    [EvTimer 2 60000 60000; EvError 1 "refused"]
    (fun w => getReconnectStatus w = mkReconnectStatus 10 10 true /\
              armed w = armed (scheduleReconnect nine_attempts)).
Proof.
  vm_compute. repeat split.
Qed.

Lemma C6_close_rejects_pending_witness :
  pendingRequests (close pinging) = [] /\
  (forall k pr,
      In (k, pr) (pendingRequests pinging) ->
      promises pinging (PRequest (waiter pr)) = None /\
      promises (close pinging) (PRequest (waiter pr))
      = Some (Rejected "Connection closed by user") /\
      promises (from_run (run parseFloatDecimal pinging [EvShutdown; EvClose 0]))
        (PRequest (waiter pr))
      = Some (Rejected "Connection closed by user")) /\
  (forall n o,
      promises (from_run (run parseFloatDecimal pinging [EvShutdown; EvClose 0])) (PClose n)
      = Some o ->
      pendingRequests (from_run (run parseFloatDecimal pinging [EvShutdown; EvClose 0])) = []).
Proof.
  apply (C6_close_rejects_pending parseFloatDecimal pinging _ [EvClose 0]).
  - exists "key", "secret", [EvOpen 0 1000; EvTimer 1 4000 4000]. vm_compute. reflexivity.
  - vm_compute. reflexivity.
Defined.

(** C6, as written, fails in its last part: [close()] is called within the
    settle delay of the socket; the delay then passes, the first ping is
    registered under id 1 (the closing socket drops its frame), and a frame
    [{"id": 1, "result": "pong"}] that arrives before the socket has closed
    resolves that request. *)
Lemma C6_counterexample :
  after parseFloatDecimal (init "key" "secret")
    [EvOpen 0 1000; EvShutdown; EvTimer 1 4000 4000;
     EvMessage 0 (Some (JObj [("id", JNum 1); ("result", JStr "pong")])) 4050 4050]
    (fun w =>
       promises w (PClose 0) = None /\
       readyState (sockets w 0) = CLOSING /\
       promises w (PRequest 1)
       = Some (Fulfilled (JObj [("latency", JNum 50); ("timestamp", JNum 4050)])) /\
       hd_error (trace w)
       = Some (Resolve (PRequest 1) (JObj [("latency", JNum 50); ("timestamp", JNum 4050)]))).
Proof. vm_compute. repeat split. Qed.

Lemma ping_timeout_never_acts_witness :
  from_run (step parseFloatDecimal pinging (EvTimer 2 14000 14000)) = clearTimer 2 pinging /\
  pendingRequests (from_run (step parseFloatDecimal pinging (EvTimer 2 14000 14000)))
  = pendingRequests pinging /\
  promises (from_run (step parseFloatDecimal pinging (EvTimer 2 14000 14000)))
  = promises pinging /\
  trace (from_run (step parseFloatDecimal pinging (EvTimer 2 14000 14000))) = trace pinging.
Proof.
  apply (ping_timeout_never_acts parseFloatDecimal pinging _ 2%nat 0%nat 10000%Q 14000 14000).
  - exists "key", "secret", [EvOpen 0 1000; EvTimer 1 4000 4000]. vm_compute. reflexivity.
  - vm_compute. reflexivity.
  - vm_compute. reflexivity.
Defined.

Lemma reconnect_attempted_once_witness :
  (reconnectAttempts lost = 0 \/ reconnectAttempts lost = 1 \/ reconnectAttempts lost = 10) /\
  (isReconnecting lost = true -> reconnectAttempts lost = 1 /\ scheduleReconnect lost = lost).
Proof.
  apply (reconnect_attempted_once parseFloatDecimal lost).
  exists "key", "secret", [EvOpen 0 1000; EvTimer 1 4000 4000; EvClose 0].
  vm_compute. reflexivity.
Defined.

(** The socket closes, the reconnect timer fires after 1000 ms, and the
    handshake of the new socket fails: the session is left with the flag of
    reconnection set, the counter at 1, every socket closed and no
    reconnect timer. *)
Example failed_reconnect_is_not_retried :
  after parseFloatDecimal (init "key" "secret")
    [EvOpen 0 1000; EvTimer 1 4000 4000; EvClose 0; EvTimer 6 6000 6000;
     EvError 1 "refused"]
    (fun w =>
       getReconnectStatus w = mkReconnectStatus 1 10 true /\
       armed w = 1%nat /\
       exited w = None /\
       map (fun s => readyState (sockets w s)) (seq 0 (nextSocket w)) = [CLOSED; CLOSED] /\
       filter (fun h => match timers w h with
                        | Some (TReconnect, _) => true
                        | _ => false
                        end) (seq 0 (nextTimer w)) = []).
Proof. vm_compute. repeat split. Qed.

Lemma one_handshake_at_a_time_witness :
  readyState (sockets third_connecting 1) = OPEN /\
  (forall s, readyState (sockets third_connecting s) = CONNECTING \/
             readyState (sockets third_connecting s) = ABORTING ->
             ws third_connecting = Some s /\ nextSocket third_connecting = S s) /\
  (forall h d, timers third_connecting h = Some (TReconnect, d) ->
               reconnectInterval third_connecting = Some h /\
               forall s, readyState (sockets third_connecting s) <> CONNECTING /\
                         readyState (sockets third_connecting s) <> ABORTING).
Proof.
  split; [vm_compute; reflexivity|].
  apply (one_handshake_at_a_time parseFloatDecimal third_connecting).
  - exists "key", "secret",
      [EvOpen 0 1000; EvTimer 1 4000 4000; EvError 0 "reset"; EvTimer 6 6000 6000;
       EvOpen 1 7000; EvClose 0; EvTimer 9 9000 9000].
    vm_compute. reflexivity.
  - vm_compute. reflexivity.
Defined.

(** ** What a disconnection leaves *)

Lemma after_disconnection_refl (w : World) : after_disconnection w w.
Proof. unfold after_disconnection, Grows. repeat split; auto. Qed.

Lemma after_disconnection_trans (w1 w2 w3 : World) :
  after_disconnection w1 w2 -> after_disconnection w2 w3 -> after_disconnection w1 w3.
Proof.
  intros (A1 & A2 & A3 & A4 & A5 & A6 & A7 & A8) (B1 & B2 & B3 & B4 & B5 & B6 & B7 & B8).
  unfold after_disconnection, Grows. repeat split; try congruence.
  - intros h t d H Hi. apply A7; [apply B7|]; assumption.
  - intros p o H. apply B8, A8, H.
Qed.

Lemma after_rejectP (p : promise) (m : string) (w : World) :
  after_disconnection w (rejectP p m w).
Proof.
  rewrite rejectP_eq. unfold after_disconnection, Grows. gsimpl. repeat split; auto.
  intros q r H. apply settleFn_mono. exact H.
Qed.

Lemma after_scheduleReconnect (w : World) : after_disconnection w (scheduleReconnect w).
Proof.
  rewrite scheduleReconnect_eq. destruct (reconnect_blocked w);
    [apply after_disconnection_refl|].
  unfold after_disconnection, Grows, arm. gsimpl. repeat split; auto.
  intros h t d H Hi. timer_cases H; [injection H as <- <-; discriminate Hi | exact H].
Qed.

Lemma after_processExit (code : Z) (w : World) : after_disconnection w (processExit code w).
Proof. unfold after_disconnection, Grows. gsimpl. repeat split; auto. Qed.

Lemma after_resolveCloseListeners (sock : nat) (ls : list (nat * nat)) (w : World) :
  after_disconnection w (resolveCloseListeners sock ls w).
Proof.
  rewrite resolveCloseListeners_eq. unfold after_disconnection, Grows. gsimpl.
  repeat split; auto. intros q r H. apply settleAll_mono. exact H.
Qed.

Lemma after_afterConnectRejected (sock : nat) (w : World) :
  after_disconnection w (afterConnectRejected sock w).
Proof.
  unfold afterConnectRejected. destruct (viaReconnect (sockets w sock));
    [apply after_scheduleReconnect | apply after_processExit].
Qed.

Lemma disconnected_after (w w1 w2 : World) :
  disconnected_from w w1 -> after_disconnection w1 w2 -> disconnected_from w w2.
Proof.
  intros (D1 & D2 & D3 & D4 & D5 & D6 & D7) (A1 & A2 & A3 & A4 & A5 & A6 & A7 & A8).
  unfold disconnected_from. repeat split; try congruence.
  - intros h t d Hh Ht. destruct (is_interval t) eqn:Hi; [|reflexivity].
    rewrite <- Hi. exact (D6 h t d Hh (A7 h t d Ht Hi)).
  - intros k pr Hin. apply A8. exact (D7 k pr Hin).
Qed.

(** [handleDisconnection], called on the session [x] that the listener has
    made of [w] by then. *)
Lemma disconnected_handleDisconnection (w x : World) :
  TableInv w ->
  pendingRequests x = pendingRequests w ->
  promises x = promises w ->
  pingInterval x = pingInterval w ->
  balanceInterval x = balanceInterval w ->
  disconnected_from w (handleDisconnection x).
Proof.
  intros Ht Hp Hs Hpi Hbi. rewrite handleDisconnection_disconnected. unfold disconnected.
  assert (Hrej : forall k pr, In (k, pr) (pendingRequests w) ->
            settleAll (map (fun e => PRequest (waiter (snd e))) (pendingRequests x))
              (Rejected "Connection lost") (promises x) (PRequest (waiter pr))
            = Some (Rejected "Connection lost")).
  { intros k pr Hin. rewrite Hp, Hs. apply settleAll_hit.
    - apply in_map_iff. exists (k, pr). split; [reflexivity | exact Hin].
    - apply (ti_waiters w Ht k pr Hin). }
  destruct (reconnect_blocked x); unfold disconnected_from, arm; gsimpl;
    rewrite Hpi, Hbi; repeat split; try exact Hrej;
    intros h t d Hh H; timer_cases H; try (injection H as <- <-; reflexivity);
    destruct Hh as [Hh|Hh]; congruence.
Qed.

(** [handleDisconnection] called a second time, on a session that is
    disconnected already. *)
Lemma after_handleDisconnection_again (h : nat) (x : World) :
  isConnected x = false -> isAuthenticated x = false ->
  pingInterval x = None -> balanceInterval x = None -> pendingRequests x = [] ->
  after_disconnection x (handleDisconnection (clearTimer h x)).
Proof.
  intros H1 H2 H3 H4 H5. rewrite handleDisconnection_disconnected.
  destruct (reconnect_blocked _); unfold after_disconnection, Grows, disconnected, arm;
    gsimpl; rewrite H1, H2, H3, H4, H5; cbn [clearOpt map rev app settleAll fold_left];
    repeat split; auto;
    intros h' t d H Hi; timer_cases H; try exact H;
    injection H as <- <-; discriminate Hi.
Qed.

Lemma disconnected_again (h : nat) (w x : World) :
  disconnected_from w x -> disconnected_from w (handleDisconnection (clearTimer h x)).
Proof.
  intros Hd. apply (disconnected_after w x); [exact Hd|].
  destruct Hd as (D1 & D2 & D3 & D4 & D5 & _).
  apply after_handleDisconnection_again; assumption.
Qed.

Section Disconnection.

Variable parseFloat : string -> float.

(** X4.  In every state the program reaches, the ['close'] or the ['error']
    of a socket leaves the session disconnected: [isConnected] and
    [isAuthenticated] are false, the ping and balance intervals are
    cleared, the table of pending requests is empty, and every request that
    was in the table has been rejected with "Connection lost". *)
Theorem disconnection_clears_session (w w' : World) (e : Event) :
  reachable parseFloat w ->
  (exists sock, e = EvClose sock) \/ (exists sock message, e = EvError sock message) ->
  step parseFloat w e = Some w' ->
  disconnected_from w w'.
Proof.
  intros Hreach He Hstep. pose proof (TableInv_reachable parseFloat w Hreach) as Ht.
  unfold step in Hstep. destruct (exited w); [discriminate|].
  destruct He as [[sock ->]|[sock [message ->]]].
  - assert (Hw' : w' = onClose sock (setSocketState sock CLOSED w))
      by (destruct (readyState (sockets w sock)); congruence).
    subst w'. unfold onClose. cbv zeta.
    assert (Hd : disconnected_from w
                   (handleDisconnection
                      (clearTimer (connectionTimeout (sockets (setSocketState sock CLOSED w) sock))
                         (setSocketState sock CLOSED w))))
      by (apply disconnected_handleDisconnection; [exact Ht | reflexivity..]).
    pose proof (disconnected_after _ _ _ Hd (after_resolveCloseListeners sock
                  (closeListeners
                     (handleDisconnection
                        (clearTimer
                           (connectionTimeout (sockets (setSocketState sock CLOSED w) sock))
                           (setSocketState sock CLOSED w)))) _)) as Hl.
    destruct (existsb _ _); [|exact Hl].
    exact (disconnected_after _ _ _ Hl (after_processExit 0 _)).
  - assert (Hw' : w' = onError sock message (setSocketState sock ERRORED w) \/
                   w' = onHandshakeFailure sock message (setSocketState sock CLOSED w))
      by (destruct (readyState (sockets w sock)); try discriminate;
          injection Hstep as <-; auto).
    destruct Hw' as [-> | ->].
    + unfold onError, rejectConnect.
      assert (Hd : disconnected_from w
                     (handleDisconnection
                        (clearTimer
                           (connectionTimeout (sockets (setSocketState sock ERRORED w) sock))
                           (setSocketState sock ERRORED w))))
        by (apply disconnected_handleDisconnection; [exact Ht | reflexivity..]).
      pose proof (disconnected_after _ _ _ Hd (after_rejectP (PConnect sock) message _)) as Hr.
      destruct (promises _ _); [exact Hr|].
      exact (disconnected_after _ _ _ Hr (after_afterConnectRejected sock _)).
    + unfold onHandshakeFailure, rejectConnect.
      assert (Hd : disconnected_from w
                     (handleDisconnection
                        (clearTimer
                           (connectionTimeout (sockets (setSocketState sock CLOSED w) sock))
                           (setSocketState sock CLOSED w))))
        by (apply disconnected_handleDisconnection; [exact Ht | reflexivity..]).
      revert Hd.
      generalize (handleDisconnection
                    (clearTimer
                       (connectionTimeout (sockets (setSocketState sock CLOSED w) sock))
                       (setSocketState sock CLOSED w))).
      intros w1 Hd. cbv zeta. cbn [fst snd].
      pose proof (disconnected_after _ _ _ Hd (after_rejectP (PConnect sock) message w1)) as Hr.
      revert Hr. generalize (rejectP (PConnect sock) message w1). intros w2 Hr.
      pose proof (disconnected_again (connectionTimeout (sockets w2 sock)) w w2 Hr) as Ha.
      revert Ha.
      generalize (handleDisconnection (clearTimer (connectionTimeout (sockets w2 sock)) w2)).
      intros w3 Ha.
      pose proof (disconnected_after _ _ _ Ha
                    (after_resolveCloseListeners sock (closeListeners w3) w3)) as Hl.
      destruct (existsb _ _);
        [exact (disconnected_after _ _ _ Hl (after_processExit 0 _))|].
      destruct (promises w1 (PConnect sock)); [exact Hl|].
      exact (disconnected_after _ _ _ Hl (after_afterConnectRejected sock _)).
Qed.

End Disconnection.

(** ** What a disconnection schedules *)

Lemma same_reconnection_trans (w1 w2 w3 : World) :
  same_reconnection w1 w2 -> same_reconnection w2 w3 -> same_reconnection w1 w3.
Proof.
  intros (A1 & A2 & A3 & A4 & A5) (B1 & B2 & B3 & B4 & B5).
  unfold same_reconnection. repeat split; congruence.
Qed.

Lemma same_reconnection_rejectP (p : promise) (m : string) (w : World) :
  same_reconnection w (rejectP p m w).
Proof. rewrite rejectP_eq. unfold same_reconnection, armed. gsimpl. repeat split. Qed.

Lemma same_reconnection_processExit (code : Z) (w : World) :
  same_reconnection w (processExit code w).
Proof. unfold same_reconnection, armed. gsimpl. repeat split. Qed.

Lemma same_reconnection_resolveCloseListeners (sock : nat) (ls : list (nat * nat))
    (w : World) :
  same_reconnection w (resolveCloseListeners sock ls w).
Proof.
  rewrite resolveCloseListeners_eq. unfold same_reconnection, armed. gsimpl.
  rewrite filter_app, quiet_rev_map by reflexivity. repeat split.
Qed.

Lemma same_reconnection_blocked (w : World) :
  isReconnecting w = true -> same_reconnection w (scheduleReconnect w).
Proof.
  intros H. rewrite scheduleReconnect_eq. unfold reconnect_blocked. rewrite H.
  unfold same_reconnection. repeat split.
Qed.

Lemma same_reconnection_afterConnectRejected (sock : nat) (w : World) :
  isReconnecting w = true -> same_reconnection w (afterConnectRejected sock w).
Proof.
  intros H. unfold afterConnectRejected. destruct (viaReconnect (sockets w sock));
    [apply same_reconnection_blocked; exact H | apply same_reconnection_processExit].
Qed.

(** The state of the reconnection machinery once a first reconnect has been
    scheduled from the session [w]. *)
Lemma scheduled_same (w w1 w2 : World) :
  reconnectInterval w1 = Some (nextTimer w) /\
  timers w1 (nextTimer w) = Some (TReconnect, 1000 # 1) /\
  isReconnecting w1 = true /\ reconnectAttempts w1 = 1 /\ armed w1 = S (armed w) ->
  same_reconnection w1 w2 ->
  reconnectInterval w2 = Some (nextTimer w) /\
  timers w2 (nextTimer w) = Some (TReconnect, 1000 # 1) /\
  isReconnecting w2 = true /\ reconnectAttempts w2 = 1 /\ armed w2 = S (armed w).
Proof.
  intros (H1 & H2 & H3 & H4 & H5) (A1 & A2 & A3 & A4 & A5).
  rewrite A1, A2, A3, A4, A5. repeat split; assumption.
Qed.

(** [handleDisconnection] with reconnection idle: the first reconnect is
    scheduled, in 1000 ms. *)
Lemma handleDisconnection_schedules (w x : World) :
  isReconnecting x = false -> reconnectAttempts x = 0 ->
  nextTimer x = nextTimer w -> armed x = armed w ->
  reconnectInterval (handleDisconnection x) = Some (nextTimer w) /\
  timers (handleDisconnection x) (nextTimer w) = Some (TReconnect, 1000 # 1) /\
  isReconnecting (handleDisconnection x) = true /\
  reconnectAttempts (handleDisconnection x) = 1 /\
  armed (handleDisconnection x) = S (armed w).
Proof.
  intros Hr Ha Hn Harm. rewrite handleDisconnection_disconnected. unfold disconnected.
  unfold reconnect_blocked. rewrite Hr, Ha. cbn [orb Z.leb Z.compare maxReconnectAttempts].
  unfold arm, armed in *. gsimpl. rewrite Hn, Ha.
  cbn [filter arms_reconnect length].
  rewrite filter_app, quiet_rev_map by reflexivity. cbn [app].
  unfold fupd. rewrite Nat.eqb_refl. rewrite <- Harm. repeat split.
Qed.

(** [handleDisconnection] called a second time, once a reconnect has been
    scheduled: the timer stays. *)
Lemma scheduled_again (h : nat) (w x : World) :
  h <> nextTimer w ->
  pingInterval x = None -> balanceInterval x = None ->
  reconnectInterval x = Some (nextTimer w) /\
  timers x (nextTimer w) = Some (TReconnect, 1000 # 1) /\
  isReconnecting x = true /\ reconnectAttempts x = 1 /\ armed x = S (armed w) ->
  reconnectInterval (handleDisconnection (clearTimer h x)) = Some (nextTimer w) /\
  timers (handleDisconnection (clearTimer h x)) (nextTimer w) = Some (TReconnect, 1000 # 1) /\
  isReconnecting (handleDisconnection (clearTimer h x)) = true /\
  reconnectAttempts (handleDisconnection (clearTimer h x)) = 1 /\
  armed (handleDisconnection (clearTimer h x)) = S (armed w).
Proof.
  intros Hne Hpi Hbi (H1 & H2 & H3 & H4 & H5).
  rewrite handleDisconnection_blocked
    by (unfold reconnect_blocked; gsimpl; rewrite H3; reflexivity).
  unfold disconnected, armed in *. gsimpl. rewrite Hpi, Hbi. cbn [clearOpt].
  rewrite filter_app, quiet_rev_map by reflexivity. cbn [app].
  unfold fupd. rewrite (proj2 (Nat.eqb_neq (nextTimer w) h)) by congruence.
  repeat split; assumption.
Qed.

Lemma intervals_handleDisconnection (w : World) :
  pingInterval (handleDisconnection w) = None /\
  balanceInterval (handleDisconnection w) = None.
Proof.
  rewrite handleDisconnection_disconnected. destruct (reconnect_blocked w); split; reflexivity.
Qed.

Section Reconnection.

Variable parseFloat : string -> float.

(** X5.  In every state the program reaches in which no reconnection is
    under way and reconnection has not been stopped, the ['close'] or the
    ['error'] of a socket schedules the first reconnect: a timer of 1000 ms
    is armed and stored in [reconnectInterval], and [getReconnectStatus]
    reports attempt 1 of 10, reconnecting. *)
Theorem disconnection_schedules_reconnect (w w' : World) (e : Event) :
  reachable parseFloat w ->
  isReconnecting w = false ->
  reconnectAttempts w <> maxReconnectAttempts ->
  (exists sock, e = EvClose sock) \/ (exists sock message, e = EvError sock message) ->
  step parseFloat w e = Some w' ->
  reconnectInterval w' = Some (nextTimer w) /\
  timers w' (nextTimer w) = Some (TReconnect, 1000 # 1) /\
  getReconnectStatus w' = mkReconnectStatus 1 10 true /\
  armed w' = S (armed w).
Proof.
  intros Hreach Hr Hmax He Hstep.
  assert (Hinv : SocketInv w).
  { destruct (Inv_reachable parseFloat w Hreach) as [Hx|Hx]; [|exact Hx].
    unfold step in Hstep. destruct (exited w); [discriminate | congruence]. }
  assert (Ha : reconnectAttempts w = 0).
  { destruct (ReconInv_reachable parseFloat w Hreach) as [[H1 H2]|[[H1 H2]|[H1 H2]]];
      congruence. }
  assert (Hgoal : reconnectInterval w' = Some (nextTimer w) /\
                  timers w' (nextTimer w) = Some (TReconnect, 1000 # 1) /\
                  isReconnecting w' = true /\ reconnectAttempts w' = 1 /\
                  armed w' = S (armed w)).
  { unfold step in Hstep. destruct (exited w); [discriminate|].
    destruct He as [[sock ->]|[sock [message ->]]].
    - assert (Hw' : w' = onClose sock (setSocketState sock CLOSED w))
        by (destruct (readyState (sockets w sock)); congruence).
      subst w'. unfold onClose. cbv zeta.
      pose proof (handleDisconnection_schedules w
                    (clearTimer (connectionTimeout (sockets (setSocketState sock CLOSED w) sock))
                       (setSocketState sock CLOSED w)) Hr Ha eq_refl eq_refl) as Hd.
      pose proof (scheduled_same w _ _ Hd
                    (same_reconnection_resolveCloseListeners sock
                       (closeListeners
                          (handleDisconnection
                             (clearTimer
                                (connectionTimeout (sockets (setSocketState sock CLOSED w) sock))
                                (setSocketState sock CLOSED w)))) _)) as Hl.
      destruct (existsb _ _); [|exact Hl].
      exact (scheduled_same w _ _ Hl (same_reconnection_processExit 0 _)).
    - assert (Hw' : w' = onError sock message (setSocketState sock ERRORED w) \/
                     w' = onHandshakeFailure sock message (setSocketState sock CLOSED w))
        by (destruct (readyState (sockets w sock)); try discriminate;
            injection Hstep as <-; auto).
      destruct Hw' as [-> | ->].
      + unfold onError, rejectConnect.
        pose proof (handleDisconnection_schedules w
                      (clearTimer
                         (connectionTimeout (sockets (setSocketState sock ERRORED w) sock))
                         (setSocketState sock ERRORED w)) Hr Ha eq_refl eq_refl) as Hd.
        pose proof (scheduled_same w _ _ Hd
                      (same_reconnection_rejectP (PConnect sock) message _)) as Hj.
        destruct (promises _ _); [exact Hj|].
        apply (scheduled_same w _ _ Hj). apply same_reconnection_afterConnectRejected.
        apply Hj.
      + unfold onHandshakeFailure, rejectConnect.
        pose proof (handleDisconnection_schedules w
                      (clearTimer
                         (connectionTimeout (sockets (setSocketState sock CLOSED w) sock))
                         (setSocketState sock CLOSED w)) Hr Ha eq_refl eq_refl) as Hd.
        pose proof (intervals_handleDisconnection
                      (clearTimer
                         (connectionTimeout (sockets (setSocketState sock CLOSED w) sock))
                         (setSocketState sock CLOSED w))) as [Hpi Hbi].
        pose proof (sockets_handleDisconnection
                      (clearTimer
                         (connectionTimeout (sockets (setSocketState sock CLOSED w) sock))
                         (setSocketState sock CLOSED w))) as Hsk.
        revert Hd Hpi Hbi Hsk.
        generalize (handleDisconnection
                      (clearTimer
                         (connectionTimeout (sockets (setSocketState sock CLOSED w) sock))
                         (setSocketState sock CLOSED w))).
        intros w1 Hd Hpi Hbi Hsk. cbv zeta. cbn [fst snd].
        pose proof (scheduled_same w _ _ Hd
                      (same_reconnection_rejectP (PConnect sock) message w1)) as Hj.
        assert (Hpi2 : pingInterval (rejectP (PConnect sock) message w1) = None)
          by (rewrite rejectP_eq; exact Hpi).
        assert (Hbi2 : balanceInterval (rejectP (PConnect sock) message w1) = None)
          by (rewrite rejectP_eq; exact Hbi).
        assert (Hh : connectionTimeout (sockets (rejectP (PConnect sock) message w1) sock)
                     <> nextTimer w).
        { rewrite sockets_rejectP, Hsk. gsimpl. unfold fupd. rewrite Nat.eqb_refl. gsimpl.
          pose proof (si_handles w Hinv sock). lia. }
        revert Hj Hpi2 Hbi2 Hh. generalize (rejectP (PConnect sock) message w1).
        intros w2 Hj Hpi2 Hbi2 Hh.
        pose proof (scheduled_again _ w w2 Hh Hpi2 Hbi2 Hj) as Hk. revert Hk.
        generalize (handleDisconnection (clearTimer (connectionTimeout (sockets w2 sock)) w2)).
        intros w3 Hk.
        pose proof (scheduled_same w _ _ Hk
                      (same_reconnection_resolveCloseListeners sock (closeListeners w3) w3))
          as Hl.
        destruct (existsb _ _);
          [exact (scheduled_same w _ _ Hl (same_reconnection_processExit 0 _))|].
        destruct (promises w1 (PConnect sock)); [exact Hl|].
        apply (scheduled_same w _ _ Hl). apply same_reconnection_afterConnectRejected.
        apply Hl. }
  destruct Hgoal as (G1 & G2 & G3 & G4 & G5). unfold getReconnectStatus.
  rewrite G3, G4. repeat split; assumption.
Qed.

End Reconnection.

(** ** The connection timeout *)

Section ConnectionTimeout.

Variable parseFloat : string -> float.

(** X6.  In every state the program reaches, when the connection timeout of
    a socket fires the socket is left as it was, still in its handshake: the
    timeout rejects the pending [connect()] with "Connection timeout", and
    then either the process exits with code 1 (the first connection) or no
    reconnect timer is armed and the reconnection state is unchanged, so
    that nothing is scheduled to replace the socket. *)
Theorem connection_timeout_leaves_socket
    (w w' : World) (h sock : nat) (d : Q) (now now' : Z) :
  reachable parseFloat w ->
  timers w h = Some (TConnectionTimeout sock, d) ->
  step parseFloat w (EvTimer h now now') = Some w' ->
  sockets w' = sockets w /\
  (readyState (sockets w' sock) = CONNECTING \/ readyState (sockets w' sock) = ABORTING) /\
  (promises w (PConnect sock) = None ->
   promises w' (PConnect sock) = Some (Rejected "Connection timeout")) /\
  (exited w' = Some 1 \/
   (exited w' = None /\ armed w' = armed w /\
    getReconnectStatus w' = getReconnectStatus w /\
    forall h' t d', timers w' h' = Some (t, d') -> timers w h' = Some (t, d'))).
Proof.
  intros Hreach Ht Hstep. unfold step in Hstep.
  destruct (exited w) eqn:Hex; [discriminate|].
  destruct (Inv_reachable parseFloat w Hreach) as [Hinv|Hinv]; [congruence|].
  destruct (si_timeout w Hinv h sock d Ht) as (_ & Hhand).
  pose proof (si_handshake w Hinv sock Hhand) as Hcase.
  unfold fireTimer in Hstep. rewrite Ht in Hstep. cbn [is_interval] in Hstep.
  injection Hstep as <-.
  unfold onConnectionTimeout, rejectConnect.
  change (promises (clearTimer h w) (PConnect sock)) with (promises w (PConnect sock)).
  assert (Hrej : forall w1, w1 = rejectP (PConnect sock) "Connection timeout" (clearTimer h w) ->
            sockets w1 = sockets w /\ exited w1 = None /\ armed w1 = armed w /\
            getReconnectStatus w1 = getReconnectStatus w /\
            reconnect_blocked w1 = reconnect_blocked w /\
            (promises w (PConnect sock) = None ->
             promises w1 (PConnect sock) = Some (Rejected "Connection timeout")) /\
            (forall h' t d', timers w1 h' = Some (t, d') -> timers w h' = Some (t, d'))).
  { intros w1 ->. rewrite rejectP_eq. unfold armed, getReconnectStatus, reconnect_blocked.
    gsimpl. repeat split; try assumption.
    - intros Hp. apply settleFn_hit. exact Hp.
    - intros h' t d' H. timer_cases H. exact H. }
  specialize (Hrej _ eq_refl).
  remember (rejectP (PConnect sock) "Connection timeout" (clearTimer h w)) as w1 eqn:Ew1.
  destruct Hrej as (R1 & R2 & R3 & R4 & R5 & R6 & R7).
  assert (Hexit : forall x, sockets x = sockets w1 -> Grows w1 x ->
            sockets (processExit 1 x) = sockets w /\
            (readyState (sockets (processExit 1 x) sock) = CONNECTING \/
             readyState (sockets (processExit 1 x) sock) = ABORTING) /\
            (promises w (PConnect sock) = None ->
             promises (processExit 1 x) (PConnect sock)
             = Some (Rejected "Connection timeout")) /\
            (exited (processExit 1 x) = Some 1 \/
             (exited (processExit 1 x) = None /\ armed (processExit 1 x) = armed w /\
              getReconnectStatus (processExit 1 x) = getReconnectStatus w /\
              forall h' t d', timers (processExit 1 x) h' = Some (t, d') ->
                              timers w h' = Some (t, d')))).
  { intros x Hs Hg. gsimpl. rewrite Hs, R1. repeat split; try exact Hhand.
    - intros Hp. apply Hg, R6, Hp.
    - left. reflexivity. }
  assert (Hstay : sockets w1 = sockets w /\
            (readyState (sockets w1 sock) = CONNECTING \/
             readyState (sockets w1 sock) = ABORTING) /\
            (promises w (PConnect sock) = None ->
             promises w1 (PConnect sock) = Some (Rejected "Connection timeout")) /\
            (exited w1 = Some 1 \/
             (exited w1 = None /\ armed w1 = armed w /\
              getReconnectStatus w1 = getReconnectStatus w /\
              forall h' t d', timers w1 h' = Some (t, d') -> timers w h' = Some (t, d')))).
  { rewrite R1. repeat split; try exact Hhand; try exact R6. right. repeat split; assumption. }
  cbn [fst snd]. rewrite scheduleReconnect_eq.
  destruct (reconnect_blocked w1) eqn:Hblk.
  - destruct (promises w (PConnect sock)); [exact Hstay|].
    unfold afterConnectRejected. rewrite scheduleReconnect_eq, Hblk.
    destruct (viaReconnect (sockets w1 sock)); [exact Hstay|].
    apply Hexit; [reflexivity | intros p o Hp; exact Hp].
  - assert (Hb : reconnect_blocked w = false) by congruence.
    unfold reconnect_blocked in Hb. destruct Hcase as [C|[C|(C1 & C2 & _)]].
    + rewrite C in Hb. discriminate Hb.
    + rewrite C in Hb. destruct (isReconnecting w); discriminate Hb.
    + rewrite C2. unfold afterConnectRejected.
      assert (Hv : viaReconnect (sockets (arm w1) sock) = false)
        by (unfold arm; gsimpl; rewrite R1; exact C1).
      rewrite Hv.
      assert (G1 : sockets (arm w1) = sockets w1) by (unfold arm; gsimpl; reflexivity).
      assert (G2 : Grows w1 (arm w1)) by (intros p o Hp; unfold arm; gsimpl; exact Hp).
      pose proof (Hexit (arm w1) G1 G2) as G. rewrite C2 in G. exact G.
Qed.

End ConnectionTimeout.

(** ** How the process ends *)

Lemma listeners_handleDisconnection (w : World) :
  closeListeners (handleDisconnection w) = closeListeners w.
Proof.
  rewrite handleDisconnection_disconnected. destruct (reconnect_blocked w); reflexivity.
Qed.

Lemma exited_handleDisconnection (w : World) : exited (handleDisconnection w) = exited w.
Proof.
  rewrite handleDisconnection_disconnected. destruct (reconnect_blocked w); reflexivity.
Qed.



Lemma In_listeners_of (sock p : nat) (ls : list (nat * nat)) :
  In (sock, p) ls -> In (PClose p) (listeners_of sock ls).
Proof.
  intros H. unfold listeners_of. apply in_map_iff. exists (sock, p).
  split; [reflexivity|]. apply filter_In. split; [exact H|]. apply Nat.eqb_refl.
Qed.

Lemma existsb_listener (sock p : nat) (ls : list (nat * nat)) :
  In (sock, p) ls -> existsb (fun l => Nat.eqb (fst l) sock) ls = true.
Proof.
  intros H. apply existsb_exists. exists (sock, p). split; [exact H | apply Nat.eqb_refl].
Qed.

Lemma existsb_no_listener (sock : nat) (ls : list (nat * nat)) :
  (forall p, ~ In (sock, p) ls) -> existsb (fun l => Nat.eqb (fst l) sock) ls = false.
Proof.
  intros H. destruct (existsb _ ls) eqn:E; [|reflexivity].
  apply existsb_exists in E. destruct E as [[s p] [Hin Hs]]. cbn [fst] in Hs.
  apply Nat.eqb_eq in Hs. subst s. destruct (H p Hin).
Qed.

(** The listeners of [close()] on a closed socket, and [gracefulShutdown]
    behind them. *)
Lemma closed_exit (sock : nat) (ls : list (nat * nat)) (y : World) :
  NoClose y -> closeListeners y = ls ->
  (forall p, In (sock, p) ls ->
     promises (let w1 := resolveCloseListeners sock (closeListeners y) y in
               if existsb (fun l => Nat.eqb (fst l) sock) (closeListeners w1)
               then processExit 0 w1 else w1) (PClose p) = Some (Fulfilled JUndefined) /\
     exited (let w1 := resolveCloseListeners sock (closeListeners y) y in
             if existsb (fun l => Nat.eqb (fst l) sock) (closeListeners w1)
             then processExit 0 w1 else w1) = Some 0) /\
  ((forall p, ~ In (sock, p) ls) ->
   exited (let w1 := resolveCloseListeners sock (closeListeners y) y in
           if existsb (fun l => Nat.eqb (fst l) sock) (closeListeners w1)
           then processExit 0 w1 else w1) = exited y).
Proof.
  intros Hn <-. cbv zeta. rewrite listeners_resolveCloseListeners. split.
  - intros p Hin. rewrite (existsb_listener sock p _ Hin).
    rewrite resolveCloseListeners_eq. gsimpl. split; [|reflexivity].
    apply settleAll_hit; [apply In_listeners_of; exact Hin | apply Hn].
  - intros Hno. rewrite (existsb_no_listener sock _ Hno).
    rewrite resolveCloseListeners_eq. reflexivity.
Qed.



Section ProcessExit.

Variable parseFloat : string -> float.

(** X7.  In every state the program reaches, the ['close'] of a socket on
    which [close()] is waiting resolves the promise of that [close()] and
    the process exits with code 0; the ['close'] of a socket on which no
    [close()] is waiting does not end the process. *)
Theorem socket_close_completes_shutdown (w w' : World) (sock : nat) :
  reachable parseFloat w ->
  step parseFloat w (EvClose sock) = Some w' ->
  (forall p, In (sock, p) (closeListeners w) ->
             promises w' (PClose p) = Some (Fulfilled JUndefined) /\ exited w' = Some 0) /\
  ((forall p, ~ In (sock, p) (closeListeners w)) -> exited w' = None).
Proof.
  intros Hreach Hstep. unfold step in Hstep.
  destruct (exited w) eqn:Hex; [discriminate|].
  assert (Hn : NoClose w)
    by (destruct (CloseInv_reachable parseFloat w Hreach) as [H|[H _]];
        [exact H | congruence]).
  assert (Hw' : w' = onClose sock (setSocketState sock CLOSED w))
    by (destruct (readyState (sockets w sock)); congruence).
  subst w'. unfold onClose.
  assert (Hset : NoClose (setSocketState sock CLOSED w))
    by (apply (NoClose_steady w); [apply steady_setSocketState; discriminate | exact Hn]).
  pose proof (kept_disconnected NoClose NoClose_steady NoClose_arm sock _ Hset) as Hd.
  destruct (closed_exit sock (closeListeners w) _ Hd
              (listeners_handleDisconnection _)) as [H1 H2].
  split; [exact H1|].
  intros Hno. refine (eq_trans (H2 Hno) _). rewrite exited_handleDisconnection. exact Hex.
Qed.


End ProcessExit.

(** ** A shutdown between two connections *)

Lemma Unplugged_frame (p : nat) (w w' : World) :
  socket_frame w w' -> Unplugged p w -> Unplugged p w'.
Proof.
  intros (F1 & F2 & F3 & F4 & F5 & F6 & F7 & F8 & F9 & F10 & F11 & F12 & _)
         (U1 & [U2 U3] & U4 & U5 & U6).
  unfold Unplugged, Capped. rewrite F1, F2, F4, F6, F9, F12. repeat split; assumption.
Qed.

Lemma Unplugged_resolve_connect (p sock : nat) (v : jsval) (w : World) :
  Unplugged p w -> Unplugged p (resolveP (PConnect sock) v w).
Proof.
  intros (U1 & U2 & U3 & U4 & U5). rewrite resolveP_eq. unfold Unplugged, Capped in *. gsimpl.
  repeat split; try tauto. rewrite settleFn_other by reflexivity. exact U5.
Qed.

Lemma Unplugged_stopReconnection (p : nat) (w : World) :
  Unplugged p w -> Unplugged p (stopReconnection w).
Proof.
  intros (U1 & U2 & U3 & U4 & U5). rewrite stopReconnection_eq.
  unfold Unplugged, Capped in *. gsimpl. repeat split; try tauto.
Qed.

Lemma close_on_closed_socket (sock : nat) (w : World) :
  ws w = Some sock -> readyState (sockets w sock) = CLOSED ->
  close w =
  set_closeListeners (closeListeners w ++ [(sock, nextPromise w)])
    (snd (newPromise (rejectAllPendingRequests "Connection closed by user"
                        (stopReconnection (stopIntervals w))))).
Proof.
  intros Hws Hst. unfold close.
  rewrite rejectAllPendingRequests_eq, stopReconnection_eq, stopIntervals_eq.
  unfold newPromise, wsClose. gsimpl. rewrite Hws. gsimpl. rewrite Hst. reflexivity.
Qed.

Lemma Unplugged_close (p sock : nat) (w : World) :
  ws w = Some sock -> Unplugged p w -> Unplugged p (close w).
Proof.
  intros Hws H. rewrite (close_on_closed_socket sock w Hws) by apply H.
  assert (H1 : Unplugged p (rejectAllPendingRequests "Connection closed by user"
                              (stopReconnection (stopIntervals w)))).
  { apply (Unplugged_frame p _ _ (frame_rejectAllPendingRequests _ _)).
    apply Unplugged_stopReconnection.
    exact (Unplugged_frame p _ _ (frame_stopIntervals w) H). }
  destruct H1 as (U1 & U2 & U3 & U4 & U5).
  unfold Unplugged, Capped, newPromise in *. gsimpl. repeat split; try tauto.
Qed.

Section ShutdownBetween.

Variable parseFloat : string -> float.

Lemma Unplugged_step (p : nat) (w w' : World) (e : Event) :
  SocketInv w -> Unplugged p w -> step parseFloat w e = Some w' -> Unplugged p w'.
Proof.
  intros Hinv H Hstep. pose proof H as (U1 & U2 & U3 & U4 & U5).
  unfold step in Hstep. rewrite U3 in Hstep.
  destruct e as [sock now|sock data now now'|sock message|sock|h now now'|];
    try (rewrite U1 in Hstep; discriminate).
  - unfold fireTimer in Hstep. destruct (timers w h) as [[t d]|] eqn:Ht; [|discriminate].
    pose proof (Unplugged_frame p _ _ (frame_clearTimer h w) H) as Hclr.
    destruct t; cbn [is_interval] in Hstep.
    + destruct (si_timeout w Hinv h sock d Ht) as (_ & [Hs|Hs]);
        rewrite U1 in Hs; discriminate.
    + injection Hstep as <-. unfold onSettled. apply Unplugged_resolve_connect.
      apply (Unplugged_frame p _ _ (frame_startBalanceInterval _)).
      exact (Unplugged_frame p _ _ (frame_startPingInterval now _) Hclr).
    + destruct (si_reconnect w Hinv h d Ht) as (_ & Hr & _).
      destruct U2 as [U2 _]. congruence.
    + injection Hstep as <-. exact (Unplugged_frame p _ _ (frame_onPingInterval now w) H).
    + injection Hstep as <-.
      exact (Unplugged_frame p _ _ (frame_subscribeToBalances now _) Hclr).
    + injection Hstep as <-.
      exact (Unplugged_frame p _ _ (frame_onBalanceInterval now now' w) H).
    + injection Hstep as <-. exact (Unplugged_frame p _ _ (frame_onPingTimeout p0 _) Hclr).
  - injection Hstep as <-. unfold gracefulShutdown.
    destruct (ws w) as [sock|] eqn:Hws; [|congruence].
    exact (Unplugged_close p sock w Hws H).
Qed.

Lemma Unplugged_run (p : nat) (events : list Event) (w w' : World) :
  reachable parseFloat w -> Unplugged p w -> run parseFloat w events = Some w' ->
  Unplugged p w'.
Proof.
  revert w. induction events as [|e events IH]; intros w Hreach H Hrun.
  - injection Hrun as <-. exact H.
  - cbn [run] in Hrun. destruct (step parseFloat w e) as [w1|] eqn:Hstep; [|discriminate].
    assert (Hinv : SocketInv w).
    { destruct (Inv_reachable parseFloat w Hreach) as [Hx|Hx]; [|exact Hx].
      destruct H as (_ & _ & U3 & _). congruence. }
    apply (IH w1); [|exact (Unplugged_step p w w1 e Hinv H Hstep) | exact Hrun].
    apply (reachable_run parseFloat [e] w w1 Hreach). cbn [run]. rewrite Hstep. reflexivity.
Qed.

(** X9.  In every state the program reaches and has not exited from, once
    every socket has closed a shutdown never completes: [close()] waits for
    the ['close'] of a socket that has closed already, so that whatever
    happens next its promise stays pending, [process.exit] is not called and
    no socket is opened. *)
Theorem shutdown_after_close_never_completes
    (w w' : World) (sock : nat) (events : list Event) :
  reachable parseFloat w -> exited w = None ->
  ws w = Some sock ->
  (forall s, readyState (sockets w s) = CLOSED) ->
  run parseFloat w (EvShutdown :: events) = Some w' ->
  closeListeners (gracefulShutdown w) = closeListeners w ++ [(sock, nextPromise w)] /\
  promises w' (PClose (nextPromise w)) = None /\
  exited w' = None /\
  (forall s, readyState (sockets w' s) = CLOSED).
Proof.
  intros Hreach Hex Hws Hclosed Hrun.
  assert (Hn : NoClose w)
    by (destruct (CloseInv_reachable parseFloat w Hreach) as [H|[H _]];
        [exact H | congruence]).
  assert (Hinv : SocketInv w)
    by (destruct (Inv_reachable parseFloat w Hreach) as [H|H]; [congruence | exact H]).
  assert (Hg : gracefulShutdown w = close w) by (unfold gracefulShutdown; rewrite Hws; reflexivity).
  assert (Hstep : step parseFloat w EvShutdown = Some (close w))
    by (unfold step; rewrite Hex, Hg; reflexivity).
  cbn [run] in Hrun. rewrite Hstep in Hrun.
  assert (Hstart : Unplugged (nextPromise w) (close w)).
  { rewrite (close_on_closed_socket sock w Hws (Hclosed sock)).
    rewrite rejectAllPendingRequests_eq, stopReconnection_eq, stopIntervals_eq.
    unfold Unplugged, Capped, newPromise. gsimpl. rewrite Hws.
    repeat split; try assumption; try discriminate.
    rewrite settleAll_requests_other by reflexivity. apply Hn. }
  assert (Hreach1 : reachable parseFloat (close w)).
  { apply (reachable_run parseFloat [EvShutdown] w _ Hreach). cbn [run]. rewrite Hstep.
    reflexivity. }
  destruct (Unplugged_run (nextPromise w) events (close w) w' Hreach1 Hstart Hrun)
    as (U1 & U2 & U3 & U4 & U5).
  repeat split; try assumption.
  rewrite Hg, (close_on_closed_socket sock w Hws (Hclosed sock)). reflexivity.
Qed.

End ShutdownBetween.

(** ** Pings *)

Lemma map_get_set_same (k : Z) (v : PendingRequest) (m : pmap) :
  map_get k (map_set k v m) = Some v.
Proof.
  induction m as [|[k' v'] m IH]; cbn [map_set map_get].
  - rewrite Z.eqb_refl. reflexivity.
  - destruct (Z.eqb_spec k k') as [->|Hne]; cbn [map_get].
    + rewrite Z.eqb_refl. reflexivity.
    + destruct (Z.eqb_spec k k'); [contradiction | exact IH].
Qed.

(** [sendPing] on an open socket: what it leaves behind. *)
Lemma sendPing_open (now : Z) (sock : nat) (w : World) :
  isConnected w = true -> ws w = Some sock -> readyState (sockets w sock) = OPEN ->
  pendingRequests (sendPing now w)
  = map_set (requestId w) (mkPending (nextPromise w) now) (pendingRequests w) /\
  requestId (sendPing now w) = requestId w + 1 /\
  promises (sendPing now w) = promises w /\
  trace (sendPing now w)
  = SetTimer (nextTimer w) (TPingTimeout (nextPromise w)) 10000
    :: Send sock (pingFrame (requestId w)) :: trace w /\
  timers (sendPing now w) (nextTimer w) = Some (TPingTimeout (nextPromise w), 10000%Q).
Proof.
  intros Hc Hws Hst. unfold sendPing, newPromise. gsimpl. rewrite Hc, Hws.
  unfold wsSend. gsimpl. rewrite Hst. unfold setTimer. gsimpl.
  unfold fupd. rewrite Nat.eqb_refl. repeat split.
Qed.

(** [sendPing] that cannot send. *)
Lemma sendPing_refused (now : Z) (w : World) :
  TableInv w ->
  isConnected w = false \/ ws w = None \/
  (exists sock, ws w = Some sock /\ readyState (sockets w sock) = CONNECTING) ->
  exists message,
    sendPing now w
    = rejectP (PRequest (nextPromise w)) message (snd (newPromise w)).
Proof.
  intros Ht H. unfold sendPing, newPromise. gsimpl.
  destruct (isConnected w) eqn:Hc; [|eexists; reflexivity].
  destruct (ws w) as [sock|] eqn:Hws; [|eexists; reflexivity].
  destruct H as [H|[H|(s & Hs & Hst)]]; try discriminate.
  injection Hs as <-. unfold wsSend. gsimpl. rewrite Hst.
  rewrite map_delete_set_absent by (apply next_id_new; exact Ht).
  eexists. destruct w. reflexivity.
Qed.

Section Pings.

Variable parseFloat : string -> float.

(** X10.  In every state the program reaches with an open socket, a ping
    and the ["pong"] that answers it make a round trip: [sendPing] sends
    [{id, method: "server.ping", params: []}] under the current id and
    registers it, and the frame [{id, result: "pong"}] resolves the promise
    that [sendPing] returned with the latency between the two clock readings
    and leaves the table of pending requests as it was before the ping. *)
Theorem ping_pong_round_trip
    (w : World) (sock : nat) (message : jsval) (sentAt now now' : Z) :
  reachable parseFloat w ->
  isConnected w = true -> ws w = Some sock -> readyState (sockets w sock) = OPEN ->
  field message "id" = JNum (requestId w) ->
  is_str (field message "result") "pong" = true ->
  let w1 := sendPing sentAt w in
  let w2 := handleMessage parseFloat now now' message w1 in
  hd_error (tl (trace w1)) = Some (Send sock (pingFrame (requestId w))) /\
  map_get (requestId w) (pendingRequests w1) = Some (mkPending (nextPromise w) sentAt) /\
  promises w2 (PRequest (nextPromise w))
  = Some (Fulfilled (JObj [("latency", JNum (now - sentAt)); ("timestamp", JNum now')])) /\
  pendingRequests w2 = pendingRequests w /\
  requestId w2 = requestId w + 1.
Proof.
  intros Hreach Hc Hws Hst Hid Hpong w1 w2.
  pose proof (TableInv_reachable parseFloat w Hreach) as Ht.
  destruct (sendPing_open sentAt sock w Hc Hws Hst) as (S1 & S2 & S3 & S4 & S5).
  assert (Hget : map_get (requestId w) (pendingRequests w1)
                 = Some (mkPending (nextPromise w) sentAt)).
  { subst w1. rewrite S1. apply map_get_set_same. }
  assert (Htr : truthy (JNum (requestId w)) = true).
  { pose proof (ti_id w Ht). cbn [truthy]. destruct (Z.eqb_spec (requestId w) 0); [lia|].
    reflexivity. }
  assert (Hw2 : w2 = set_pendingRequests
                       (map_delete (requestId w) (pendingRequests w1))
                       (resolveP (PRequest (nextPromise w))
                          (JObj [("latency", JNum (now - sentAt)); ("timestamp", JNum now')])
                          w1)).
  { subst w2. unfold handleMessage. rewrite Hid, Htr, Hpong.
    cbn [has_js get_js delete_js andb]. unfold map_has. rewrite Hget. cbn [andb].
    rewrite pendingRequests_resolveP. reflexivity. }
  split; [subst w1; rewrite S4; reflexivity|].
  split; [exact Hget|].
  rewrite Hw2. gsimpl. subst w1. rewrite S1.
  split; [|split].
  - rewrite resolveP_eq. gsimpl. rewrite S3. apply settleFn_hit.
    apply (ti_fresh w Ht). apply Nat.le_refl.
  - apply map_delete_set_absent, next_id_new, Ht.
  - rewrite resolveP_eq. gsimpl. exact S2.
Qed.

(** X11.  In every state the program reaches, a ping that cannot be sent --
    the client is not connected, or [send] throws on a socket still in its
    handshake -- leaves no trace of itself: the promise that [sendPing]
    returns is rejected, nothing is sent, no timer is armed, and the table
    of pending requests and the id counter are as they were. *)
Theorem failed_ping_registers_nothing (w : World) (now : Z) :
  reachable parseFloat w ->
  isConnected w = false \/ ws w = None \/
  (exists sock, ws w = Some sock /\ readyState (sockets w sock) = CONNECTING) ->
  pendingRequests (sendPing now w) = pendingRequests w /\
  requestId (sendPing now w) = requestId w /\
  timers (sendPing now w) = timers w /\
  exists message,
    promises (sendPing now w) (PRequest (nextPromise w)) = Some (Rejected message) /\
    trace (sendPing now w) = Reject (PRequest (nextPromise w)) message :: trace w.
Proof.
  intros Hreach H. pose proof (TableInv_reachable parseFloat w Hreach) as Ht.
  destruct (sendPing_refused now w Ht H) as [message ->].
  rewrite rejectP_eq. unfold newPromise. gsimpl. repeat split.
  exists message. split; [|reflexivity].
  apply settleFn_hit. apply (ti_fresh w Ht). apply Nat.le_refl.
Qed.

End Pings.

(** ** Frames from the server *)

Lemma connected_stopReconnection (w : World) :
  isConnected (stopReconnection w) = isConnected w.
Proof. rewrite stopReconnection_eq. reflexivity. Qed.

Lemma connected_sendPong (id : jsval) (w : World) : isConnected (sendPong id w) = isConnected w.
Proof. rewrite sendPong_eq. reflexivity. Qed.

Lemma connected_handleMessage (parseFloat : string -> float) (now now' : Z) (message : jsval)
    (w : World) :
  isConnected (handleMessage parseFloat now now' message w) = isConnected w.
Proof.
  destruct (handleMessage_cases parseFloat now now' message w) as [H|[_ ->]].
  - destruct H as (_ & _ & _ & _ & _ & _ & _ & _ & _ & _ & _ & _ & H13 & _). exact H13.
  - rewrite connected_stopReconnection. reflexivity.
Qed.

Section Frames.

Variable parseFloat : string -> float.

(** X12.  No frame from the server, well formed or not, ends the process,
    changes the state of a socket, opens a socket, arms a reconnect timer or
    marks the client as disconnected; none settles the promise of a
    [connect()] or of a [close()], and none settles a promise a second
    time. *)
Theorem frame_never_disconnects (data : option jsval) (now now' : Z) (w : World) :
  exited (onMessage parseFloat data now now' w) = exited w /\
  sockets (onMessage parseFloat data now now' w) = sockets w /\
  nextSocket (onMessage parseFloat data now now' w) = nextSocket w /\
  ws (onMessage parseFloat data now now' w) = ws w /\
  isConnected (onMessage parseFloat data now now' w) = isConnected w /\
  armed (onMessage parseFloat data now now' w) = armed w /\
  (forall s, promises (onMessage parseFloat data now now' w) (PConnect s)
             = promises w (PConnect s)) /\
  (forall n, promises (onMessage parseFloat data now now' w) (PClose n)
             = promises w (PClose n)) /\
  (forall p o, promises w p = Some o ->
               promises (onMessage parseFloat data now now' w) p = Some o).
Proof.
  assert (Hc : isConnected (onMessage parseFloat data now now' w) = isConnected w).
  { unfold onMessage. destruct data as [message|]; [|reflexivity].
    destruct message; try reflexivity; apply connected_handleMessage. }
  destruct (onMessage_cases parseFloat data now now' w)
    as [(F1 & F2 & F3 & F4 & F5 & F6 & F7 & F8 & F9 & F10 & F11 & F12 & _)|(m & _ & _ & E)].
  - unfold armed. rewrite F10. repeat split; assumption.
  - rewrite E in *. rewrite stopReconnection_eq. unfold armed. gsimpl.
    repeat split; auto.
Qed.

End Frames.

(** ** The backoff *)

Lemma Qpower_three_halves_ge_1 (n : nat) : (1 <= (3 # 2) ^ Z.of_nat n)%Q.
Proof.
  induction n as [|n IH]; [discriminate|].
  rewrite Nat2Z.inj_succ, <- Z.add_1_r, Qpower_plus by discriminate.
  change ((3 # 2) ^ 1)%Q with (3 # 2)%Q.
  apply Qle_trans with (1 * (3 # 2))%Q; [discriminate|].
  apply Qmult_le_compat_r; [exact IH | discriminate].
Qed.

Lemma Qpower_three_halves_mono (a b : Z) :
  0 <= a <= b -> ((3 # 2) ^ a <= (3 # 2) ^ b)%Q.
Proof.
  intros H. replace b with (a + (b - a)) by lia.
  rewrite Qpower_plus by discriminate.
  rewrite <- (Qmult_1_r ((3 # 2) ^ a)) at 1.
  rewrite (Qmult_comm ((3 # 2) ^ a) 1), (Qmult_comm ((3 # 2) ^ a) ((3 # 2) ^ (b - a))).
  apply Qmult_le_compat_r.
  - rewrite <- (Z2Nat.id (b - a)) by lia. apply Qpower_three_halves_ge_1.
  - apply Qpower_0_le. discriminate.
Qed.

Lemma raw_delay_mono (a b : Z) :
  1 <= a <= b ->
  (inject_Z reconnectDelay * (3 # 2) ^ (a - 1)
   <= inject_Z reconnectDelay * (3 # 2) ^ (b - 1))%Q.
Proof.
  intros H. rewrite !(Qmult_comm (inject_Z reconnectDelay)).
  apply Qmult_le_compat_r; [|discriminate].
  apply Qpower_three_halves_mono. lia.
Qed.

(** X13.  The delay before reconnection attempt [k], for every [k] from 1
    on: it is at least 1000 ms and at most 30000 ms, it never decreases from
    one attempt to the next, and it is the cap of 30000 ms exactly from the
    tenth attempt on. *)
Theorem backoff_bounds (k k' : Z) :
  1 <= k <= k' ->
  (1000 <= reconnectDelayFor k)%Q /\
  (reconnectDelayFor k <= reconnectDelayFor k')%Q /\
  (reconnectDelayFor k' <= 30000)%Q /\
  ((reconnectDelayFor k == 30000)%Q <-> 10 <= k).
Proof.
  intros H. unfold reconnectDelayFor. split; [|split; [|split]].
  - apply Q.min_glb; [|discriminate].
    apply Qle_trans with (inject_Z reconnectDelay * (3 # 2) ^ (1 - 1))%Q; [discriminate|].
    apply raw_delay_mono. lia.
  - apply Q.min_le_compat_r. apply raw_delay_mono. exact H.
  - apply Q.le_min_r.
  - split.
    + intros E. destruct (Z_lt_le_dec k 10) as [Hlt|Hge]; [exfalso | exact Hge].
      assert (Hlow : (inject_Z reconnectDelay * (3 # 2) ^ (k - 1)
                      <= inject_Z reconnectDelay * (3 # 2) ^ (9 - 1))%Q)
        by (apply raw_delay_mono; lia).
      assert (Hlt' : (inject_Z reconnectDelay * (3 # 2) ^ (9 - 1) < 30000)%Q) by reflexivity.
      pose proof (Q.le_min_l (inject_Z reconnectDelay * (3 # 2) ^ (k - 1))
                    (inject_Z maxReconnectDelay)) as Hmin.
      rewrite E in Hmin.
      apply (Qlt_irrefl 30000). eapply Qle_lt_trans; [exact Hmin|].
      eapply Qle_lt_trans; [exact Hlow | exact Hlt'].
    + intros Hge. apply Q.min_r.
      apply Qle_trans with (inject_Z reconnectDelay * (3 # 2) ^ (10 - 1))%Q; [discriminate|].
      apply raw_delay_mono. lia.
Qed.

(** ** The version check of the deployment script *)

Lemma compare_from_opp (remaining i : nat) (p1 p2 : list Deploy.number) :
  Deploy.compare_from remaining i p2 p1 = - Deploy.compare_from remaining i p1 p2.
Proof.
  revert i. induction remaining as [|n IH]; intros i; cbn [Deploy.compare_from]; [reflexivity|].
  rewrite (Z.eqb_sym (Deploy.component p2 i)). destruct (Deploy.component p1 i =? Deploy.component p2 i); [apply IH | lia].
Qed.

(** The loop returns a negative number exactly when the first components
    that differ are in that order, and 0 exactly when none differ. *)
Lemma compare_from_negative (remaining i : nat) (p1 p2 : list Deploy.number) :
  Deploy.compare_from remaining i p1 p2 < 0 <->
  exists j, (i <= j < i + remaining)%nat /\ Deploy.component p1 j < Deploy.component p2 j /\
            forall m, (i <= m < j)%nat -> Deploy.component p1 m = Deploy.component p2 m.
Proof.
  revert i. induction remaining as [|n IH]; intros i; cbn [Deploy.compare_from].
  - split; [lia | intros (j & Hj & _); lia].
  - destruct (Z.eqb_spec (Deploy.component p1 i) (Deploy.component p2 i)) as [E|N].
    + rewrite IH. split; intros (j & Hj & Hlt & Heq).
      * exists j. split; [lia|]. split; [exact Hlt|].
        intros m Hm. destruct (Nat.eq_dec m i) as [->|Hne]; [exact E | apply Heq; lia].
      * exists j. assert (j <> i) by (intros ->; lia).
        split; [lia|]. split; [exact Hlt|]. intros m Hm. apply Heq. lia.
    + split.
      * intros Hlt. exists i. split; [lia|]. split; [lia|]. intros m Hm. lia.
      * intros (j & Hj & Hlt & Heq). destruct (Nat.eq_dec j i) as [->|Hne]; [lia|].
        exfalso. apply N. apply Heq. lia.
Qed.

Lemma compare_from_zero (remaining i : nat) (p1 p2 : list Deploy.number) :
  Deploy.compare_from remaining i p1 p2 = 0 <->
  forall j, (i <= j < i + remaining)%nat -> Deploy.component p1 j = Deploy.component p2 j.
Proof.
  revert i. induction remaining as [|n IH]; intros i; cbn [Deploy.compare_from].
  - split; [intros _ j Hj; lia | reflexivity].
  - destruct (Z.eqb_spec (Deploy.component p1 i) (Deploy.component p2 i)) as [E|N].
    + rewrite IH. split; intros H j Hj.
      * destruct (Nat.eq_dec j i) as [->|Hne]; [exact E | apply H; lia].
      * apply H. lia.
    + split; [lia|]. intros H. exfalso. apply N. apply H. lia.
Qed.

Lemma component_beyond (p : list Deploy.number) (j : nat) :
  (List.length p <= j)%nat -> Deploy.component p j = 0.
Proof.
  intros H. unfold Deploy.component. rewrite (proj2 (nth_error_None p j) H). reflexivity.
Qed.


(** X14.  [compareVersions] orders versions component by component, a
    missing component counting as 0: the result is negative exactly when,
    at the first position where the two versions differ, the component of
    the first is the smaller, and it is 0 exactly when they differ nowhere
    -- so that ["v18"] and ["v18.0.0"] compare equal. *)
Theorem compareVersions_lexicographic (v1 v2 : string) (p1 p2 : list Deploy.number) :
  Deploy.parseVersion v1 = Some p1 -> Deploy.parseVersion v2 = Some p2 ->
  exists order,
    Deploy.compareVersions v1 v2 = Some order /\
    (order < 0 <->
     exists i, Deploy.component p1 i < Deploy.component p2 i /\
               forall j, (j < i)%nat -> Deploy.component p1 j = Deploy.component p2 j) /\
    (order = 0 <-> forall i, Deploy.component p1 i = Deploy.component p2 i).
Proof.
  intros H1 H2. unfold Deploy.compareVersions. rewrite H1, H2. eexists. split; [reflexivity|].
  split.
  - rewrite compare_from_negative. split.
    + intros (j & _ & Hlt & Heq). exists j. split; [exact Hlt|].
      intros m Hm. apply Heq. lia.
    + intros (j & Hlt & Heq). exists j. split; [|split; [exact Hlt|]].
      * split; [lia|]. cbn [Nat.add].
        destruct (Nat.lt_ge_cases j (Nat.max (List.length p1) (List.length p2)))
          as [Hj|Hj]; [exact Hj|].
        rewrite !component_beyond in Hlt by lia. lia.
      * intros m Hm. apply Heq. lia.
  - rewrite compare_from_zero. split.
    + intros H i.
      destruct (Nat.lt_ge_cases i (Nat.max (List.length p1) (List.length p2))) as [Hi|Hi].
      * apply H. lia.
      * rewrite !component_beyond by lia. reflexivity.
    + intros H j _. apply H.
Qed.

(** X15.  Swapping the arguments of [compareVersions] negates its result. *)
Theorem compareVersions_antisymmetric (v1 v2 : string) :
  Deploy.compareVersions v2 v1 = option_map Z.opp (Deploy.compareVersions v1 v2).
Proof.
  unfold Deploy.compareVersions.
  destruct (Deploy.parseVersion v1) as [p1|], (Deploy.parseVersion v2) as [p2|]; try reflexivity.
  cbn [option_map]. rewrite Nat.max_comm, compare_from_opp. reflexivity.
Qed.



(** ** The connection status *)

Lemma same_status_refl (w : World) : same_status w w.
Proof. unfold same_status. repeat split. Qed.

Lemma same_status_trans (w1 w2 w3 : World) :
  same_status w1 w2 -> same_status w2 w3 -> same_status w1 w3.
Proof.
  intros (A1 & A2 & A3 & A4 & A5) (B1 & B2 & B3 & B4 & B5).
  unfold same_status. repeat split; congruence.
Qed.

Lemma StatusInv_same (w w' : World) : same_status w w' -> StatusInv w -> StatusInv w'.
Proof.
  intros (A1 & A2 & A3 & A4 & A5) (sock & H1 & H2 & H3).
  exists sock. rewrite A1, A3, A4, A5. repeat split; assumption.
Qed.

Ltac status_solve :=
  unfold same_status; gsimpl; repeat split; reflexivity.

Lemma status_rejectP (p : promise) (m : string) (w : World) : same_status w (rejectP p m w).
Proof. rewrite rejectP_eq. status_solve. Qed.

Lemma status_resolveP (p : promise) (v : jsval) (w : World) : same_status w (resolveP p v w).
Proof. rewrite resolveP_eq. status_solve. Qed.

Lemma status_clearTimer (h : nat) (w : World) : same_status w (clearTimer h w).
Proof. status_solve. Qed.

Lemma status_processExit (code : Z) (w : World) : same_status w (processExit code w).
Proof. status_solve. Qed.

Lemma status_scheduleReconnect (w : World) : same_status w (scheduleReconnect w).
Proof.
  rewrite scheduleReconnect_eq. destruct (reconnect_blocked w); [apply same_status_refl|].
  unfold arm. status_solve.
Qed.

Lemma status_afterConnectRejected (sock : nat) (w : World) :
  same_status w (afterConnectRejected sock w).
Proof.
  unfold afterConnectRejected. destruct (viaReconnect (sockets w sock));
    [apply status_scheduleReconnect | apply status_processExit].
Qed.

Lemma status_stopIntervals (w : World) : same_status w (stopIntervals w).
Proof. rewrite stopIntervals_eq. status_solve. Qed.

Lemma status_stopReconnection (w : World) : same_status w (stopReconnection w).
Proof. rewrite stopReconnection_eq. status_solve. Qed.

Lemma status_rejectAllPendingRequests (message : string) (w : World) :
  same_status w (rejectAllPendingRequests message w).
Proof. rewrite rejectAllPendingRequests_eq. status_solve. Qed.

Lemma status_resolveCloseListeners (sock : nat) (ls : list (nat * nat)) (w : World) :
  same_status w (resolveCloseListeners sock ls w).
Proof. rewrite resolveCloseListeners_eq. status_solve. Qed.

Lemma status_subscribeToBalances (now : Z) (w : World) :
  same_status w (subscribeToBalances now w).
Proof. rewrite subscribeToBalances_eq. status_solve. Qed.

Lemma status_sendPing (now : Z) (w : World) : same_status w (sendPing now w).
Proof.
  unfold sendPing, newPromise, wsSend, setTimer. gsimpl.
  destruct (isConnected w) eqn:Hc; [|rewrite rejectP_eq; status_solve; rewrite Hc; reflexivity].
  destruct (ws w) as [sock|] eqn:Hws; [|rewrite rejectP_eq; unfold same_status; gsimpl;
                                          rewrite Hc, Hws; repeat split].
  destruct (readyState (sockets w sock)); gsimpl; rewrite ?rejectP_eq;
    unfold same_status; gsimpl; rewrite Hc, Hws; repeat split.
Qed.

Lemma status_onPingTimeout (p : nat) (w : World) : same_status w (onPingTimeout p w).
Proof.
  unfold onPingTimeout. destruct (map_has _ _); [|apply same_status_refl].
  rewrite rejectP_eq. status_solve.
Qed.

Lemma status_onPingInterval (now : Z) (w : World) : same_status w (onPingInterval now w).
Proof.
  unfold onPingInterval. destruct (isConnected w); [|apply same_status_refl].
  destruct (ws w); [apply status_sendPing | apply same_status_refl].
Qed.

Lemma status_onBalanceInterval (now now' : Z) (w : World) :
  same_status w (onBalanceInterval now now' w).
Proof.
  unfold onBalanceInterval. destruct (isConnected w); [|apply same_status_refl].
  destruct (ws w); [|apply same_status_refl].
  destruct (isAuthenticated w); [|apply same_status_refl].
  destruct (_ <? _); [apply status_subscribeToBalances | apply same_status_refl].
Qed.

Lemma status_startPingInterval (now : Z) (w : World) :
  same_status w (startPingInterval now w).
Proof.
  unfold startPingInterval.
  apply same_status_trans with (sendPing now w); [apply status_sendPing|].
  generalize (sendPing now w). intros x. unfold setTimer. status_solve.
Qed.

Lemma status_startBalanceInterval (w : World) : same_status w (startBalanceInterval w).
Proof. unfold startBalanceInterval, setTimer. status_solve. Qed.

Lemma status_onSettled (sock : nat) (now : Z) (w : World) :
  same_status w (onSettled sock now w).
Proof.
  unfold onSettled. eapply same_status_trans; [|apply status_resolveP].
  eapply same_status_trans; [apply (status_startPingInterval now)|].
  apply status_startBalanceInterval.
Qed.

Lemma status_onConnectionTimeout (sock : nat) (w : World) :
  same_status w (onConnectionTimeout sock w).
Proof.
  unfold onConnectionTimeout, rejectConnect.
  assert (H : same_status w (scheduleReconnect (rejectP (PConnect sock) "Connection timeout" w)))
    by (eapply same_status_trans; [apply status_rejectP | apply status_scheduleReconnect]).
  destruct (promises w (PConnect sock)); [exact H|].
  eapply same_status_trans; [exact H | apply status_afterConnectRejected].
Qed.

(** [handleDisconnection]: both flags are cleared. *)
Lemma gone_same (sock : nat) (w y y' : World) :
  same_status y y' -> gone sock w y -> gone sock w y'.
Proof.
  intros (A1 & A2 & A3 & A4 & A5) (G1 & G2 & G3 & G4 & G5).
  unfold gone. rewrite A1, A2, A3, A4, A5. repeat split; assumption.
Qed.

Lemma gone_handleDisconnection (sock : nat) (w x : World) :
  ws x = ws w -> nextSocket x = nextSocket w ->
  live (readyState (sockets x sock)) = false ->
  gone sock w (handleDisconnection x).
Proof.
  intros Hws Hn Hdead. rewrite handleDisconnection_disconnected.
  destruct (reconnect_blocked x); unfold gone, arm, disconnected; gsimpl;
    repeat split; assumption.
Qed.

Lemma StatusInv_gone (sock : nat) (w y : World) :
  StatusInv w -> gone sock w y -> StatusInv y.
Proof.
  intros (s0 & H1 & H2 & H3) (G1 & G2 & G3 & G4 & G5).
  exists s0. rewrite G1, G3, G4. repeat split; try assumption.
  discriminate.
Qed.

Lemma gone_onError (sock : nat) (message : string) (w x : World) :
  ws x = ws w -> nextSocket x = nextSocket w ->
  live (readyState (sockets x sock)) = false ->
  gone sock w (onError sock message x).
Proof.
  intros Hws Hn Hdead. unfold onError, rejectConnect.
  assert (H : gone sock w (handleDisconnection
                             (clearTimer (connectionTimeout (sockets x sock)) x)))
    by (apply gone_handleDisconnection; assumption).
  apply (gone_same sock w _ _ (status_rejectP (PConnect sock) message _)) in H.
  destruct (promises _ _); [exact H|].
  exact (gone_same sock w _ _ (status_afterConnectRejected sock _) H).
Qed.

Lemma gone_onClose (sock : nat) (w x : World) :
  ws x = ws w -> nextSocket x = nextSocket w ->
  live (readyState (sockets x sock)) = false ->
  gone sock w (onClose sock x).
Proof.
  intros Hws Hn Hdead. unfold onClose. cbv zeta.
  assert (H : gone sock w (handleDisconnection
                             (clearTimer (connectionTimeout (sockets x sock)) x)))
    by (apply gone_handleDisconnection; assumption).
  apply (gone_same sock w _ _
           (status_resolveCloseListeners sock
              (closeListeners
                 (handleDisconnection (clearTimer (connectionTimeout (sockets x sock)) x)))
              _)) in H.
  destruct (existsb _ _); [|exact H].
  exact (gone_same sock w _ _ (status_processExit 0 _) H).
Qed.

Lemma gone_again (sock h : nat) (w y : World) :
  gone sock w y -> gone sock w (handleDisconnection (clearTimer h y)).
Proof.
  intros (G1 & G2 & G3 & G4 & G5). rewrite handleDisconnection_disconnected.
  destruct (reconnect_blocked _); unfold gone, arm, disconnected; gsimpl;
    repeat split; assumption.
Qed.

Lemma gone_onHandshakeFailure (sock : nat) (message : string) (w x : World) :
  ws x = ws w -> nextSocket x = nextSocket w ->
  live (readyState (sockets x sock)) = false ->
  gone sock w (onHandshakeFailure sock message x).
Proof.
  intros Hws Hn Hdead. unfold onHandshakeFailure, rejectConnect.
  assert (H : gone sock w (handleDisconnection
                             (clearTimer (connectionTimeout (sockets x sock)) x)))
    by (apply gone_handleDisconnection; assumption).
  revert H. generalize (handleDisconnection (clearTimer (connectionTimeout (sockets x sock)) x)).
  intros w1 H. cbv zeta. cbn [fst snd].
  apply (gone_same sock w _ _ (status_rejectP (PConnect sock) message w1)) in H.
  revert H. generalize (rejectP (PConnect sock) message w1). intros w2 H.
  apply (gone_again sock (connectionTimeout (sockets w2 sock))) in H.
  revert H. generalize (handleDisconnection (clearTimer (connectionTimeout (sockets w2 sock)) w2)).
  intros w3 H.
  apply (gone_same sock w _ _ (status_resolveCloseListeners sock (closeListeners w3) w3)) in H.
  destruct (existsb _ _); [exact (gone_same sock w _ _ (status_processExit 0 _) H)|].
  destruct (promises w1 (PConnect sock)); [exact H|].
  exact (gone_same sock w _ _ (status_afterConnectRejected sock _) H).
Qed.

Lemma dead_setSocketState (sock : nat) (st : ReadyState) (w : World) :
  live st = false -> live (readyState (sockets (setSocketState sock st w) sock)) = false.
Proof.
  intros H. unfold setSocketState. gsimpl. unfold fupd. rewrite Nat.eqb_refl. exact H.
Qed.

Lemma StatusInv_onMessage (parseFloat : string -> float) (data : option jsval)
    (now now' : Z) (w : World) :
  StatusInv w -> StatusInv (onMessage parseFloat data now now' w).
Proof.
  intros (s0 & H1 & H2 & H3).
  assert (Hc' : isConnected (onMessage parseFloat data now now' w) = isConnected w).
  { unfold onMessage. destruct data as [message|]; [|reflexivity].
    destruct message; try reflexivity; apply connected_handleMessage. }
  assert (Hf : sockets (onMessage parseFloat data now now' w) = sockets w /\
               ws (onMessage parseFloat data now now' w) = ws w /\
               nextSocket (onMessage parseFloat data now now' w) = nextSocket w).
  { destruct (onMessage_cases parseFloat data now now' w)
      as [(F1 & F2 & F3 & F4 & F5 & F6 & F7 & F8 & F9 & _)|(m & _ & _ & E)].
    - repeat split; assumption.
    - rewrite E, stopReconnection_eq. repeat split. }
  destruct Hf as (F1 & F2 & F3).
  exists s0. rewrite Hc', F1, F2, F3. repeat split; assumption.
Qed.

Lemma StatusInv_close (w : World) : StatusInv w -> StatusInv (close w).
Proof.
  intros H. unfold close.
  assert (H1 : same_status w (rejectAllPendingRequests "Connection closed by user"
                                (stopReconnection (stopIntervals w)))).
  { eapply same_status_trans; [apply status_stopIntervals|].
    eapply same_status_trans; [apply status_stopReconnection|].
    apply status_rejectAllPendingRequests. }
  pose proof (StatusInv_same _ _ H1 H) as H2. revert H2.
  generalize (rejectAllPendingRequests "Connection closed by user"
                (stopReconnection (stopIntervals w))).
  intros x (s0 & A1 & A2 & A3).
  unfold newPromise. gsimpl. rewrite A1. unfold wsClose. gsimpl.
  destruct (readyState (sockets x s0)) eqn:Hst; unfold setSocketState; gsimpl;
    exists s0; unfold fupd; gsimpl; rewrite ?Nat.eqb_refl; gsimpl; rewrite ?Hst;
    repeat split; try assumption;
    intros Hc; specialize (A3 Hc); rewrite Hst in A3; first [exact A3 | reflexivity].
Qed.

Section ConnectionStatus.

Variable parseFloat : string -> float.

Lemma StatusInv_step (w w' : World) (e : Event) :
  SocketInv w -> StatusInv w -> step parseFloat w e = Some w' -> StatusInv w'.
Proof.
  intros Hinv H Hstep. unfold step in Hstep.
  destruct (exited w); [discriminate|].
  destruct e as [sock now|sock data now now'|sock message|sock|h now now'|].
  - destruct (readyState (sockets w sock)) eqn:Hst; try discriminate.
    injection Hstep as <-.
    assert (Hn : S sock = nextSocket w)
      by (apply newest_of; [exact Hinv | left; exact Hst]).
    destruct H as (s0 & H1 & H2 & H3). assert (s0 = sock) by congruence. subst s0.
    exists sock. unfold onOpen, setTimer, setSocketState. gsimpl. unfold fupd.
    rewrite Nat.eqb_refl. gsimpl. repeat split; assumption.
  - destruct (readyState (sockets w sock)); try discriminate;
      injection Hstep as <-; apply StatusInv_onMessage; assumption.
  - assert (Hw' : w' = onError sock message (setSocketState sock ERRORED w) \/
                   w' = onHandshakeFailure sock message (setSocketState sock CLOSED w))
      by (destruct (readyState (sockets w sock)); try discriminate;
          injection Hstep as <-; auto).
    destruct Hw' as [-> | ->]; apply (StatusInv_gone sock w); try exact H.
    + apply gone_onError; [reflexivity | reflexivity|].
      apply dead_setSocketState. reflexivity.
    + apply gone_onHandshakeFailure; [reflexivity | reflexivity|].
      apply dead_setSocketState. reflexivity.
  - assert (Hw' : w' = onClose sock (setSocketState sock CLOSED w))
      by (destruct (readyState (sockets w sock)); congruence).
    subst w'. apply (StatusInv_gone sock w); [exact H|].
    apply gone_onClose; [reflexivity | reflexivity|].
    apply dead_setSocketState. reflexivity.
  - unfold fireTimer in Hstep. destruct (timers w h) as [[t d]|] eqn:Ht; [|discriminate].
    pose proof (StatusInv_same _ _ (status_clearTimer h w) H) as Hclr.
    destruct t; cbn [is_interval] in Hstep.
    + injection Hstep as <-.
      exact (StatusInv_same _ _ (status_onConnectionTimeout sock _) Hclr).
    + injection Hstep as <-. exact (StatusInv_same _ _ (status_onSettled sock now _) Hclr).
    + injection Hstep as <-.
      destruct (si_reconnect w Hinv h d Ht) as (_ & _ & _ & Hc).
      exists (nextSocket w). unfold onReconnectTimer, connect, setTimer. gsimpl.
      rewrite Hc. repeat split. discriminate.
    + injection Hstep as <-. exact (StatusInv_same _ _ (status_onPingInterval now w) H).
    + injection Hstep as <-.
      exact (StatusInv_same _ _ (status_subscribeToBalances now _) Hclr).
    + injection Hstep as <-.
      exact (StatusInv_same _ _ (status_onBalanceInterval now now' w) H).
    + injection Hstep as <-. exact (StatusInv_same _ _ (status_onPingTimeout p _) Hclr).
  - injection Hstep as <-. unfold gracefulShutdown. destruct (ws w).
    + apply StatusInv_close. exact H.
    + exact (StatusInv_same _ _ (status_processExit 0 _) (StatusInv_close w H)).
Qed.

Lemma StatusInv_run (events : list Event) (w w' : World) :
  reachable parseFloat w -> StatusInv w -> run parseFloat w events = Some w' -> StatusInv w'.
Proof.
  revert w. induction events as [|e events IH]; intros w Hreach H Hrun.
  - injection Hrun as <-. exact H.
  - cbn [run] in Hrun. destruct (step parseFloat w e) as [w1|] eqn:Hstep; [|discriminate].
    assert (Hinv : SocketInv w).
    { destruct (Inv_reachable parseFloat w Hreach) as [Hx|Hx]; [|exact Hx].
      unfold step in Hstep. destruct (exited w); [discriminate | congruence]. }
    apply (IH w1); [|exact (StatusInv_step w w1 e Hinv H Hstep) | exact Hrun].
    apply (reachable_run parseFloat [e] w w1 Hreach). cbn [run]. rewrite Hstep. reflexivity.
Qed.

Lemma StatusInv_reachable (w : World) : reachable parseFloat w -> StatusInv w.
Proof.
  intros (key & secret & events & Hrun).
  apply (StatusInv_run events (init key secret)); [| |exact Hrun].
  - exists key, secret, []. reflexivity.
  - exists 0%nat. repeat split. discriminate.
Qed.


(** X18.  In every state the program reaches in which the client is
    connected, [send] does not throw: the socket is past its handshake, so
    that [sendPing] registers its request and arms its timeout, and the
    handlers that catch an error of [send] never do. *)
Theorem send_never_throws (w : World) (sock : nat) (now : Z) :
  reachable parseFloat w ->
  isConnected w = true -> ws w = Some sock ->
  (forall frame, wsSend sock frame w <> None) /\
  map_get (requestId w) (pendingRequests (sendPing now w))
  = Some (mkPending (nextPromise w) now) /\
  requestId (sendPing now w) = requestId w + 1 /\
  timers (sendPing now w) (nextTimer w) = Some (TPingTimeout (nextPromise w), 10000%Q).
Proof.
  intros Hreach Hc Hws. destruct (StatusInv_reachable w Hreach) as (s0 & H1 & H2 & H3).
  assert (s0 = sock) by congruence. subst s0. specialize (H3 Hc).
  split.
  - intros frame. rewrite wsSend_eq.
    destruct (readyState (sockets w sock)); discriminate.
  - unfold sendPing, newPromise, wsSend, setTimer. gsimpl. rewrite Hc, Hws.
    destruct (readyState (sockets w sock)); try discriminate H3; gsimpl;
      unfold fupd; rewrite Nat.eqb_refl, map_get_set_same; repeat split.
Qed.

End ConnectionStatus.

(** ** Reconnect timers between two openings *)

Lemma blocked_still (w w' : World) :
  still w w' -> reconnect_blocked w' = reconnect_blocked w.
Proof. intros (A1 & A2 & _). unfold reconnect_blocked. rewrite A1, A2. reflexivity. Qed.

Lemma blocked_stopReconnection (w : World) : reconnect_blocked (stopReconnection w) = true.
Proof. rewrite stopReconnection_eq. reflexivity. Qed.

Lemma armed_stopReconnection (w : World) : armed (stopReconnection w) = armed w.
Proof. rewrite stopReconnection_eq. reflexivity. Qed.

Lemma armed_connect (b : bool) (w : World) :
  armed (connect b w) = armed w /\ reconnect_blocked (connect b w) = reconnect_blocked w.
Proof. unfold connect, setTimer, armed, reconnect_blocked. gsimpl. split; reflexivity. Qed.

Lemma armed_arm (w : World) : armed (arm w) = S (armed w) /\ reconnect_blocked (arm w) = true.
Proof. unfold arm, armed, reconnect_blocked. gsimpl. split; reflexivity. Qed.

Section Between.

Variable parseFloat : string -> float.

(** X19.  Between two openings of a socket at most one reconnect timer is
    armed, whatever happens: over any sequence of events none of which is
    the ['open'] of a socket, [scheduleReconnect] arms a timer at most once,
    and not at all when a reconnection was under way at the start -- a
    reconnection attempt that fails, by error, close or timeout, is never
    followed by another. *)
Theorem one_reconnect_between_opens (w w' : World) (events : list Event) :
  run parseFloat w events = Some w' ->
  existsb is_open_event events = false ->
  (armed w' = armed w \/ armed w' = S (armed w)) /\
  (isReconnecting w = true -> armed w' = armed w /\ scheduleReconnect w' = w').
Proof.
  intros Hrun Hno. split.
  - assert (H : AtMostOne (armed w) w').
    { apply (kept_until_open_run parseFloat (AtMostOne (armed w))) with (events := events)
                                                                       (w := w);
        try assumption.
      - intros w1 w2 (Hs & _) [H|[H1 H2]].
        + left. rewrite (armed_still _ _ Hs). exact H.
        + right. rewrite (armed_still _ _ Hs), (blocked_still _ _ Hs). split; assumption.
      - intros w1 Hb [H|[H1 H2]]; [|congruence].
        right. destruct (armed_arm w1) as [A1 A2]. rewrite A1, A2, H. split; reflexivity.
      - intros w1 [H|[H1 H2]].
        + left. rewrite armed_stopReconnection. exact H.
        + right. rewrite armed_stopReconnection, blocked_stopReconnection.
          split; [exact H1 | reflexivity].
      - intros w1 [H|[H1 H2]]; destruct (armed_connect true w1) as [A1 A2].
        + left. rewrite A1. exact H.
        + right. rewrite A1, A2. split; assumption.
      - intros sock ls w1 [H|[H1 H2]];
          pose proof (still_resolveCloseListeners sock ls w1) as Hs.
        + left. rewrite (armed_still _ _ Hs). exact H.
        + right. rewrite (armed_still _ _ Hs), (blocked_still _ _ Hs). split; assumption.
      - intros n v w1 [H|[H1 H2]]; pose proof (still_resolveP (PClose n) v w1) as Hs.
        + left. rewrite (armed_still _ _ Hs). exact H.
        + right. rewrite (armed_still _ _ Hs), (blocked_still _ _ Hs). split; assumption.
      - left. reflexivity. }
    destruct H as [H|[H _]]; [left | right]; exact H.
  - intros Hr.
    assert (H : Blocked (armed w) w').
    { apply (kept_until_open_run parseFloat (Blocked (armed w))) with (events := events)
                                                                     (w := w);
        try assumption.
      - intros w1 w2 (Hs & _) [H1 H2].
        split; [rewrite (blocked_still _ _ Hs) | rewrite (armed_still _ _ Hs)]; assumption.
      - intros w1 Hb [H1 H2]. congruence.
      - intros w1 [H1 H2]. split; [apply blocked_stopReconnection|].
        rewrite armed_stopReconnection. exact H2.
      - intros w1 [H1 H2]. destruct (armed_connect true w1) as [A1 A2].
        split; [rewrite A2 | rewrite A1]; assumption.
      - intros sock ls w1 [H1 H2]. pose proof (still_resolveCloseListeners sock ls w1) as Hs.
        split; [rewrite (blocked_still _ _ Hs) | rewrite (armed_still _ _ Hs)]; assumption.
      - intros n v w1 [H1 H2]. pose proof (still_resolveP (PClose n) v w1) as Hs.
        split; [rewrite (blocked_still _ _ Hs) | rewrite (armed_still _ _ Hs)]; assumption.
      - split; [|reflexivity]. unfold reconnect_blocked. rewrite Hr. reflexivity. }
    destruct H as [H1 H2]. split; [exact H2|].
    rewrite scheduleReconnect_eq, H1. reflexivity.
Qed.

End Between.

(** ** [close()] of the ping-only client *)

Lemma stopPingInterval_eq (w : World) :
  PingOnly.stopPingInterval w
  = set_pingInterval None (set_timers (clearOpt (pingInterval w) (timers w)) w).
Proof.
  destruct w as [sock connected authenticated [h|] ? ? ? ? ? ? ? ? ? ? ? ? ? ? ? ? ? ?];
    reflexivity.
Qed.

(** [close()] up to its promise, on any session [x]. *)
Lemma close_rest (x : World) :
  pendingRequests
    (let '(p, w) := newPromise x in
     match ws w with
     | Some sock => wsClose sock (set_closeListeners (closeListeners w ++ [(sock, p)]) w)
     | None => resolveP (PClose p) JUndefined w
     end) = pendingRequests x /\
  pingInterval
    (let '(p, w) := newPromise x in
     match ws w with
     | Some sock => wsClose sock (set_closeListeners (closeListeners w ++ [(sock, p)]) w)
     | None => resolveP (PClose p) JUndefined w
     end) = pingInterval x /\
  timers
    (let '(p, w) := newPromise x in
     match ws w with
     | Some sock => wsClose sock (set_closeListeners (closeListeners w ++ [(sock, p)]) w)
     | None => resolveP (PClose p) JUndefined w
     end) = timers x /\
  forall n, promises
              (let '(p, w) := newPromise x in
               match ws w with
               | Some sock =>
                   wsClose sock (set_closeListeners (closeListeners w ++ [(sock, p)]) w)
               | None => resolveP (PClose p) JUndefined w
               end) (PRequest n) = promises x (PRequest n).
Proof.
  unfold newPromise. gsimpl. destruct (ws x) as [sock|].
  - unfold wsClose. gsimpl.
    destruct (readyState (sockets x sock)); unfold setSocketState; gsimpl; repeat split.
  - rewrite resolveP_eq. gsimpl. repeat split. intros n. apply settleFn_other. reflexivity.
Qed.

(** X20.  [close()] of the ping-only client leaves no request waiting: the
    ping interval is cleared, the table of pending requests is emptied, and
    every ping that was pending is rejected with "Connection closed by
    user" -- although the loop deletes from the table it is iterating. *)
Theorem ping_only_close_rejects_pending (w : World) :
  (forall k pr, In (k, pr) (pendingRequests w) ->
                promises w (PRequest (waiter pr)) = None) ->
  pendingRequests (PingOnly.close w) = [] /\
  pingInterval (PingOnly.close w) = None /\
  (forall h, pingInterval w = Some h -> timers (PingOnly.close w) h = None) /\
  (forall k pr, In (k, pr) (pendingRequests w) ->
                promises (PingOnly.close w) (PRequest (waiter pr))
                = Some (Rejected "Connection closed by user")).
Proof.
  intros Hp. unfold PingOnly.close, PingOnly.rejectAllPendingRequests.
  destruct (close_rest (rejectAllPendingRequests "Connection closed by user"
                          (PingOnly.stopPingInterval w))) as (C1 & C2 & C3 & C4).
  split; [|split; [|split]].
  - rewrite C1. apply table_rejectAllPendingRequests.
  - rewrite C2, rejectAllPendingRequests_eq, stopPingInterval_eq. reflexivity.
  - intros h Hh. rewrite C3, rejectAllPendingRequests_eq, stopPingInterval_eq. gsimpl.
    rewrite Hh. unfold clearOpt, fupd. rewrite Nat.eqb_refl. reflexivity.
  - intros k pr Hin. rewrite C4. rewrite rejectAllPendingRequests_eq, stopPingInterval_eq.
    gsimpl. apply settleAll_hit; [|exact (Hp k pr Hin)].
    apply in_map_iff. exists (k, pr). split; [reflexivity | exact Hin].
Qed.

(** ** Interval timers that nothing holds *)

Lemma untimed_refl (w : World) : untimed w w.
Proof. unfold untimed. repeat split. Qed.

Lemma untimed_trans (w1 w2 w3 : World) : untimed w1 w2 -> untimed w2 w3 -> untimed w1 w3.
Proof.
  intros (A1 & A2 & A3 & A4 & A5 & A6) (B1 & B2 & B3 & B4 & B5 & B6).
  unfold untimed. repeat split; congruence.
Qed.

Lemma Leaked_untimed (h : nat) (w w' : World) : untimed w w' -> Leaked h w -> Leaked h w'.
Proof.
  intros (A1 & A2 & A3 & A4 & A5 & A6) H. unfold Leaked in *.
  rewrite A1, A2, A3, A4, A5, A6. exact H.
Qed.

Ltac untimed_solve := unfold untimed; gsimpl; repeat split; reflexivity.

Lemma untimed_rejectP (p : promise) (m : string) (w : World) : untimed w (rejectP p m w).
Proof. rewrite rejectP_eq. untimed_solve. Qed.

Lemma untimed_resolveP (p : promise) (v : jsval) (w : World) : untimed w (resolveP p v w).
Proof. rewrite resolveP_eq. untimed_solve. Qed.

Lemma untimed_processExit (code : Z) (w : World) : untimed w (processExit code w).
Proof. untimed_solve. Qed.

Lemma untimed_rejectAllPendingRequests (message : string) (w : World) :
  untimed w (rejectAllPendingRequests message w).
Proof. rewrite rejectAllPendingRequests_eq. untimed_solve. Qed.

Lemma untimed_resolveCloseListeners (sock : nat) (ls : list (nat * nat)) (w : World) :
  untimed w (resolveCloseListeners sock ls w).
Proof. rewrite resolveCloseListeners_eq. untimed_solve. Qed.

Lemma untimed_subscribeToBalances (now : Z) (w : World) :
  untimed w (subscribeToBalances now w).
Proof. rewrite subscribeToBalances_eq. untimed_solve. Qed.

Lemma untimed_sendPong (id : jsval) (w : World) : untimed w (sendPong id w).
Proof. rewrite sendPong_eq. untimed_solve. Qed.

Lemma untimed_handleBalanceUpdate (parseFloat : string -> float) (data : jsval) (w : World) :
  untimed w (handleBalanceUpdate parseFloat data w).
Proof. rewrite handleBalanceUpdate_eq. untimed_solve. Qed.

Lemma untimed_onPingTimeout (p : nat) (w : World) : untimed w (onPingTimeout p w).
Proof.
  unfold onPingTimeout. destruct (map_has _ _); [|apply untimed_refl].
  rewrite rejectP_eq. untimed_solve.
Qed.

Lemma untimed_onBalanceInterval (now now' : Z) (w : World) :
  untimed w (onBalanceInterval now now' w).
Proof.
  unfold onBalanceInterval. destruct (isConnected w); [|apply untimed_refl].
  destruct (ws w); [|apply untimed_refl].
  destruct (isAuthenticated w); [|apply untimed_refl].
  destruct (_ <? _); [apply untimed_subscribeToBalances | apply untimed_refl].
Qed.

(** The primitives that touch timers, handles or sockets. *)
Lemma Leaked_setTimer (h : nat) (t : Timer) (ms : Q) (w : World) :
  Leaked h w ->
  Leaked h (snd (setTimer t ms w)) /\
  (nextTimer w < nextTimer (snd (setTimer t ms w)))%nat /\
  fst (setTimer t ms w) <> h.
Proof.
  intros ((t0 & d & Ht & Hi) & Hn & Hp & Hb & Hr & Hs). unfold Leaked, setTimer. gsimpl.
  assert (Hne : Nat.eqb h (nextTimer w) = false) by (apply Nat.eqb_neq; lia).
  unfold fupd. rewrite Hne. repeat split; try assumption; try lia.
  exists t0, d. split; assumption.
Qed.

Lemma Leaked_clearTimer (h h' : nat) (w : World) :
  h' <> h -> Leaked h w -> Leaked h (clearTimer h' w).
Proof.
  intros Hne ((t0 & d & Ht & Hi) & Hn & Hp & Hb & Hr & Hs). unfold Leaked. gsimpl.
  unfold fupd. destruct (Nat.eqb_spec h h') as [E|_]; [congruence|].
  repeat split; try assumption. exists t0, d. split; assumption.
Qed.

Lemma Leaked_set_pingInterval (h : nat) (v : option nat) (w : World) :
  v <> Some h -> Leaked h w -> Leaked h (set_pingInterval v w).
Proof. intros Hv (H1 & Hn & Hp & Hb & Hr & Hs). unfold Leaked. gsimpl. repeat split; assumption. Qed.

Lemma Leaked_set_balanceInterval (h : nat) (v : option nat) (w : World) :
  v <> Some h -> Leaked h w -> Leaked h (set_balanceInterval v w).
Proof. intros Hv (H1 & Hn & Hp & Hb & Hr & Hs). unfold Leaked. gsimpl. repeat split; assumption. Qed.

Lemma Leaked_set_reconnectInterval (h : nat) (v : option nat) (w : World) :
  v <> Some h -> Leaked h w -> Leaked h (set_reconnectInterval v w).
Proof. intros Hv (H1 & Hn & Hp & Hb & Hr & Hs). unfold Leaked. gsimpl. repeat split; assumption. Qed.

Lemma Leaked_setSocketState (h sock : nat) (st : ReadyState) (w : World) :
  connectionTimeout (sockets w sock) <> h -> Leaked h w -> Leaked h (setSocketState sock st w).
Proof.
  intros Hne (H1 & Hn & Hp & Hb & Hr & Hs). unfold Leaked, setSocketState. gsimpl.
  repeat split; try assumption.
  intros s. unfold fupd. destruct (Nat.eqb_spec s sock) as [->|_]; gsimpl; [congruence|].
  apply Hs.
Qed.

(** The handle of the handshake of a socket that has not closed. *)
Lemma not_leaked_timeout (h sock : nat) (w : World) :
  Leaked h w -> readyState (sockets w sock) <> CLOSED ->
  connectionTimeout (sockets w sock) <> h.
Proof. intros (_ & _ & _ & _ & _ & Hs) Hst E. apply Hst, Hs, E. Qed.

Lemma Leaked_setters (h : nat) (w w' : World) :
  timers w' = timers w -> nextTimer w' = nextTimer w ->
  pingInterval w' = pingInterval w -> balanceInterval w' = balanceInterval w ->
  reconnectInterval w' = reconnectInterval w -> sockets w' = sockets w ->
  Leaked h w -> Leaked h w'.
Proof. intros A1 A2 A3 A4 A5 A6. apply Leaked_untimed. unfold untimed. repeat split; assumption. Qed.

(** [Leaked] of a session written out with its setters, where the only
    timer armed is a fresh one. *)
Ltac leak_solve H :=
  let t0 := fresh "t0" in
  let d := fresh "d" in
  let Ht := fresh "Ht" in
  let Hi := fresh "Hi" in
  let Hn := fresh "Hn" in
  let Hp := fresh "Hp" in
  let Hb := fresh "Hb" in
  let Hr := fresh "Hr" in
  let Hs := fresh "Hs" in
  let Hne := fresh "Hne" in
  destruct H as ((t0 & d & Ht & Hi) & Hn & Hp & Hb & Hr & Hs);
  match type of Hn with
  | (?h < nextTimer ?w)%nat =>
      assert (Hne : Nat.eqb h (nextTimer w) = false) by (apply Nat.eqb_neq; lia)
  end;
  unfold Leaked; gsimpl; unfold fupd; rewrite ?Hne;
  repeat split; try assumption; try lia;
  try (exists t0, d; split; assumption).

Lemma Leaked_sendPing (h : nat) (now : Z) (w : World) :
  Leaked h w -> Leaked h (sendPing now w) /\ (nextTimer w <= nextTimer (sendPing now w))%nat.
Proof.
  intros H. unfold sendPing, newPromise, wsSend, setTimer. gsimpl.
  destruct (isConnected w); [|rewrite rejectP_eq; split; [leak_solve H | gsimpl; lia]].
  destruct (ws w) as [sock|]; [|rewrite rejectP_eq; split; [leak_solve H | gsimpl; lia]].
  destruct (readyState (sockets w sock)); rewrite ?rejectP_eq; gsimpl;
    (split; [leak_solve H | gsimpl; lia]).
Qed.

Lemma Leaked_startPingInterval (h : nat) (now : Z) (w : World) :
  Leaked h w -> Leaked h (startPingInterval now w).
Proof.
  intros H. unfold startPingInterval.
  destruct (Leaked_sendPing h now w H) as [H1 _]. revert H1.
  generalize (sendPing now w). intros x Hx. unfold setTimer. gsimpl.
  assert (Hx' := Hx). destruct Hx' as (_ & Hn & _).
  leak_solve Hx. intros E. injection E as E. lia.
Qed.

Lemma Leaked_startBalanceInterval (h : nat) (w : World) :
  Leaked h w -> Leaked h (startBalanceInterval w).
Proof.
  intros H. unfold startBalanceInterval, setTimer. gsimpl.
  assert (H' := H). destruct H' as (_ & Hn & _).
  assert (Hne : Nat.eqb h (S (nextTimer w)) = false) by (apply Nat.eqb_neq; lia).
  leak_solve H; rewrite ?Hne; try (exists t0, d; split; assumption).
  intros E. injection E as E. lia.
Qed.

Lemma Leaked_onSettled (h sock : nat) (now : Z) (w : World) :
  Leaked h w -> Leaked h (onSettled sock now w).
Proof.
  intros H. unfold onSettled. apply (Leaked_untimed h _ _ (untimed_resolveP _ _ _)).
  apply Leaked_startBalanceInterval, Leaked_startPingInterval, H.
Qed.

Lemma Leaked_onPingInterval (h : nat) (now : Z) (w : World) :
  Leaked h w -> Leaked h (onPingInterval now w).
Proof.
  intros H. unfold onPingInterval. destruct (isConnected w); [|exact H].
  destruct (ws w); [|exact H]. apply Leaked_sendPing. exact H.
Qed.

Lemma Leaked_arm (h : nat) (w : World) : Leaked h w -> Leaked h (arm w).
Proof.
  intros H. unfold arm. assert (H' := H). destruct H' as (_ & Hn & _).
  leak_solve H. intros E. injection E as E. lia.
Qed.

Lemma Leaked_scheduleReconnect (h : nat) (w : World) :
  Leaked h w -> Leaked h (scheduleReconnect w).
Proof.
  intros H. rewrite scheduleReconnect_eq. destruct (reconnect_blocked w);
    [exact H | apply Leaked_arm; exact H].
Qed.

Lemma cleared_other (h : nat) (o : option nat) (f : nat -> option (Timer * Q)) :
  o <> Some h -> clearOpt o f h = f h.
Proof.
  intros Hne. unfold clearOpt, fupd. destruct o as [h'|]; [|reflexivity].
  destruct (Nat.eqb_spec h h') as [->|_]; [congruence | reflexivity].
Qed.

Lemma Leaked_stopIntervals (h : nat) (w : World) : Leaked h w -> Leaked h (stopIntervals w).
Proof.
  intros ((t0 & d & Ht & Hi) & Hn & Hp & Hb & Hr & Hs). rewrite stopIntervals_eq.
  unfold Leaked. gsimpl. rewrite !cleared_other by assumption.
  repeat split; try assumption; try discriminate. exists t0, d. split; assumption.
Qed.

Lemma Leaked_stopReconnection (h : nat) (w : World) :
  Leaked h w -> Leaked h (stopReconnection w).
Proof.
  intros ((t0 & d & Ht & Hi) & Hn & Hp & Hb & Hr & Hs). rewrite stopReconnection_eq.
  unfold Leaked. gsimpl. rewrite !cleared_other by assumption.
  repeat split; try assumption; try discriminate. exists t0, d. split; assumption.
Qed.

Lemma Leaked_handleDisconnection (h : nat) (w : World) :
  Leaked h w -> Leaked h (handleDisconnection w).
Proof.
  intros H. unfold handleDisconnection.
  assert (H1 : Leaked h (rejectAllPendingRequests "Connection lost"
                           (stopIntervals (set_isAuthenticated false
                                             (set_isConnected false w))))).
  { apply (Leaked_untimed h _ _ (untimed_rejectAllPendingRequests _ _)).
    apply Leaked_stopIntervals. apply (Leaked_setters h w); try reflexivity. exact H. }
  destruct (negb _); [apply Leaked_scheduleReconnect|]; exact H1.
Qed.

Lemma Leaked_afterConnectRejected (h sock : nat) (w : World) :
  Leaked h w -> Leaked h (afterConnectRejected sock w).
Proof.
  intros H. unfold afterConnectRejected. destruct (viaReconnect (sockets w sock)).
  - apply Leaked_scheduleReconnect. exact H.
  - exact (Leaked_untimed h _ _ (untimed_processExit 1 w) H).
Qed.

Lemma Leaked_onConnectionTimeout (h sock : nat) (w : World) :
  Leaked h w -> Leaked h (onConnectionTimeout sock w).
Proof.
  intros H. unfold onConnectionTimeout, rejectConnect.
  assert (H1 : Leaked h (scheduleReconnect (rejectP (PConnect sock) "Connection timeout" w)))
    by (apply Leaked_scheduleReconnect, (Leaked_untimed h _ _ (untimed_rejectP _ _ w)), H).
  destruct (promises w (PConnect sock)); [exact H1|].
  apply Leaked_afterConnectRejected. exact H1.
Qed.

Lemma Leaked_onError (h sock : nat) (message : string) (w : World) :
  connectionTimeout (sockets w sock) <> h -> Leaked h w -> Leaked h (onError sock message w).
Proof.
  intros Hne H. unfold onError, rejectConnect.
  assert (H1 : Leaked h (handleDisconnection
                           (clearTimer (connectionTimeout (sockets w sock)) w)))
    by (apply Leaked_handleDisconnection, Leaked_clearTimer; assumption).
  apply (Leaked_untimed h _ _ (untimed_rejectP (PConnect sock) message _)) in H1.
  destruct (promises _ _); [exact H1|].
  apply Leaked_afterConnectRejected. exact H1.
Qed.

Lemma Leaked_onHandshakeFailure (h sock : nat) (message : string) (w : World) :
  connectionTimeout (sockets w sock) <> h -> Leaked h w ->
  Leaked h (onHandshakeFailure sock message w).
Proof.
  intros Hne H. unfold onHandshakeFailure, rejectConnect.
  assert (H1 : Leaked h (handleDisconnection
                           (clearTimer (connectionTimeout (sockets w sock)) w)))
    by (apply Leaked_handleDisconnection, Leaked_clearTimer; assumption).
  pose proof (sockets_handleDisconnection
                (clearTimer (connectionTimeout (sockets w sock)) w)) as S1.
  revert H1 S1.
  generalize (handleDisconnection (clearTimer (connectionTimeout (sockets w sock)) w)).
  intros w1 H1 S1. cbv zeta. cbn [fst snd].
  apply (Leaked_untimed h _ _ (untimed_rejectP (PConnect sock) message w1)) in H1.
  assert (S2 : connectionTimeout (sockets (rejectP (PConnect sock) message w1) sock) <> h)
    by (rewrite sockets_rejectP, S1; exact Hne).
  revert H1 S2. generalize (rejectP (PConnect sock) message w1). intros w2 H2 S2.
  assert (H3 : Leaked h (handleDisconnection
                           (clearTimer (connectionTimeout (sockets w2 sock)) w2)))
    by (apply Leaked_handleDisconnection, Leaked_clearTimer; assumption).
  revert H3.
  generalize (handleDisconnection (clearTimer (connectionTimeout (sockets w2 sock)) w2)).
  intros w3 H3.
  apply (Leaked_untimed h _ _
           (untimed_resolveCloseListeners sock (closeListeners w3) w3)) in H3.
  destruct (existsb _ _); [exact (Leaked_untimed h _ _ (untimed_processExit 0 _) H3)|].
  destruct (promises w1 (PConnect sock)); [exact H3|].
  apply Leaked_afterConnectRejected. exact H3.
Qed.

Lemma Leaked_onClose (h sock : nat) (w : World) :
  connectionTimeout (sockets w sock) <> h -> Leaked h w -> Leaked h (onClose sock w).
Proof.
  intros Hne H. unfold onClose. cbv zeta.
  assert (H1 : Leaked h (handleDisconnection
                           (clearTimer (connectionTimeout (sockets w sock)) w)))
    by (apply Leaked_handleDisconnection, Leaked_clearTimer; assumption).
  apply (Leaked_untimed h _ _
           (untimed_resolveCloseListeners sock
              (closeListeners
                 (handleDisconnection (clearTimer (connectionTimeout (sockets w sock)) w)))
              _)) in H1.
  destruct (existsb _ _); [|exact H1].
  exact (Leaked_untimed h _ _ (untimed_processExit 0 _) H1).
Qed.

Lemma Leaked_onOpen (h sock : nat) (now : Z) (w : World) :
  connectionTimeout (sockets w sock) <> h -> Leaked h w -> Leaked h (onOpen sock now w).
Proof.
  intros Hne H. unfold onOpen.
  pose proof (Leaked_clearTimer h _ w Hne H) as H1. revert H1.
  generalize (clearTimer (connectionTimeout (sockets w sock)) w). intros x Hx.
  assert (Hy : Leaked h (set_lastConnectionTime now
                           (set_reconnectAttempts 0
                              (set_isReconnecting false (set_isConnected true x)))))
    by (apply (Leaked_setters h x); try reflexivity; exact Hx).
  apply Leaked_setTimer. exact Hy.
Qed.

Lemma Leaked_connect (h : nat) (b : bool) (w : World) : Leaked h w -> Leaked h (connect b w).
Proof.
  intros H. unfold connect, setTimer. gsimpl.
  assert (H' := H). destruct H' as (_ & Hn & _ & _ & _ & Hs).
  leak_solve H. intros s. destruct (Nat.eqb_spec s (nextSocket w)) as [->|_]; gsimpl.
  - intros E. lia.
  - apply Hs.
Qed.

Lemma Leaked_wsClose (h sock : nat) (w : World) : Leaked h w -> Leaked h (wsClose sock w).
Proof.
  intros H. unfold wsClose. destruct (readyState (sockets w sock)) eqn:Hst; try exact H;
    (apply Leaked_setSocketState; [|exact H]);
    apply (not_leaked_timeout h sock w H); rewrite Hst; discriminate.
Qed.

Lemma Leaked_close (h : nat) (w : World) : Leaked h w -> Leaked h (close w).
Proof.
  intros H. unfold close.
  assert (H1 : Leaked h (rejectAllPendingRequests "Connection closed by user"
                           (stopReconnection (stopIntervals w))))
    by (apply (Leaked_untimed h _ _ (untimed_rejectAllPendingRequests _ _)),
          Leaked_stopReconnection, Leaked_stopIntervals, H).
  revert H1. generalize (rejectAllPendingRequests "Connection closed by user"
                           (stopReconnection (stopIntervals w))). intros x Hx.
  unfold newPromise. gsimpl. destruct (ws x) as [sock|].
  - apply Leaked_wsClose. apply (Leaked_setters h x); try reflexivity. exact Hx.
  - apply (Leaked_untimed h _ _ (untimed_resolveP _ _ _)).
    apply (Leaked_setters h x); try reflexivity. exact Hx.
Qed.

Lemma Leaked_gracefulShutdown (h : nat) (w : World) :
  Leaked h w -> Leaked h (gracefulShutdown w).
Proof.
  intros H. unfold gracefulShutdown. destruct (ws w).
  - apply Leaked_close. exact H.
  - exact (Leaked_untimed h _ _ (untimed_processExit 0 _) (Leaked_close h w H)).
Qed.

Lemma Leaked_handleMessage (parseFloat : string -> float) (h : nat) (now now' : Z)
    (message : jsval) (w : World) :
  Leaked h w -> Leaked h (handleMessage parseFloat now now' message w).
Proof.
  intros H. unfold handleMessage.
  repeat match goal with
         | |- context [if ?c then _ else _] => destruct c
         | |- context [match get_js ?a ?b with _ => _ end] => destruct (get_js a b)
         | |- context [match toStringJS ?a with _ => _ end] => destruct (toStringJS a)
         end;
    try exact H;
    try (apply Leaked_stopReconnection);
    try (apply (Leaked_untimed h _ _ (untimed_sendPong _ _)));
    try (apply (Leaked_untimed h _ _ (untimed_handleBalanceUpdate _ _ _)));
    try exact H;
    rewrite ?resolveP_eq, ?rejectP_eq;
    (apply (Leaked_setters h w); [reflexivity..|exact H]).
Qed.

Lemma Leaked_onMessage (parseFloat : string -> float) (h : nat) (data : option jsval)
    (now now' : Z) (w : World) :
  Leaked h w -> Leaked h (onMessage parseFloat data now now' w).
Proof.
  intros H. unfold onMessage. destruct data as [message|]; [|exact H].
  destruct message; try exact H; apply Leaked_handleMessage; exact H.
Qed.

Section LeakedRuns.

Variable parseFloat : string -> float.

Lemma Leaked_step (h : nat) (w w' : World) (e : Event) :
  Leaked h w -> step parseFloat w e = Some w' -> Leaked h w'.
Proof.
  intros H Hstep. unfold step in Hstep. destruct (exited w); [discriminate|].
  destruct e as [sock now|sock data now now'|sock message|sock|h' now now'|].
  - destruct (readyState (sockets w sock)) eqn:Hst; try discriminate.
    injection Hstep as <-.
    assert (Hne : connectionTimeout (sockets w sock) <> h)
      by (apply (not_leaked_timeout h sock w H); rewrite Hst; discriminate).
    apply Leaked_onOpen.
    + unfold setSocketState. gsimpl. unfold fupd. rewrite Nat.eqb_refl. exact Hne.
    + apply Leaked_setSocketState; assumption.
  - destruct (readyState (sockets w sock)); try discriminate;
      injection Hstep as <-; apply Leaked_onMessage; exact H.
  - assert (Hne : connectionTimeout (sockets w sock) <> h)
      by (apply (not_leaked_timeout h sock w H);
          destruct (readyState (sockets w sock)); discriminate).
    assert (Hw' : w' = onError sock message (setSocketState sock ERRORED w) \/
                   w' = onHandshakeFailure sock message (setSocketState sock CLOSED w))
      by (destruct (readyState (sockets w sock)); try discriminate;
          injection Hstep as <-; auto).
    destruct Hw' as [-> | ->]; [apply Leaked_onError | apply Leaked_onHandshakeFailure];
      try (unfold setSocketState; gsimpl; unfold fupd; rewrite Nat.eqb_refl; exact Hne);
      apply Leaked_setSocketState; assumption.
  - assert (Hne : connectionTimeout (sockets w sock) <> h)
      by (apply (not_leaked_timeout h sock w H);
          destruct (readyState (sockets w sock)); discriminate).
    assert (Hw' : w' = onClose sock (setSocketState sock CLOSED w))
      by (destruct (readyState (sockets w sock)); congruence).
    subst w'. apply Leaked_onClose.
    + unfold setSocketState. gsimpl. unfold fupd. rewrite Nat.eqb_refl. exact Hne.
    + apply Leaked_setSocketState; assumption.
  - unfold fireTimer in Hstep. destruct (timers w h') as [[t d]|] eqn:Ht; [|discriminate].
    assert (Hclr : is_interval t = false -> Leaked h (clearTimer h' w)).
    { intros Hi. apply Leaked_clearTimer; [|exact H]. intros ->.
      destruct H as ((t0 & d0 & Ht0 & Hi0) & _). congruence. }
    destruct t; cbn [is_interval] in Hstep; injection Hstep as <- || idtac.
    + apply Leaked_onConnectionTimeout, Hclr. reflexivity.
    + apply Leaked_onSettled, Hclr. reflexivity.
    + apply Leaked_connect, Hclr. reflexivity.
    + apply Leaked_onPingInterval. exact H.
    + apply (Leaked_untimed h _ _ (untimed_subscribeToBalances now _)), Hclr. reflexivity.
    + exact (Leaked_untimed h _ _ (untimed_onBalanceInterval now now' w) H).
    + apply (Leaked_untimed h _ _ (untimed_onPingTimeout p _)), Hclr. reflexivity.
  - injection Hstep as <-. apply Leaked_gracefulShutdown. exact H.
Qed.

(** X21.  An interval timer that the client has lost track of is never
    cleared.  When an interval of [startPingInterval] or
    [startBalanceInterval] is running and its handle is no longer the value
    of [pingInterval] or [balanceInterval] -- both functions overwrite the
    field without clearing the interval it holds -- then whatever happens
    next, disconnection, reconnection and [close()] included, the interval
    stays armed and no field holds its handle: [stopIntervals] cannot reach
    it. *)
Theorem lost_interval_is_never_cleared (h : nat) (w w' : World) (events : list Event) :
  Leaked h w ->
  run parseFloat w events = Some w' ->
  (exists t d, timers w' h = Some (t, d) /\ is_interval t = true) /\
  pingInterval w' <> Some h /\ balanceInterval w' <> Some h /\
  timers (stopIntervals w') h = timers w' h.
Proof.
  intros H Hrun.
  assert (H' : Leaked h w').
  { revert w H Hrun. induction events as [|e events IH]; intros w H Hrun.
    - injection Hrun as <-. exact H.
    - cbn [run] in Hrun. destruct (step parseFloat w e) as [w1|] eqn:Hstep; [|discriminate].
      exact (IH w1 (Leaked_step h w w1 e H Hstep) Hrun). }
  destruct H' as (H1 & _ & Hp & Hb & _). repeat split; try assumption.
  rewrite stopIntervals_eq. gsimpl. rewrite !cleared_other by assumption. reflexivity.
Qed.

End LeakedRuns.

(** ** The properties above, on sample sessions *)

Lemma disconnection_clears_session_witness :
  disconnected_from pinging (from_run (step parseFloatDecimal pinging (EvClose 0))).
Proof.
  apply (disconnection_clears_session parseFloatDecimal pinging _ (EvClose 0)).
  - exists "key", "secret", [EvOpen 0 1000; EvTimer 1 4000 4000]. vm_compute. reflexivity.
  - left. exists 0%nat. reflexivity.
  - vm_compute. reflexivity.
Defined.

Lemma disconnection_schedules_reconnect_witness :
  reconnectInterval (from_run (step parseFloatDecimal pinging (EvClose 0)))
  = Some (nextTimer pinging) /\
  timers (from_run (step parseFloatDecimal pinging (EvClose 0))) (nextTimer pinging)
  = Some (TReconnect, 1000 # 1) /\
  getReconnectStatus (from_run (step parseFloatDecimal pinging (EvClose 0)))
  = mkReconnectStatus 1 10 true /\
  armed (from_run (step parseFloatDecimal pinging (EvClose 0))) = S (armed pinging).
Proof.
  apply (disconnection_schedules_reconnect parseFloatDecimal pinging _ (EvClose 0)).
  - exists "key", "secret", [EvOpen 0 1000; EvTimer 1 4000 4000]. vm_compute. reflexivity.
  - vm_compute. reflexivity.
  - vm_compute. discriminate.
  - left. exists 0%nat. reflexivity.
  - vm_compute. reflexivity.
Defined.

Lemma connection_timeout_leaves_socket_witness :
  sockets (from_run (step parseFloatDecimal retrying (EvTimer 7 16000 16000)))
  = sockets retrying /\
  (readyState (sockets (from_run (step parseFloatDecimal retrying (EvTimer 7 16000 16000)))
                 1%nat) = CONNECTING \/
   readyState (sockets (from_run (step parseFloatDecimal retrying (EvTimer 7 16000 16000)))
                 1%nat) = ABORTING) /\
  (promises retrying (PConnect 1) = None ->
   promises (from_run (step parseFloatDecimal retrying (EvTimer 7 16000 16000))) (PConnect 1)
   = Some (Rejected "Connection timeout")) /\
  (exited (from_run (step parseFloatDecimal retrying (EvTimer 7 16000 16000))) = Some 1 \/
   (exited (from_run (step parseFloatDecimal retrying (EvTimer 7 16000 16000))) = None /\
    armed (from_run (step parseFloatDecimal retrying (EvTimer 7 16000 16000)))
    = armed retrying /\
    getReconnectStatus (from_run (step parseFloatDecimal retrying (EvTimer 7 16000 16000)))
    = getReconnectStatus retrying /\
    forall h' t d',
      timers (from_run (step parseFloatDecimal retrying (EvTimer 7 16000 16000))) h'
      = Some (t, d') ->
      timers retrying h' = Some (t, d'))).
Proof.
  apply (connection_timeout_leaves_socket parseFloatDecimal retrying _ 7%nat 1%nat 10000%Q
           16000 16000).
  - exists "key", "secret",
      [EvOpen 0 1000; EvTimer 1 4000 4000; EvClose 0; EvTimer 6 6000 6000].
    vm_compute. reflexivity.
  - vm_compute. reflexivity.
  - vm_compute. reflexivity.
Defined.

Lemma socket_close_completes_shutdown_witness :
  (forall p, In (0%nat, p) (closeListeners closing) ->
             promises (from_run (step parseFloatDecimal closing (EvClose 0))) (PClose p)
             = Some (Fulfilled JUndefined) /\
             exited (from_run (step parseFloatDecimal closing (EvClose 0))) = Some 0) /\
  ((forall p, ~ In (0%nat, p) (closeListeners closing)) ->
   exited (from_run (step parseFloatDecimal closing (EvClose 0))) = None).
Proof.
  apply (socket_close_completes_shutdown parseFloatDecimal closing _ 0%nat).
  - exists "key", "secret", [EvOpen 0 1000; EvTimer 1 4000 4000; EvShutdown].
    vm_compute. reflexivity.
  - vm_compute. reflexivity.
Defined.


Lemma shutdown_after_close_never_completes_witness :
  closeListeners (gracefulShutdown lost) = closeListeners lost ++ [(0%nat, nextPromise lost)] /\
  promises (from_run (run parseFloatDecimal lost [EvShutdown; EvTimer 2 14000 14000]))
    (PClose (nextPromise lost)) = None /\
  exited (from_run (run parseFloatDecimal lost [EvShutdown; EvTimer 2 14000 14000])) = None /\
  (forall s,
     readyState
       (sockets (from_run (run parseFloatDecimal lost [EvShutdown; EvTimer 2 14000 14000])) s)
     = CLOSED).
Proof.
  apply (shutdown_after_close_never_completes parseFloatDecimal lost _ 0%nat
           [EvTimer 2 14000 14000]).
  - exists "key", "secret", [EvOpen 0 1000; EvTimer 1 4000 4000; EvClose 0].
    vm_compute. reflexivity.
  - vm_compute. reflexivity.
  - vm_compute. reflexivity.
  - intros s. vm_compute. destruct s; reflexivity.
  - vm_compute. reflexivity.
Defined.

Lemma ping_pong_round_trip_witness :
  let w1 := sendPing 34000 pinging in
  let w2 := handleMessage parseFloatDecimal 34050 34051 (pong 2) w1 in
  hd_error (tl (trace w1)) = Some (Send 0 (pingFrame (requestId pinging))) /\
  map_get (requestId pinging) (pendingRequests w1)
  = Some (mkPending (nextPromise pinging) 34000) /\
  promises w2 (PRequest (nextPromise pinging))
  = Some (Fulfilled (JObj [("latency", JNum (34050 - 34000)); ("timestamp", JNum 34051)])) /\
  pendingRequests w2 = pendingRequests pinging /\
  requestId w2 = requestId pinging + 1.
Proof.
  apply (ping_pong_round_trip parseFloatDecimal pinging 0%nat (pong 2) 34000 34050 34051).
  - exists "key", "secret", [EvOpen 0 1000; EvTimer 1 4000 4000]. vm_compute. reflexivity.
  - vm_compute. reflexivity.
  - vm_compute. reflexivity.
  - vm_compute. reflexivity.
  - vm_compute. reflexivity.
  - vm_compute. reflexivity.
Defined.

Lemma failed_ping_registers_nothing_witness :
  pendingRequests (sendPing 7000 lost) = pendingRequests lost /\
  requestId (sendPing 7000 lost) = requestId lost /\
  timers (sendPing 7000 lost) = timers lost /\
  exists message,
    promises (sendPing 7000 lost) (PRequest (nextPromise lost)) = Some (Rejected message) /\
    trace (sendPing 7000 lost) = Reject (PRequest (nextPromise lost)) message :: trace lost.
Proof.
  apply (failed_ping_registers_nothing parseFloatDecimal lost 7000).
  - exists "key", "secret", [EvOpen 0 1000; EvTimer 1 4000 4000; EvClose 0].
    vm_compute. reflexivity.
  - left. vm_compute. reflexivity.
Defined.

Lemma backoff_bounds_witness :
  (1000 <= reconnectDelayFor 1)%Q /\
  (reconnectDelayFor 1 <= reconnectDelayFor 10)%Q /\
  (reconnectDelayFor 10 <= 30000)%Q /\
  ((reconnectDelayFor 1 == 30000)%Q <-> 10 <= 1).
Proof. apply (backoff_bounds 1 10). lia. Defined.

Lemma compareVersions_lexicographic_witness :
  exists order,
    Deploy.compareVersions "v16.20.2" "v18.0.0" = Some order /\
    (order < 0 <->
     exists i, Deploy.component [Deploy.Num 16; Deploy.Num 20; Deploy.Num 2] i
               < Deploy.component [Deploy.Num 18; Deploy.Num 0; Deploy.Num 0] i /\
               forall j, (j < i)%nat ->
                 Deploy.component [Deploy.Num 16; Deploy.Num 20; Deploy.Num 2] j
                 = Deploy.component [Deploy.Num 18; Deploy.Num 0; Deploy.Num 0] j) /\
    (order = 0 <->
     forall i, Deploy.component [Deploy.Num 16; Deploy.Num 20; Deploy.Num 2] i
               = Deploy.component [Deploy.Num 18; Deploy.Num 0; Deploy.Num 0] i).
Proof.
  apply (compareVersions_lexicographic "v16.20.2" "v18.0.0"
           [Deploy.Num 16; Deploy.Num 20; Deploy.Num 2]
           [Deploy.Num 18; Deploy.Num 0; Deploy.Num 0]).
  - vm_compute. reflexivity.
  - vm_compute. reflexivity.
Defined.



(** The late ['close'] of the first socket has cleared [connected] although
    the second socket, the one [ws] holds, is open. *)
Example late_close_marks_disconnected :
  ws overlapped = Some 1%nat /\
  readyState (sockets overlapped 1) = OPEN /\
  connected (getConnectionStatus overlapped) = false.
Proof. vm_compute. repeat split. Qed.

Lemma send_never_throws_witness :
  (forall frame, wsSend 0 frame pinging <> None) /\
  map_get (requestId pinging) (pendingRequests (sendPing 34000 pinging))
  = Some (mkPending (nextPromise pinging) 34000) /\
  requestId (sendPing 34000 pinging) = requestId pinging + 1 /\
  timers (sendPing 34000 pinging) (nextTimer pinging)
  = Some (TPingTimeout (nextPromise pinging), 10000%Q).
Proof.
  apply (send_never_throws parseFloatDecimal pinging 0%nat 34000).
  - exists "key", "secret", [EvOpen 0 1000; EvTimer 1 4000 4000]. vm_compute. reflexivity.
  - vm_compute. reflexivity.
  - vm_compute. reflexivity.
Defined.

Lemma one_reconnect_between_opens_witness :
  (armed (from_run (run parseFloatDecimal pinging
                      [EvClose 0; EvTimer 6 6000 6000; EvError 1 "refused"]))
   = armed pinging \/
   armed (from_run (run parseFloatDecimal pinging
                      [EvClose 0; EvTimer 6 6000 6000; EvError 1 "refused"]))
   = S (armed pinging)) /\
  (isReconnecting pinging = true ->
   armed (from_run (run parseFloatDecimal pinging
                      [EvClose 0; EvTimer 6 6000 6000; EvError 1 "refused"]))
   = armed pinging /\
   scheduleReconnect
     (from_run (run parseFloatDecimal pinging
                  [EvClose 0; EvTimer 6 6000 6000; EvError 1 "refused"]))
   = from_run (run parseFloatDecimal pinging
                 [EvClose 0; EvTimer 6 6000 6000; EvError 1 "refused"])).
Proof.
  apply (one_reconnect_between_opens parseFloatDecimal pinging _
           [EvClose 0; EvTimer 6 6000 6000; EvError 1 "refused"]).
  - vm_compute. reflexivity.
  - reflexivity.
Defined.

Lemma ping_only_close_rejects_pending_witness :
  pendingRequests (PingOnly.close two_pending) = [] /\
  pingInterval (PingOnly.close two_pending) = None /\
  (forall h, pingInterval two_pending = Some h -> timers (PingOnly.close two_pending) h = None) /\
  (forall k pr, In (k, pr) (pendingRequests two_pending) ->
                promises (PingOnly.close two_pending) (PRequest (waiter pr))
                = Some (Rejected "Connection closed by user")).
Proof.
  apply (ping_only_close_rejects_pending two_pending).
  intros k pr H.
  assert (E : pendingRequests two_pending = [(1, mkPending 0 100); (2, mkPending 1 200)])
    by (vm_compute; reflexivity).
  rewrite E in H.
  destruct H as [H|[H|[]]]; injection H as <- <-; vm_compute; reflexivity.
Defined.

Lemma lost_interval_is_never_cleared_witness :
  (exists t d,
     timers (from_run (run parseFloatDecimal leaky [EvClose 1; EvShutdown])) 6%nat
     = Some (t, d) /\ is_interval t = true) /\
  pingInterval (from_run (run parseFloatDecimal leaky [EvClose 1; EvShutdown])) <> Some 6%nat /\
  balanceInterval (from_run (run parseFloatDecimal leaky [EvClose 1; EvShutdown]))
  <> Some 6%nat /\
  timers (stopIntervals (from_run (run parseFloatDecimal leaky [EvClose 1; EvShutdown]))) 6%nat
  = timers (from_run (run parseFloatDecimal leaky [EvClose 1; EvShutdown])) 6%nat.
Proof.
  apply (lost_interval_is_never_cleared parseFloatDecimal 6%nat leaky _
           [EvClose 1; EvShutdown]).
  - unfold Leaked. split; [|split; [|split; [|split; [|split]]]].
    + exists TPingInterval, 30000%Q. vm_compute. split; reflexivity.
    + vm_compute. lia.
    + vm_compute. discriminate.
    + vm_compute. discriminate.
    + vm_compute. discriminate.
    + intros s. destruct s as [|[|s]]; vm_compute; discriminate.
  - vm_compute. reflexivity.
Defined.
